(** * Calendar bot worker: credential store, token lifecycle, handshake state
      and multi-account broadcast

    A shallow embedding of the Cloudflare worker's [persistence.js],
    [oauth.js] and [calendar.js].  JavaScript values are a small inductive
    type, objects are finite maps from property names to values, the KV
    namespace [env.EVENTS] is a finite map from keys to JSON values, and
    every [async] function is a computation in a state-and-exception monad
    over the worker's world: the KV namespace, the state of everything
    outside the worker (clock, entropy, the HTTP services) and the console.

    What the runtime provides (WebCrypto, the text codec, base64, [fetch],
    the clock) is gathered in one record of operations, [platform]; the
    worker's own code is written over an arbitrary platform.

    The model's reading of the runtime:
    - one request is followed from start to end; requests do not interleave;
    - the KV namespace answers every [get], [put], [delete] and [list]
      (no storage error) and reads see the last write; a listing returns
      one page, the first 1000 names of the prefix, as the runtime does;
    - numbers are integers or [NaN], and a string is a sequence of code
      units below 256 (identifiers, emails, tokens, base64 and hex text). *)

From Stdlib Require Import ZArith String Ascii List Bool Lia.
From Stdlib.Strings Require Import Byte.
From stdpp Require Import base option list strings gmap sorting pretty.

#[local] Set Warnings "-register-all".
#[local] Open Scope Z_scope.

(* ================================================================== *)
(** ** JavaScript values *)
(* ================================================================== *)

(** Numbers are the integers (timestamps in milliseconds, HTTP status
    codes, lifetimes in seconds) together with [NaN]; strings are
    sequences of code units below 256. *)
Inductive val : Type :=
| VUndef
| VNull
| VBool (b : bool)
| VNum (n : Z)
| VNaN
| VStr (s : string)
| VObj (o : gmap string val).

(** [if (v)], [!v], [a || b], [a && b] *)
Definition truthy (v : val) : bool :=
  match v with
  | VUndef | VNull | VNaN => false
  | VBool b => b
  | VNum n => negb (n =? 0)
  | VStr s => negb (String.eqb s "")
  | VObj _ => true
  end.

Definition js_or (a b : val) : val := if truthy a then a else b.

(** [`${v}`] and the other places where a value is turned into a string *)
Definition tpl (v : val) : string :=
  match v with
  | VUndef => "undefined"
  | VNull => "null"
  | VBool true => "true"
  | VBool false => "false"
  | VNum n => pretty n
  | VNaN => "NaN"
  | VStr s => s
  | VObj _ => "[object Object]"
  end.

(** [v.k] on a receiver that is neither [undefined] nor [null]: a
    primitive has none of the properties read here. *)
Definition field (k : string) (v : val) : val :=
  match v with
  | VObj o => default VUndef (o !! k)
  | _ => VUndef
  end.

(** [a === b]; two objects obtained from different places are never the
    same object. *)
Definition strict_eq (a b : val) : bool :=
  match a, b with
  | VUndef, VUndef | VNull, VNull => true
  | VBool x, VBool y => Bool.eqb x y
  | VNum x, VNum y => x =? y
  | VStr x, VStr y => String.eqb x y
  | _, _ => false
  end.

(** [JSON.parse(JSON.stringify(v))]: what [EVENTS.get(key, 'json')] gives
    back for what [EVENTS.put(key, JSON.stringify(v))] stored.  Properties
    holding [undefined] are left out and [NaN] becomes [null]. *)
Fixpoint jsonify (v : val) : val :=
  match v with
  | VNaN => VNull
  | VObj o =>
      VObj (omap (λ x, match x with VUndef => None | _ => Some (jsonify x) end) o)
  | _ => v
  end.

(** The result of a call: a value, or an exception with its message. *)
Inductive res (A : Type) : Type :=
| Ok (a : A)
| Throw (e : string).
Arguments Ok {A} a.
Arguments Throw {A} e.

(** [v.k] where the receiver may be [undefined] or [null] *)
Definition prop (k : string) (v : val) : res val :=
  match v with
  | VUndef | VNull =>
      Throw ("TypeError: Cannot read properties of " +:+ tpl v +:+ " (reading '" +:+ k +:+ "')")
  | _ => Ok (field k v)
  end.

(** [v.k = x] in module (strict) code *)
Definition set_field (k : string) (x : val) (v : val) : res val :=
  match v with
  | VObj o => Ok (VObj (<[k := x]> o))
  | _ => Throw ("TypeError: Cannot create property '" +:+ k +:+ "' on " +:+ tpl v)
  end.

(** [delete v.k] *)
Definition delete_field (k : string) (v : val) : val :=
  match v with
  | VObj o => VObj (delete k o)
  | _ => v
  end.

(** An object literal *)
Definition object (fields : list (string * val)) : val :=
  VObj (list_to_map fields).

(** [s.includes(needle)] *)
Fixpoint includes (s needle : string) : bool :=
  String.prefix needle s ||
  match s with
  | EmptyString => false
  | String _ t => includes t needle
  end.

(** [s.split(sep)] for a separator of one code unit *)
Fixpoint split (sep : ascii) (s : string) : list string :=
  match s with
  | EmptyString => [EmptyString]
  | String c t =>
      if Ascii.eqb c sep then EmptyString :: split sep t
      else match split sep t with
           | h :: r => String c h :: r
           | [] => [String c EmptyString]
           end
  end.

(** [s.toLowerCase()] on code units below 256: A-Z and the capital
    letters of Latin-1 (U+00C0 to U+00DE, the multiplication sign apart). *)
Definition lower_unit (c : ascii) : ascii :=
  let n := N_of_ascii c in
  if ((65 <=? n) && (n <=? 90) || (192 <=? n) && (n <=? 222) && negb (n =? 215))%N
  then ascii_of_N (n + 32) else c.

Fixpoint toLowerCase (s : string) : string :=
  match s with
  | EmptyString => EmptyString
  | String c t => String (lower_unit c) (toLowerCase t)
  end.

(** [b.toString(16).padStart(2, '0')] *)
Definition hex_digit (n : N) : ascii :=
  ascii_of_N (if (n <? 10)%N then 48 + n else 87 + n)%N.

Definition hex_byte (b : byte) : string :=
  let n := Byte.to_N b in
  String (hex_digit (n / 16)) (String (hex_digit (n mod 16)) EmptyString).

Definition hex (bs : list byte) : string :=
  foldr (λ b acc, hex_byte b +:+ acc) EmptyString bs.

(* ================================================================== *)
(** ** HTTP exchanges *)
(* ================================================================== *)

Record request : Type := Request {
  url : string;
  method : string;
  headers : list (string * string);
  body : option string
}.

Record response : Type := Response {
  status : Z;
  body_text : string
}.

(** [response.ok] *)
Definition response_ok (r : response) : bool :=
  (200 <=? status r) && (status r <=? 299).

(* ================================================================== *)
(** ** The platform *)
(* ================================================================== *)

(** What the Workers runtime and the outside world provide.  [Ext] is the
    state of everything outside the worker; reading the clock, drawing
    entropy and an HTTP exchange may each change it.  [fetch] yields
    [inl msg] when the promise rejects (a transport error). *)
Record platform (Ext : Type) : Type := Platform {
  Date_now : Ext → Z * Ext;
  toISOString : Z → string;
  random_byte : Ext → byte * Ext;
  randomUUID : Ext → string * Ext;
  fetch : request → Ext → (string + response) * Ext;
  TextEncoder_encode : string → list byte;
  TextDecoder_decode : list byte → string;
  btoa : string → string;
  atob : string → res string;
  (* crypto.subtle.encrypt / decrypt ({ name: 'AES-GCM', iv }, key, data) *)
  aes_gcm_encrypt : list byte → list byte → list byte → res (list byte);
  aes_gcm_decrypt : list byte → list byte → list byte → res (list byte);
  (* crypto.subtle.importKey('raw', key, HMAC SHA-256) then sign *)
  hmac_sha256 : list byte → list byte → list byte;
  JSON_parse : string → res val;
  JSON_stringify : val → string;
  URLSearchParams_toString : list (string * string) → string;
  StringToNumber : string → option Z;
  parseInt : string → option Z
}.
Arguments Date_now {Ext}.
Arguments toISOString {Ext}.
Arguments random_byte {Ext}.
Arguments randomUUID {Ext}.
Arguments fetch {Ext}.
Arguments TextEncoder_encode {Ext}.
Arguments TextDecoder_decode {Ext}.
Arguments btoa {Ext}.
Arguments atob {Ext}.
Arguments aes_gcm_encrypt {Ext}.
Arguments aes_gcm_decrypt {Ext}.
Arguments hmac_sha256 {Ext}.
Arguments JSON_parse {Ext}.
Arguments JSON_stringify {Ext}.
Arguments URLSearchParams_toString {Ext}.
Arguments StringToNumber {Ext}.
Arguments parseInt {Ext}.

(* ================================================================== *)
(** ** The world and the monad of the worker's functions *)
(* ================================================================== *)

Record world (Ext : Type) : Type := World {
  EVENTS : gmap string val;     (* the KV namespace env.EVENTS *)
  outside : Ext;                (* clock, entropy, remote services *)
  console : list string         (* console.log and console.error lines *)
}.
Arguments World {Ext}.
Arguments EVENTS {Ext}.
Arguments outside {Ext}.
Arguments console {Ext}.

Definition M (Ext A : Type) : Type := world Ext → res A * world Ext.

Definition ret {Ext A} (a : A) : M Ext A := λ w, (Ok a, w).

Definition throw {Ext A} (e : string) : M Ext A := λ w, (Throw e, w).

Definition bind {Ext A B} (m : M Ext A) (k : A → M Ext B) : M Ext B :=
  λ w, match m w with
       | (Ok a, w') => k a w'
       | (Throw e, w') => (Throw e, w')
       end.

(** [try { m } catch (error) { h error.message }] *)
Definition try_catch {Ext A} (m : M Ext A) (h : string → M Ext A) : M Ext A :=
  λ w, match m w with
       | (Ok a, w') => (Ok a, w')
       | (Throw e, w') => h e w'
       end.

Definition lift {Ext A} (r : res A) : M Ext A := λ w, (r, w).

Declare Scope js_scope.
Delimit Scope js_scope with js.
Notation "'let!' x ':=' m 'in' k" := (bind m (λ x, k))
  (at level 10, x name, m at level 100, k at level 200) : js_scope.
Notation "m ';;' k" := (bind m (λ _, k))
  (at level 100, k at level 200, right associativity) : js_scope.
#[local] Open Scope js_scope.

(** [for (const x of xs) { s = body x s }], the loop state threaded
    through; an exception that escapes the body ends the loop. *)
Fixpoint for_of {Ext A S} (xs : list A) (body : A → S → M Ext S) (s : S) : M Ext S :=
  match xs with
  | [] => ret s
  | x :: rest => let! s' := body x s in for_of rest body s'
  end.

(** [console.log] and [console.error] *)
Definition log {Ext} (line : string) : M Ext unit :=
  λ w, (Ok tt, World (EVENTS w) (outside w) (console w ++ [line])).

(** *** The KV namespace *)

(** [await env.EVENTS.get(key, 'json')]: [null] when the key is absent *)
Definition kv_get {Ext} (key : string) : M Ext val :=
  λ w, (Ok (default VNull (EVENTS w !! key)), w).

(** [await env.EVENTS.put(key, JSON.stringify(data))] *)
Definition kv_put {Ext} (key : string) (data : val) : M Ext unit :=
  λ w, (Ok tt, World (<[key := jsonify data]> (EVENTS w)) (outside w) (console w)).

(** [await env.EVENTS.delete(key)] *)
Definition kv_delete {Ext} (key : string) : M Ext unit :=
  λ w, (Ok tt, World (delete key (EVENTS w)) (outside w) (console w)).

(** The keys with a prefix, in the lexicographic order of the keys *)
Definition str_le (a b : string) : Prop := String.leb a b = true.

#[global] Instance str_le_dec a b : Decision (str_le a b).
Proof. unfold str_le. apply _. Defined.

Definition keys_with_prefix (prefix : string) (m : gmap string val) : list string :=
  merge_sort str_le (filter (λ k, String.prefix prefix k = true) (map_to_list m).*1).

(** The names [(await env.EVENTS.list({ prefix })).keys] holds: one page of
    the keys with the prefix, in the order of the keys.  A page has at most
    1000 names, the default and the largest [limit] of a listing; the
    result also says whether the listing is complete and carries a cursor
    to the next page, neither of which the worker reads. *)
Definition LIST_LIMIT : nat := 1000.

Definition kv_page (prefix : string) (m : gmap string val) : list string :=
  take LIST_LIMIT (keys_with_prefix prefix m).

#[global] Arguments kv_page : simpl never.

Definition kv_list {Ext} (prefix : string) : M Ext (list string) :=
  λ w, (Ok (kv_page prefix (EVENTS w)), w).

(** *** WebCrypto: importing a raw AES key *)

(** [crypto.subtle.importKey('raw', keyData, { name: 'AES-GCM', ... }, ...)]
    takes key data of 128, 192 or 256 bits and rejects every other length
    with a [DataError]; the key it returns stands for its bytes. *)
Definition aes_key_length (n : nat) : bool :=
  (n =? 16)%nat || (n =? 24)%nat || (n =? 32)%nat.

Definition aes_importKey (keyData : list byte) : res (list byte) :=
  if aes_key_length (length keyData) then Ok keyData else Throw "DataError".
#[global] Arguments aes_importKey : simpl never.

(* ================================================================== *)
(** ** The worker, over an arbitrary platform *)
(* ================================================================== *)

Section Worker.
Context {Ext : Type} (P : platform Ext).

#[local] Abbreviation M := (M Ext).

(** [Date.now()] *)
Definition date_now : M Z :=
  λ w, let '(t, e) := Date_now P (outside w) in
       (Ok t, World (EVENTS w) e (console w)).

(** [new Date().toISOString()] *)
Definition now_iso : M string :=
  let! t := date_now in ret (toISOString P t).

(** [crypto.getRandomValues(new Uint8Array(n))] *)
Fixpoint getRandomValues (n : nat) : M (list byte) :=
  match n with
  | O => ret []
  | S k =>
      let! b := (λ w, let '(b, e) := random_byte P (outside w) in
                      (Ok b, World (EVENTS w) e (console w))) in
      let! bs := getRandomValues k in
      ret (b :: bs)
  end.

(** [crypto.randomUUID()] *)
Definition random_uuid : M string :=
  λ w, let '(u, e) := randomUUID P (outside w) in
       (Ok u, World (EVENTS w) e (console w)).

(** [await fetch(url, init)]: a rejected promise is an exception *)
Definition do_fetch (rq : request) : M response :=
  λ w, let '(r, e) := fetch P rq (outside w) in
       (match r with inl msg => Throw msg | inr resp => Ok resp end,
        World (EVENTS w) e (console w)).

(** [encoder.encode(v)]: a missing argument encodes the empty string *)
Definition encode (v : val) : list byte :=
  TextEncoder_encode P (match v with VUndef => EmptyString | _ => tpl v end).

(* ------------------------------------------------------------------ *)
(** *** persistence.js: encryption utilities *)

(** [encoder.encode(env.ENCRYPTION_KEY || 'default-key-change-in-production')] *)
Definition keyMaterial (env : val) : list byte :=
  encode (js_or (field "ENCRYPTION_KEY" env) (VStr "default-key-change-in-production")).

Definition encryptToken (token env : val) : M string :=
  let data := encode token in
  let! key := lift (aes_importKey (take 32 (keyMaterial env))) in
  let! iv := getRandomValues 12 in
  let! encrypted := lift (aes_gcm_encrypt P key iv data) in
  let result := iv ++ encrypted in
  ret (btoa P (string_of_list_byte result)).

Definition decryptToken (encryptedBase64 env : val) : M string :=
  let! binary := lift (atob P (tpl encryptedBase64)) in
  let encrypted := list_byte_of_string binary in
  let iv := take 12 encrypted in
  let ciphertext := drop 12 encrypted in
  let! key := lift (aes_importKey (take 32 (keyMaterial env))) in
  let! decrypted := lift (aes_gcm_decrypt P key iv ciphertext) in
  ret (TextDecoder_decode P decrypted).

(* ------------------------------------------------------------------ *)
(** *** persistence.js: Google connections *)

Definition gconn_key (chatId googleSub : val) : string :=
  "gconn:" +:+ tpl chatId +:+ ":" +:+ tpl googleSub.

Definition gconn_prefix (chatId : val) : string :=
  "gconn:" +:+ tpl chatId +:+ ":".

(** [googleEmail.toLowerCase()] *)
Definition String_toLowerCase (v : val) : res string :=
  match v with
  | VStr s => Ok (toLowerCase s)
  | VUndef | VNull =>
      Throw ("TypeError: Cannot read properties of " +:+ tpl v +:+ " (reading 'toLowerCase')")
  | _ => Throw "TypeError: googleEmail.toLowerCase is not a function"
  end.

Definition storeGoogleConnection
    (env chatId googleSub googleEmail refreshToken scopes connectedByUserId : val) : M unit :=
  let key := gconn_key chatId googleSub in
  let! encryptedRefreshToken := encryptToken refreshToken env in
  let! email := lift (String_toLowerCase googleEmail) in
  let! created_at := now_iso in
  let! updated_at := now_iso in
  let data := object [
    ("chat_id", chatId);
    ("google_sub", googleSub);
    ("google_email", VStr email);
    ("refresh_token_enc", VStr encryptedRefreshToken);
    ("scopes", scopes);
    ("revoked", VBool false);
    ("connected_by_telegram_user_id", connectedByUserId);
    ("created_at", VStr created_at);
    ("updated_at", VStr updated_at) ] in
  kv_put key data;;
  log ("Stored Google connection for chat " +:+ tpl chatId +:+ ": " +:+ tpl googleEmail
       +:+ " (sub: " +:+ tpl googleSub +:+ ")").

(** The body of the loop of [getWorkspaceConnections] for one listed key *)
Definition collect_connection (env : val) (name : string) (connections : list val)
    : M (list val) :=
  let! data := kv_get name in
  if truthy data && negb (truthy (field "revoked" data)) then
    try_catch
      (let! refresh_token := decryptToken (field "refresh_token_enc" data) env in
       let! data1 := lift (set_field "refresh_token" (VStr refresh_token) data) in
       let data2 := delete_field "refresh_token_enc" data1 in
       ret (connections ++ [data2]))
      (λ error,
         log ("Failed to decrypt token for " +:+ name +:+ ": " +:+ error);;
         ret connections)
  else ret connections.

Definition getWorkspaceConnections (env chatId : val) : M (list val) :=
  let prefix := gconn_prefix chatId in
  let! keys := kv_list prefix in
  let! connections := for_of keys (collect_connection env) [] in
  log ("Found " +:+ pretty (length connections) +:+ " active connections for chat "
       +:+ tpl chatId);;
  ret connections.

(** Returns the connection, or [null] *)
Definition getGoogleConnection (env chatId googleSub : val) : M val :=
  let key := gconn_key chatId googleSub in
  let! data := kv_get key in
  if negb (truthy data) || truthy (field "revoked" data) then ret VNull
  else
    try_catch
      (let! refresh_token := decryptToken (field "refresh_token_enc" data) env in
       let! data1 := lift (set_field "refresh_token" (VStr refresh_token) data) in
       ret (delete_field "refresh_token_enc" data1))
      (λ error,
         log ("Failed to decrypt token for " +:+ key +:+ ": " +:+ error);;
         ret VNull).

Definition updateConnectionAccessToken (env chatId googleSub accessToken expiresAt : val)
    : M unit :=
  let key := gconn_key chatId googleSub in
  let! data := kv_get key in
  if negb (truthy data) then throw ("Connection not found: " +:+ key)
  else
    let! data1 := lift (set_field "access_token" accessToken data) in
    let! data2 := lift (set_field "expires_at" expiresAt data1) in
    let! updated_at := now_iso in
    let! data3 := lift (set_field "updated_at" (VStr updated_at) data2) in
    kv_put key data3.

Definition revokeGoogleConnection (env chatId googleSub : val) : M unit :=
  let key := gconn_key chatId googleSub in
  let! data := kv_get key in
  if negb (truthy data) then ret tt
  else
    let! data1 := lift (set_field "revoked" (VBool true) data) in
    let! updated_at := now_iso in
    let! data2 := lift (set_field "updated_at" (VStr updated_at) data1) in
    kv_put key data2;;
    log ("Revoked connection for chat " +:+ tpl chatId +:+ ", sub " +:+ tpl googleSub).

(* ------------------------------------------------------------------ *)
(** *** persistence.js: event mappings *)

Definition emap_key (chatId botEventUid googleSub : val) : string :=
  "emap:" +:+ tpl chatId +:+ ":" +:+ tpl botEventUid +:+ ":" +:+ tpl googleSub.

Definition emap_uid_prefix (chatId botEventUid : val) : string :=
  "emap:" +:+ tpl chatId +:+ ":" +:+ tpl botEventUid +:+ ":".

Definition emap_prefix (chatId : val) : string :=
  "emap:" +:+ tpl chatId +:+ ":".

Definition storeEventMapping (env chatId botEventUid googleSub googleEventId : val) : M unit :=
  let key := emap_key chatId botEventUid googleSub in
  let! created_at := now_iso in
  let! updated_at := now_iso in
  let data := object [
    ("chat_id", chatId);
    ("bot_event_uid", botEventUid);
    ("google_sub", googleSub);
    ("google_event_id", googleEventId);
    ("created_at", VStr created_at);
    ("updated_at", VStr updated_at) ] in
  kv_put key data;;
  log ("Stored event mapping: " +:+ tpl botEventUid +:+ " -> " +:+ tpl googleEventId
       +:+ " (" +:+ tpl googleSub +:+ ")").

(** The body of the loop of [getEventMappings] for one listed key *)
Definition collect_mapping (name : string) (mappings : list val) : M (list val) :=
  let! data := kv_get name in
  if truthy data then
    ret (mappings ++ [object [("google_sub", field "google_sub" data);
                              ("google_event_id", field "google_event_id" data)]])
  else ret mappings.

Definition getEventMappings (env chatId botEventUid : val) : M (list val) :=
  let prefix := emap_uid_prefix chatId botEventUid in
  let! keys := kv_list prefix in
  for_of keys collect_mapping [].

(** [googleSub] defaults to [null]: every mapping of the uid is deleted *)
Definition deleteEventMapping (env chatId botEventUid googleSub : val) : M unit :=
  if truthy googleSub then
    let key := emap_key chatId botEventUid googleSub in
    kv_delete key;;
    log ("Deleted event mapping: " +:+ tpl botEventUid +:+ " (" +:+ tpl googleSub +:+ ")")
  else
    let prefix := emap_uid_prefix chatId botEventUid in
    let! keys := kv_list prefix in
    for_of keys (λ name (_ : unit), kv_delete name) tt;;
    log ("Deleted all event mappings for: " +:+ tpl botEventUid).

(** The body of the loop of [deleteEventMappingsForAccount]; the loop
    state is the counter [deleted]. *)
Definition cascade_step (googleSub : val) (name : string) (deleted : nat) : M nat :=
  let! data := kv_get name in
  if truthy data && strict_eq (field "google_sub" data) googleSub then
    kv_delete name;;
    ret (S deleted)
  else ret deleted.

Definition deleteEventMappingsForAccount (env chatId googleSub : val) : M unit :=
  let prefix := emap_prefix chatId in
  let! keys := kv_list prefix in
  let! deleted := for_of keys (cascade_step googleSub) O in
  log ("Deleted " +:+ pretty deleted +:+ " event mappings for account " +:+ tpl googleSub
       +:+ " in chat " +:+ tpl chatId).

(* ------------------------------------------------------------------ *)
(** *** Arithmetic and comparison on values *)

(** [ToNumber]; [None] is [NaN] *)
Definition to_num (v : val) : option Z :=
  match v with
  | VUndef | VNaN | VObj _ => None
  | VNull => Some 0
  | VBool b => Some (if b then 1 else 0)
  | VNum n => Some n
  | VStr s => StringToNumber P s
  end.

Definition of_num (n : option Z) : val :=
  match n with Some n => VNum n | None => VNaN end.

(** [a - b], [a * b], and [a + b] for operands that are numbers *)
Definition js_sub (a b : val) : val :=
  of_num (x ← to_num a; y ← to_num b; Some (x - y)).
Definition js_mul (a b : val) : val :=
  of_num (x ← to_num a; y ← to_num b; Some (x * y)).
Definition num_add (a b : val) : val :=
  of_num (x ← to_num a; y ← to_num b; Some (x + y)).

(** [a >= b] and [a > b]: false as soon as one side is [NaN] *)
Definition js_ge (a b : val) : bool :=
  match to_num a, to_num b with
  | Some x, Some y => y <=? x
  | _, _ => false
  end.
Definition js_gt (a b : val) : bool :=
  match to_num a, to_num b with
  | Some x, Some y => y <? x
  | _, _ => false
  end.

(* ------------------------------------------------------------------ *)
(** *** oauth.js *)

Definition GOOGLE_AUTH_URL : string := "https://accounts.google.com/o/oauth2/v2/auth".
Definition GOOGLE_TOKEN_URL : string := "https://oauth2.googleapis.com/token".
Definition GOOGLE_USERINFO_URL : string := "https://www.googleapis.com/oauth2/v2/userinfo".
Definition SCOPES : string := "https://www.googleapis.com/auth/calendar.events".

Definition generateStateSignature (payload secret : val) : string :=
  let keyData := encode secret in
  let messageData := encode payload in
  hex (hmac_sha256 P keyData messageData).

Definition verifyStateSignature (payload signature secret : val) : bool :=
  let expectedSignature := generateStateSignature payload secret in
  strict_eq signature (VStr expectedSignature).

(** [env.OAUTH_STATE_SECRET || env.ENCRYPTION_KEY || 'change-in-production'] *)
Definition state_secret (env : val) : val :=
  js_or (js_or (field "OAUTH_STATE_SECRET" env) (field "ENCRYPTION_KEY" env))
        (VStr "change-in-production").

(** Returns the parsed state, or [null] *)
Definition parseAndVerifyState (state secret : val) : M val :=
  try_catch
    (let! decoded := lift (atob P (tpl state)) in
     let parts := split ":" decoded in
     match parts with
     | chatId :: initiatedBy :: chatType :: nonce :: signature :: _ =>
         let payload := chatId +:+ ":" +:+ initiatedBy +:+ ":" +:+ chatType +:+ ":" +:+ nonce in
         let valid := verifyStateSignature (VStr payload) (VStr signature) secret in
         if negb valid then
           log "State signature verification failed";;
           ret VNull
         else
           ret (object [
             ("chatId", of_num (parseInt P chatId));
             ("initiatedBy", of_num (parseInt P initiatedBy));
             ("chatType", VStr chatType);
             ("nonce", VStr nonce) ])
     | _ => ret VNull     (* parts.length < 5: invalid format *)
     end)
    (λ e, log ("State parse error: " +:+ e);; ret VNull).

Definition form_post (target : string) (params : list (string * string)) : request :=
  Request target "POST" [("Content-Type", "application/x-www-form-urlencoded")]
          (Some (URLSearchParams_toString P params)).

Definition getGoogleUserInfo (accessToken : val) : M val :=
  let! response := do_fetch
    (Request GOOGLE_USERINFO_URL "GET"
             [("Authorization", "Bearer " +:+ tpl accessToken)] None) in
  if negb (response_ok response) then throw "Failed to fetch user info"
  else
    let! data := lift (JSON_parse P (body_text response)) in
    let! sub := lift (prop "id" data) in
    ret (object [("sub", sub); ("email", field "email" data)]).

Definition exchangeCodeForTokens (code env : val) : M val :=
  let params := [
    ("code", tpl code);
    ("client_id", tpl (field "GOOGLE_CLIENT_ID" env));
    ("client_secret", tpl (field "GOOGLE_CLIENT_SECRET" env));
    ("redirect_uri", tpl (field "WORKER_URL" env) +:+ "/oauth/callback");
    ("grant_type", "authorization_code") ] in
  let! response := do_fetch (form_post GOOGLE_TOKEN_URL params) in
  if negb (response_ok response) then
    throw ("Token exchange failed: " +:+ body_text response)
  else
    let! tokens := lift (JSON_parse P (body_text response)) in
    let! access_token := lift (prop "access_token" tokens) in
    let! userInfo := getGoogleUserInfo access_token in
    let! now := date_now in
    ret (object [
      ("access_token", access_token);
      ("refresh_token", field "refresh_token" tokens);
      ("expires_in", field "expires_in" tokens);
      ("token_type", field "token_type" tokens);
      ("scope", field "scope" tokens);
      ("sub", field "sub" userInfo);
      ("email", field "email" userInfo);
      ("expires_at", num_add (VNum now) (js_mul (field "expires_in" tokens) (VNum 1000))) ]).

(** Returns the refreshed tokens, or [null] when the provider answers 400 *)
Definition refreshAccessToken (env refreshToken : val) : M val :=
  let params := [
    ("refresh_token", tpl refreshToken);
    ("client_id", tpl (field "GOOGLE_CLIENT_ID" env));
    ("client_secret", tpl (field "GOOGLE_CLIENT_SECRET" env));
    ("grant_type", "refresh_token") ] in
  let! response := do_fetch (form_post GOOGLE_TOKEN_URL params) in
  if negb (response_ok response) then
    let error := body_text response in
    log ("Token refresh failed: " +:+ error);;
    if status response =? 400 then ret VNull      (* signal re-auth needed *)
    else throw ("Token refresh failed: " +:+ error)
  else
    let! tokens := lift (JSON_parse P (body_text response)) in
    let! access_token := lift (prop "access_token" tokens) in
    let! now := date_now in
    ret (object [
      ("access_token", access_token);
      ("expires_in", field "expires_in" tokens);
      ("expires_at", num_add (VNum now) (js_mul (field "expires_in" tokens) (VNum 1000))) ]).

(** Returns a valid access token, or [null] *)
Definition getValidAccessTokenForConnection (env connection : val) : M val :=
  let! now := date_now in
  let! expires_at := lift (prop "expires_at" connection) in
  if truthy expires_at && js_ge (VNum now) (js_sub expires_at (VNum 60000)) then
    log ("Token expired for " +:+ tpl (field "google_email" connection) +:+ ", refreshing...");;
    let! refreshed := refreshAccessToken env (field "refresh_token" connection) in
    if negb (truthy refreshed) then
      log ("Failed to refresh token for " +:+ tpl (field "google_email" connection));;
      ret VNull
    else
      updateConnectionAccessToken env
        (field "chat_id" connection) (field "google_sub" connection)
        (field "access_token" refreshed) (field "expires_at" refreshed);;
      log ("Refreshed token for " +:+ tpl (field "google_email" connection));;
      ret (field "access_token" refreshed)
  else ret (js_or (field "access_token" connection) VNull).

(** The first statements of [generateOAuthUrl]: nonce, payload, signature
    and the [state] parameter. *)
Definition issueState (chatId initiatedBy chatType env : val) : M string :=
  let! nonce := random_uuid in
  let payload := tpl chatId +:+ ":" +:+ tpl initiatedBy +:+ ":" +:+ tpl chatType +:+ ":" +:+ nonce in
  let secret := state_secret env in
  let signature := generateStateSignature (VStr payload) secret in
  ret (btoa P (payload +:+ ":" +:+ signature)).

Definition generateOAuthUrl (chatId initiatedBy chatType env : val) : M string :=
  let! state := issueState chatId initiatedBy chatType env in
  let redirectUri :=
    tpl (js_or (field "WORKER_URL" env)
               (VStr "https://c4lendar-worker.calendar-bot.workers.dev")) +:+ "/oauth/callback" in
  let params := [
    ("client_id", tpl (field "GOOGLE_CLIENT_ID" env));
    ("redirect_uri", redirectUri);
    ("response_type", "code");
    ("scope", SCOPES);
    ("access_type", "offline");
    ("prompt", "consent");
    ("state", state) ] in
  ret (GOOGLE_AUTH_URL +:+ "?" +:+ URLSearchParams_toString P params).

(** The first statements of [handleOAuthCallback], up to and including
    "Delete state (one-time use)": the verification of [state].  Returns
    the parsed state. *)
Definition verifyState (state env : val) : M val :=
  let secret := state_secret env in
  let! stateData := parseAndVerifyState state secret in
  if negb (truthy stateData) then throw "Invalid or tampered authorization state"
  else
    let stateKey := "oauth_state:" +:+ tpl state in
    let! kvStateData := kv_get stateKey in
    if negb (truthy kvStateData) then throw "Invalid or expired authorization state"
    else
      let! now := date_now in
      if js_gt (js_sub (VNum now) (field "createdAt" kvStateData)) (VNum 600000) then
        kv_delete stateKey;;
        throw "State expired"
      else
        kv_delete stateKey;;
        ret stateData.

(** The call [exchangeCodeForTokens(env, code)] passes its arguments in
    the order of the source. *)
Definition handleOAuthCallback (code state env : val) : M val :=
  let! stateData := verifyState state env in
  let! tokens := exchangeCodeForTokens env code in
  storeGoogleConnection env
    (field "chatId" stateData)
    (field "sub" tokens)
    (field "email" tokens)
    (field "refresh_token" tokens)
    (field "scope" tokens)
    (field "initiatedBy" stateData);;
  ret (object [
    ("chatId", field "chatId" stateData);
    ("email", field "email" tokens);
    ("sub", field "sub" tokens) ]).

(* ------------------------------------------------------------------ *)
(** *** calendar.js: the Google Calendar client *)

Definition CALENDAR_API_BASE : string := "https://www.googleapis.com/calendar/v3".

Definition convertToGoogleFormat (event : val) : res val :=
  match prop "title" event with
  | Throw e => Throw e
  | Ok title =>
  Ok (object (
    [("summary", title)]
    ++ (if truthy (field "allDay" event) then
          [("start", object [("date", field "startDate" event)]);
           ("end", object [("date", field "endDate" event)])]
        else
          [("start", object [("dateTime", field "start" event)]);
           ("end", object [("dateTime", field "end" event)])])
    ++ (if truthy (field "location" event)
        then [("location", field "location" event)] else [])
    ++ (if truthy (field "notes" event)
        then [("description", field "notes" event)] else [])))
  end.

Definition createEvent (accessToken event : val) : M val :=
  let! calendarEvent := lift (convertToGoogleFormat event) in
  let! response := do_fetch
    (Request (CALENDAR_API_BASE +:+ "/calendars/primary/events") "POST"
             [("Authorization", "Bearer " +:+ tpl accessToken);
              ("Content-Type", "application/json")]
             (Some (JSON_stringify P calendarEvent))) in
  if negb (response_ok response) then
    throw ("Calendar API error: " +:+ body_text response)
  else
    let! created := lift (JSON_parse P (body_text response)) in
    let! eventId := lift (prop "id" created) in
    let! startDateTime := lift (prop "dateTime" (field "start" created)) in
    let start := js_or startDateTime (field "date" (field "start" created)) in
    let! endDateTime := lift (prop "dateTime" (field "end" created)) in
    let end_ := js_or endDateTime (field "date" (field "end" created)) in
    ret (object [
      ("ok", VBool true);
      ("eventId", eventId);
      ("title", field "summary" created);
      ("start", start);
      ("end", end_);
      ("link", field "htmlLink" created) ]).

Definition updateEvent (accessToken eventId updates : val) : M val :=
  let! calendarEvent := lift (convertToGoogleFormat updates) in
  let! response := do_fetch
    (Request (CALENDAR_API_BASE +:+ "/calendars/primary/events/" +:+ tpl eventId) "PATCH"
             [("Authorization", "Bearer " +:+ tpl accessToken);
              ("Content-Type", "application/json")]
             (Some (JSON_stringify P calendarEvent))) in
  if negb (response_ok response) then
    throw ("Calendar API error: " +:+ body_text response)
  else
    let! updated := lift (JSON_parse P (body_text response)) in
    let! eventId' := lift (prop "id" updated) in
    let! startDateTime := lift (prop "dateTime" (field "start" updated)) in
    let start := js_or startDateTime (field "date" (field "start" updated)) in
    let! endDateTime := lift (prop "dateTime" (field "end" updated)) in
    let end_ := js_or endDateTime (field "date" (field "end" updated)) in
    ret (object [
      ("ok", VBool true);
      ("eventId", eventId');
      ("title", field "summary" updated);
      ("start", start);
      ("end", end_) ]).

Definition deleteEvent (accessToken eventId : val) : M val :=
  let! response := do_fetch
    (Request (CALENDAR_API_BASE +:+ "/calendars/primary/events/" +:+ tpl eventId) "DELETE"
             [("Authorization", "Bearer " +:+ tpl accessToken)] None) in
  if negb (response_ok response) && negb (status response =? 410) then  (* 410 = already deleted *)
    throw ("Calendar API error: " +:+ body_text response)
  else ret (object [("ok", VBool true)]).

(* ------------------------------------------------------------------ *)
(** *** calendar.js: workspace broadcast operations *)

(** The object [{ successes: [], failures: [], totalAccounts: N }] *)
Record scoreboard : Type := Scoreboard {
  successes : list val;
  failures : list val;
  totalAccounts : nat
}.

Definition push_success (entry : val) (r : scoreboard) : scoreboard :=
  Scoreboard (successes r ++ [entry]) (failures r) (totalAccounts r).

Definition push_failure (entry : val) (r : scoreboard) : scoreboard :=
  Scoreboard (successes r) (failures r ++ [entry]) (totalAccounts r).

Definition failure (email reason details : val) : val :=
  object [("email", email); ("reason", reason); ("details", details)].

(** The body of the fan-out loop of [broadcastCreateEvent] *)
Definition create_step (env chatId botEventUid event conn : val) (results : scoreboard)
    : M scoreboard :=
  try_catch
    (let! accessToken := getValidAccessTokenForConnection env conn in
     if negb (truthy accessToken) then
       ret (push_failure
              (failure (field "google_email" conn) (VStr "Token refresh failed")
                       (VStr "Please reconnect this account")) results)
     else
       let! result := createEvent accessToken event in
       if truthy (field "ok" result) then
         storeEventMapping env chatId botEventUid
                           (field "google_sub" conn) (field "eventId" result);;
         ret (push_success
                (object [("email", field "google_email" conn);
                         ("eventId", field "eventId" result);
                         ("link", field "link" result)]) results)
       else
         ret (push_failure
                (failure (field "google_email" conn) (VStr "Creation failed")
                         (js_or (field "message" result) (VStr "Unknown error"))) results))
    (λ error,
       log ("Failed to create event for " +:+ tpl (field "google_email" conn) +:+ ": " +:+ error);;
       ret (push_failure
              (failure (field "google_email" conn) (VStr "Exception") (VStr error)) results)).

Definition broadcastCreateEvent (env chatId botEventUid event : val) : M scoreboard :=
  let! connections := getWorkspaceConnections env chatId in
  if (length connections =? 0)%nat then
    throw "No Google accounts connected to this workspace"
  else
    let results := Scoreboard [] [] (length connections) in
    for_of connections (create_step env chatId botEventUid event) results.

(** The body of the fan-out loop of [broadcastUpdateEvent] *)
Definition update_step (env chatId botEventUid updates mapping : val) (results : scoreboard)
    : M scoreboard :=
  try_catch
    (let! conn := getGoogleConnection env chatId (field "google_sub" mapping) in
     if negb (truthy conn) || truthy (field "revoked" conn) then
       ret (push_failure
              (failure (VStr ("(disconnected: " +:+ tpl (field "google_sub" mapping) +:+ ")"))
                       (VStr "Account disconnected")
                       (VStr "Connection no longer active")) results)
     else
       let! accessToken := getValidAccessTokenForConnection env conn in
       if negb (truthy accessToken) then
         ret (push_failure
                (failure (field "google_email" conn) (VStr "Token refresh failed")
                         (VStr "Please reconnect this account")) results)
       else
         let! result := updateEvent accessToken (field "google_event_id" mapping) updates in
         if truthy (field "ok" result) then
           ret (push_success
                  (object [("email", field "google_email" conn);
                           ("eventId", field "google_event_id" mapping)]) results)
         else
           ret (push_failure
                  (failure (field "google_email" conn) (VStr "Update failed")
                           (js_or (field "message" result) (VStr "Unknown error"))) results))
    (λ error,
       log ("Failed to update event for mapping " +:+ tpl (field "google_sub" mapping)
            +:+ ": " +:+ error);;
       ret (push_failure
              (failure (VStr ("(" +:+ tpl (field "google_sub" mapping) +:+ ")"))
                       (VStr "Exception") (VStr error)) results)).

Definition broadcastUpdateEvent (env chatId botEventUid updates : val) : M scoreboard :=
  let! mappings := getEventMappings env chatId botEventUid in
  if (length mappings =? 0)%nat then
    throw "Event not found or already deleted"
  else
    let results := Scoreboard [] [] (length mappings) in
    for_of mappings (update_step env chatId botEventUid updates) results.

(** The body of the fan-out loop of [broadcastDeleteEvent] *)
Definition delete_step (env chatId botEventUid mapping : val) (results : scoreboard)
    : M scoreboard :=
  try_catch
    (let! conn := getGoogleConnection env chatId (field "google_sub" mapping) in
     if negb (truthy conn) || truthy (field "revoked" conn) then
       (* still delete the mapping even if the connection is gone *)
       deleteEventMapping env chatId botEventUid (field "google_sub" mapping);;
       ret (push_success
              (object [("email", VStr ("(disconnected: " +:+ tpl (field "google_sub" mapping) +:+ ")"));
                       ("note", VStr "Mapping removed (account disconnected)")]) results)
     else
       let! accessToken := getValidAccessTokenForConnection env conn in
       if negb (truthy accessToken) then
         ret (push_failure
                (failure (field "google_email" conn) (VStr "Token refresh failed")
                         (VStr "Mapping will remain until reconnected")) results)
       else
         let! result := deleteEvent accessToken (field "google_event_id" mapping) in
         if truthy (field "ok" result) then
           deleteEventMapping env chatId botEventUid (field "google_sub" mapping);;
           ret (push_success
                  (object [("email", field "google_email" conn);
                           ("eventId", field "google_event_id" mapping)]) results)
         else
           ret (push_failure
                  (failure (field "google_email" conn) (VStr "Deletion failed")
                           (js_or (field "message" result) (VStr "Unknown error"))) results))
    (λ error,
       log ("Failed to delete event for mapping " +:+ tpl (field "google_sub" mapping)
            +:+ ": " +:+ error);;
       (* special case: if 404/410 (already deleted), consider it success
          and clean up the mapping *)
       if includes error "404" || includes error "410" then
         deleteEventMapping env chatId botEventUid (field "google_sub" mapping);;
         ret (push_success
                (object [("email", VStr ("(" +:+ tpl (field "google_sub" mapping) +:+ ")"));
                         ("note", VStr "Already deleted")]) results)
       else
         ret (push_failure
                (failure (VStr ("(" +:+ tpl (field "google_sub" mapping) +:+ ")"))
                         (VStr "Exception") (VStr error)) results)).

Definition broadcastDeleteEvent (env chatId botEventUid : val) : M scoreboard :=
  let! mappings := getEventMappings env chatId botEventUid in
  if (length mappings =? 0)%nat then
    throw "Event not found or already deleted"
  else
    let results := Scoreboard [] [] (length mappings) in
    for_of mappings (delete_step env chatId botEventUid) results.

End Worker.

(* ================================================================== *)
(** ** A small platform, for concrete runs *)
(* ================================================================== *)

(** A platform small enough to compute with: the clock stands still at
    the value of the outside state, entropy is constant, the codecs are
    the identity on code units below 256, and the cipher prepends the
    length of the key, the key and the nonce to the plaintext and checks
    them on the way back.  The HTTP services are the function [serve]. *)
Module Toy.

#[local] Instance byte_eq_dec : EqDecision byte := Byte.byte_eq_dec.

Definition parsed (text : string) : val :=
  object [
    ("access_token", VStr text);
    ("expires_in", VNum 3600);
    ("id", VStr text);
    ("email", VStr "user@example.com");
    ("start", object [("dateTime", VStr "2026-01-05T10:00:00Z")]);
    ("end", object [("dateTime", VStr "2026-01-05T11:00:00Z")]) ].

Definition seal (key iv : list byte) : list byte :=
  default x00 (Byte.of_nat (length key)) :: key ++ iv.

Definition encrypt (key iv data : list byte) : res (list byte) :=
  Ok (seal key iv ++ data).

Definition decrypt (key iv data : list byte) : res (list byte) :=
  if decide (take (length (seal key iv)) data = seal key iv)
  then Ok (drop (length (seal key iv)) data)
  else Throw "OperationError".

Definition query (params : list (string * string)) : string :=
  foldr (λ kv acc, kv.1 +:+ "=" +:+ kv.2 +:+ "&" +:+ acc) EmptyString params.

Definition platform (serve : request → string + response) : platform Z :=
  Platform Z
    (λ t, (t, t))                        (* Date_now *)
    pretty                               (* toISOString *)
    (λ e, (x2a, e))                      (* random_byte *)
    (λ e, ("7a3f9c21-0000", e))          (* randomUUID *)
    (λ rq e, (serve rq, e))              (* fetch *)
    list_byte_of_string                  (* TextEncoder_encode *)
    string_of_list_byte                  (* TextDecoder_decode *)
    id                                   (* btoa *)
    Ok                                   (* atob *)
    encrypt
    decrypt
    (λ key message, key ++ message)      (* hmac_sha256 *)
    (λ text, Ok (parsed text))           (* JSON_parse *)
    (λ _, "{}")                          (* JSON_stringify *)
    query                                (* URLSearchParams_toString *)
    (λ _, None)                          (* StringToNumber *)
    (λ _, None).                         (* parseInt *)

(** A service that answers every request with the same response *)
Definition always (code : Z) (text : string) : request → string + response :=
  λ _, inr (Response code text).

Definition env : val := object [("ENCRYPTION_KEY", VStr "0123456789abcdef0123456789abcdef")].

(** A workspace and its accounts *)
Definition chat : val := VNum 42.
Definition alice : val := VStr "sub-alice".
Definition bob : val := VStr "sub-bob".
Definition carol : val := VStr "sub-carol".
Definition uid : val := VStr "EVT-7a3f9c21".

(** What [encryptToken] makes of a credential on this platform: twelve
    bytes of nonce, then the length of the key (32, a space), the key and
    the nonce again, then the credential. *)
Definition sealed (credential : string) : string :=
  "************ 0123456789abcdef0123456789abcdef************" +:+ credential.

(** The record of an account, with the properties [extra] besides those
    [storeGoogleConnection] writes. *)
Definition fields (sub email refresh_token_enc : string) (extra : list (string * val))
    : gmap string val :=
  list_to_map ([
    ("chat_id", chat);
    ("google_sub", VStr sub);
    ("google_email", VStr email);
    ("refresh_token_enc", VStr refresh_token_enc);
    ("scopes", VStr "https://www.googleapis.com/auth/calendar.events");
    ("revoked", VBool false);
    ("connected_by_telegram_user_id", VNum 7);
    ("created_at", VStr "1000");
    ("updated_at", VStr "1000") ] ++ extra).

Definition alice_fields (extra : list (string * val)) : gmap string val :=
  fields "sub-alice" "alice@example.com" (sealed "1//refresh-alice") extra.

(** The connection object handed out for Alice's record *)
Definition alice_connection (extra : list (string * val)) : val :=
  VObj (delete "refresh_token_enc"
          (<["refresh_token" := VStr "1//refresh-alice"]> (alice_fields extra))).

(** A cached access credential that expires at [expires_at] *)
Definition cached (expires_at : Z) : list (string * val) :=
  [("access_token", VStr "ya29.cached"); ("expires_at", VNum expires_at)].

Definition alice_mapping : val :=
  object [
    ("chat_id", chat);
    ("bot_event_uid", uid);
    ("google_sub", alice);
    ("google_event_id", VStr "g-evt-1");
    ("created_at", VStr "1000");
    ("updated_at", VStr "1000") ].

(** The store right after linking: one connection, nothing cached, no event *)
Definition linked : world Z :=
  World {[ gconn_key chat alice := VObj (alice_fields []) ]} 1000 [].

(** The store with a cached credential and one event created in the account *)
Definition with_event (expires_at : Z) : world Z :=
  World (<[ emap_key chat uid alice := alice_mapping ]>
           {[ gconn_key chat alice := VObj (alice_fields (cached expires_at)) ]})
        1000 [].

(** The calendar answers every DELETE with 404 and the text "Not Found" *)
Definition calendar_not_found : request → string + response :=
  λ rq, if String.eqb (method rq) "DELETE" then inr (Response 404 "Not Found")
        else inr (Response 200 "ok").

(** The calendar answers every DELETE with a server error whose text
    happens to contain the digits 410 *)
Definition calendar_unavailable : request → string + response :=
  λ rq, if String.eqb (method rq) "DELETE"
        then inr (Response 500 "Backend Error (request 7c410e)")
        else inr (Response 200 "ok").

(** Alice's record intact, and Bob's tampered with: its credential does
    not carry the key any more. *)
Definition two_accounts : world Z :=
  World (<[ gconn_key chat bob :=
              VObj (fields "sub-bob" "bob@example.com"
                           "************ 0123456789abcdef0123456789abcdeX************1//refresh-bob" []) ]>
           {[ gconn_key chat alice := VObj (alice_fields []) ]})
        1000 [].

(** Three accounts whose cached credentials are all due for a refresh *)
Definition three_accounts : world Z :=
  World (<[ gconn_key chat carol :=
              VObj (fields "sub-carol" "carol@example.com" (sealed "1//refresh-carol")
                           (cached 30000)) ]>
        (<[ gconn_key chat bob :=
              VObj (fields "sub-bob" "bob@example.com" (sealed "1//refresh-bob")
                           (cached 30000)) ]>
           {[ gconn_key chat alice := VObj (alice_fields (cached 30000)) ]}))
        1000 [].

(** The token endpoint rejects Bob's refresh credential with a 400 and
    serves every other request. *)
Definition bob_rejected : request → string + response :=
  λ rq, if String.eqb (url rq) "https://oauth2.googleapis.com/token"
           && includes (default EmptyString (body rq)) "1//refresh-bob"
        then inr (Response 400 "invalid_grant")
        else inr (Response 200 "ya29.fresh").

End Toy.

(* ================================================================== *)
(** ** Vocabulary of the statements *)
(* ================================================================== *)

(** What a property assigned [v] holds once the record went through the
    KV namespace. *)
Definition json_field (v : val) : option val :=
  match v with VUndef => None | _ => Some (jsonify v) end.

(** Whether a stored record is a mapping of account [googleSub], as the
    cascade reads it: [data && data.google_sub === googleSub]. *)
Definition mapping_of (googleSub : val) (data : option val) : bool :=
  match data with
  | Some d => truthy d && strict_eq (field "google_sub" d) googleSub
  | None => false
  end.

(** The entry [getEventMappings] pushes for a stored record *)
Definition mapping_entry (data : val) : val :=
  object [("google_sub", field "google_sub" data);
          ("google_event_id", field "google_event_id" data)].

(** What [getEventMappings] returns, read off the store *)
Definition mappings_view (m : gmap string val) (keys : list string) : list val :=
  omap (λ k, d ← m !! k; if truthy d then Some (mapping_entry d) else None) keys.

(** The outcome of [decryptToken], which reads nothing of the world *)
Definition decrypt_result {Ext} (P : platform Ext) (encryptedBase64 env : val) : res string :=
  match atob P (tpl encryptedBase64) with
  | Throw e => Throw e
  | Ok binary =>
      let encrypted := list_byte_of_string binary in
      match aes_importKey (take 32 (keyMaterial P env)) with
      | Throw e => Throw e
      | Ok key =>
          match aes_gcm_decrypt P key (take 12 encrypted) (drop 12 encrypted) with
          | Throw e => Throw e
          | Ok decrypted => Ok (TextDecoder_decode P decrypted)
          end
      end
  end.

(** The connection object [getWorkspaceConnections] and
    [getGoogleConnection] hand out for a stored record: none for a revoked
    record or one whose refresh credential does not decrypt. *)
Definition connection_view {Ext} (P : platform Ext) (env data : val) : option val :=
  if truthy data && negb (truthy (field "revoked" data)) then
    match decrypt_result P (field "refresh_token_enc" data) env with
    | Ok refresh_token =>
        match set_field "refresh_token" (VStr refresh_token) data with
        | Ok data1 => Some (delete_field "refresh_token_enc" data1)
        | Throw _ => None
        end
    | Throw _ => None
    end
  else None.

(** The bytes [getRandomValues] draws and the outside state it leaves *)
Fixpoint draw {Ext} (P : platform Ext) (n : nat) (e : Ext) : list byte * Ext :=
  match n with
  | O => ([], e)
  | S k =>
      let '(b, e1) := random_byte P e in
      let '(bs, e2) := draw P k e1 in
      (b :: bs, e2)
  end.

(** The request [refreshAccessToken] sends to the token endpoint *)
Definition refresh_request {Ext} (P : platform Ext) (env refreshToken : val) : request :=
  form_post P GOOGLE_TOKEN_URL [
    ("refresh_token", tpl refreshToken);
    ("client_id", tpl (field "GOOGLE_CLIENT_ID" env));
    ("client_secret", tpl (field "GOOGLE_CLIENT_SECRET" env));
    ("grant_type", "refresh_token") ].

(** The test [getValidAccessTokenForConnection] makes at time [now]:
    [connection.expires_at && now >= connection.expires_at - 60000] *)
Definition refresh_due {Ext} (P : platform Ext) (connection : val) (now : Z) : bool :=
  truthy (field "expires_at" connection)
  && js_ge P (VNum now) (js_sub P (field "expires_at" connection) (VNum 60000)).

(** The answer of the token endpoint to the refresh of [connection] that
    [getValidAccessTokenForConnection] attempts in world [w], after its
    reading of the clock. *)
Definition refresh_answer {Ext} (P : platform Ext) (env connection : val) (w : world Ext)
    : string + response :=
  (fetch P (refresh_request P env (field "refresh_token" connection))
         (Date_now P (outside w)).2).1.

(** The request [deleteEvent] sends to the calendar *)
Definition delete_request (accessToken eventId : val) : request :=
  Request (CALENDAR_API_BASE +:+ "/calendars/primary/events/" +:+ tpl eventId) "DELETE"
          [("Authorization", "Bearer " +:+ tpl accessToken)] None.

(** The number of accounts a scoreboard has an outcome for *)
Definition tally (r : scoreboard) : nat :=
  length (successes r) + length (failures r).

(** [after] is [before] with the outcome of one more account *)
Definition scored (before after : scoreboard) : Prop :=
  totalAccounts after = totalAccounts before ∧ tally after = S (tally before).

(** A computation that, when it returns, has recorded one outcome *)
Definition attempts {Ext} (before : scoreboard) (m : M Ext scoreboard) : Prop :=
  ∀ w, match m w with
       | (Ok after, _) => scored before after
       | (Throw _, _) => True
       end.

(** A computation that returns, having recorded one outcome *)
Definition settles {Ext} (before : scoreboard) (m : M Ext scoreboard) : Prop :=
  ∀ w, ∃ after w', m w = (Ok after, w') ∧ scored before after.

(** [c] is an authentic encryption under the key of [env]: it decodes to
    twelve bytes of nonce followed by what the cipher produces, under that
    key and nonce, for some plaintext. *)
Definition authentic {Ext} (P : platform Ext) (env c : val) : Prop :=
  ∃ (key : list byte) (binary : string) (plaintext : list byte),
    aes_importKey (take 32 (keyMaterial P env)) = Ok key
    ∧ atob P (tpl c) = Ok binary
    ∧ aes_gcm_encrypt P key (take 12 (list_byte_of_string binary)) plaintext
      = Ok (drop 12 (list_byte_of_string binary)).

(** The aggregate contract as the specification words it: with at least
    one active account in the workspace, no broadcast raises. *)
Definition has_active_account {Ext} (P : platform Ext) (env chatId : val) (w : world Ext)
    : Prop :=
  ∃ (c : val) (cs : list val) (w1 : world Ext),
    getWorkspaceConnections P env chatId w = (Ok (c :: cs), w1)
    ∧ truthy (field "revoked" c) = false.

Definition no_broadcast_raises_with_an_active_account : Prop :=
  ∀ (Ext : Type) (P : platform Ext) (env chatId botEventUid payload : val) (w : world Ext),
    has_active_account P env chatId w →
    (∃ results w', broadcastCreateEvent P env chatId botEventUid payload w = (Ok results, w'))
    ∧ (∃ results w', broadcastUpdateEvent P env chatId botEventUid payload w = (Ok results, w'))
    ∧ (∃ results w', broadcastDeleteEvent P env chatId botEventUid w = (Ok results, w')).

(** The keys of the prefix fit one page: the listing is complete *)
Definition one_page (prefix : string) (m : gmap string val) : Prop :=
  (length (keys_with_prefix prefix m) ≤ LIST_LIMIT)%nat.

(** Symbolic execution of the monad's plumbing *)
Ltac mrun :=
  cbv beta iota zeta delta
    [bind ret throw lift log try_catch kv_get kv_put kv_delete kv_list].


(* ================================================================== *)
(** ** More of the worker: lookups by email, selection and legacy token
       records, the permission check, event references and the bot's
       outgoing messages *)
(* ================================================================== *)

(** [v.toLowerCase()] for the variable named [name] *)
Definition toLowerCase_of (name : string) (v : val) : res string :=
  match v with
  | VStr s => Ok (toLowerCase s)
  | VUndef | VNull =>
      Throw ("TypeError: Cannot read properties of " +:+ tpl v +:+ " (reading 'toLowerCase')")
  | _ => Throw ("TypeError: " +:+ name +:+ ".toLowerCase is not a function")
  end.

(** [v.toString()] *)
Definition toString_of (v : val) : res string :=
  match v with
  | VUndef | VNull =>
      Throw ("TypeError: Cannot read properties of " +:+ tpl v +:+ " (reading 'toString')")
  | _ => Ok (tpl v)
  end.

(** [s.toUpperCase()] on ASCII text; it is applied to matches of
    [/EVT-[0-9a-f]{8}/i] only. *)
Definition upper_unit (c : ascii) : ascii :=
  let n := N_of_ascii c in
  if ((97 <=? n) && (n <=? 122))%N then ascii_of_N (n - 32) else c.

Fixpoint toUpperCase (s : string) : string :=
  match s with
  | EmptyString => EmptyString
  | String c t => String (upper_unit c) (toUpperCase t)
  end.

(** *** The pattern [EVT-[0-9a-f]{8}] under the flag [i] *)

(** The code units the class [[0-9a-f]] matches when case is ignored *)
Definition hex_unit (c : ascii) : bool :=
  let n := N_of_ascii c in
  ((48 <=? n) && (n <=? 57) || (97 <=? n) && (n <=? 102) || (65 <=? n) && (n <=? 70))%N.

(** The code units the letter [d] of the pattern matches when case is
    ignored: [d] and its lower-case form. *)
Definition letter_i (d c : ascii) : bool := Ascii.eqb (upper_unit c) d.

(** [n] code units of the class at the start of [s]: the text matched *)
Fixpoint hex_run (n : nat) (s : string) : option string :=
  match n, s with
  | O, _ => Some EmptyString
  | S k, String c t =>
      if hex_unit c then
        match hex_run k t with
        | Some h => Some (String c h)
        | None => None
        end
      else None
  | S _, EmptyString => None
  end.

(** The pattern matched at the start of [s]: the text matched *)
Definition evt_at (s : string) : option string :=
  match s with
  | String e (String v (String t (String d rest))) =>
      if letter_i "E" e && letter_i "V" v && letter_i "T" t && Ascii.eqb d "-" then
        match hex_run 8 rest with
        | Some h => Some (String e (String v (String t (String d h))))
        | None => None
        end
      else None
  | _ => None
  end.

(** The leftmost match of the pattern in [s] *)
Fixpoint evt_search (s : string) : option string :=
  match evt_at s with
  | Some m => Some m
  | None =>
      match s with
      | EmptyString => None
      | String _ t => evt_search t
      end
  end.

(** [/^EVT-[0-9a-f]{8}$/i.test(s)] *)
Definition evt_exact (s : string) : bool :=
  match evt_at s with
  | Some m => String.eqb m s
  | None => false
  end.

Section WorkerMore.
Context {Ext : Type} (P : platform Ext).

#[local] Abbreviation M := (M Ext).

(* ------------------------------------------------------------------ *)
(** *** persistence.js: lookup by email *)

(** Returns the connection, or [null] *)
Definition findConnectionByEmail (env chatId email : val) : M val :=
  let! normalizedEmail := lift (toLowerCase_of "email" email) in
  let! connections := getWorkspaceConnections P env chatId in
  ret (js_or (default VUndef
                (List.find (λ conn, strict_eq (field "google_email" conn)
                                              (VStr normalizedEmail)) connections))
             VNull).

(* ------------------------------------------------------------------ *)
(** *** persistence.js: the selected event of a user

    [setSelectedEvent] stores its entry with [expirationTtl: 86400]; the
    entry is followed within that lifetime. *)

Definition selected_event_key (chatId userId : val) : string :=
  "selected_event:" +:+ tpl chatId +:+ ":" +:+ tpl userId.

Definition getSelectedEvent (env chatId userId : val) : M val :=
  let key := selected_event_key chatId userId in
  try_catch
    (let! data := kv_get key in
     log ("Retrieved selected event for chat " +:+ tpl chatId +:+ ", user " +:+ tpl userId
          +:+ ": " +:+ (if truthy data then "found" else "not found"));;
     ret data)
    (λ error, log ("KV get error: " +:+ error);; ret VNull).

Definition setSelectedEvent (env chatId userId eventId event : val) : M unit :=
  let key := selected_event_key chatId userId in
  let! createdAt := now_iso P in
  let data := object [
    ("eventId", eventId);
    ("event", event);
    ("createdAt", VStr createdAt) ] in
  try_catch
    (kv_put key data;;
     log ("Stored selected event for chat " +:+ tpl chatId +:+ ", user " +:+ tpl userId
          +:+ ": " +:+ tpl eventId))
    (λ error, log ("KV put error: " +:+ error);; throw error).

Definition clearSelectedEvent (env chatId userId : val) : M unit :=
  let key := selected_event_key chatId userId in
  try_catch
    (kv_delete key;;
     log ("Cleared selected event for chat " +:+ tpl chatId +:+ ", user " +:+ tpl userId))
    (λ error, log ("KV delete error: " +:+ error);; throw error).

(* ------------------------------------------------------------------ *)
(** *** persistence.js: token records of a user (legacy) *)

Definition oauth_key (userId : val) : string := "oauth:" +:+ tpl userId.

Definition storeUserTokens (env userId tokens : val) : M unit :=
  let key := oauth_key userId in
  let! access_token := lift (prop "access_token" tokens) in
  let! now := date_now P in
  let! updatedAt := now_iso P in
  let data := object [
    ("access_token", access_token);
    ("refresh_token", field "refresh_token" tokens);
    ("expires_at", num_add P (VNum now) (js_mul P (field "expires_in" tokens) (VNum 1000)));
    ("email", field "email" tokens);
    ("updatedAt", VStr updatedAt) ] in
  try_catch
    (kv_put key data;;
     log ("Stored OAuth tokens for user " +:+ tpl userId
          +:+ " (" +:+ tpl (field "email" tokens) +:+ ")"))
    (λ error, log ("Failed to store OAuth tokens: " +:+ error);; throw error).

(** Returns the record, or [null] *)
Definition getUserTokens (env userId : val) : M val :=
  let key := oauth_key userId in
  try_catch
    (let! data := kv_get key in
     if negb (truthy data) then
       log ("No OAuth tokens found for user " +:+ tpl userId);;
       ret VNull
     else
       log ("Retrieved OAuth tokens for user " +:+ tpl userId
            +:+ " (" +:+ tpl (field "email" data) +:+ ")");;
       ret data)
    (λ error, log ("Failed to get OAuth tokens: " +:+ error);; ret VNull).

Definition deleteUserTokens (env userId : val) : M unit :=
  let key := oauth_key userId in
  try_catch
    (kv_delete key;;
     log ("Deleted OAuth tokens for user " +:+ tpl userId))
    (λ error, log ("Failed to delete OAuth tokens: " +:+ error);; throw error).

(* ------------------------------------------------------------------ *)
(** *** persistence.js: token records of a chat (legacy) *)

Definition gc_tokens_key (chatId : val) : string := "gc_tokens:chat:" +:+ tpl chatId.

(** Returns the legacy record, else the first active connection in the
    legacy format, else [null] *)
Definition getChatTokens (env chatId : val) : M val :=
  let legacyKey := gc_tokens_key chatId in
  let! legacyData := kv_get legacyKey in
  if truthy legacyData then
    log ("Retrieved legacy OAuth tokens for chat " +:+ tpl chatId
         +:+ " (" +:+ tpl (field "email" legacyData) +:+ ")");;
    ret legacyData
  else
    let! connections := getWorkspaceConnections P env chatId in
    match connections with
    | [] =>
        log ("No OAuth tokens found for chat " +:+ tpl chatId);;
        ret VNull
    | conn :: _ =>
        log ("Retrieved OAuth tokens for chat " +:+ tpl chatId
             +:+ " (" +:+ tpl (field "google_email" conn) +:+ ") [multi-account mode]");;
        ret (object [
          ("email", field "google_email" conn);
          ("linkedBy", field "connected_by_telegram_user_id" conn);
          ("linkedAt", field "created_at" conn);
          ("refresh_token", field "refresh_token" conn);
          ("access_token", field "access_token" conn);
          ("expires_at", field "expires_at" conn) ])
    end.

Definition storeChatTokens (env chatId tokens linkedBy : val) : M unit :=
  let key := gc_tokens_key chatId in
  let! access_token := lift (prop "access_token" tokens) in
  let! linkedAt := now_iso P in
  let data := object [
    ("access_token", access_token);
    ("refresh_token", field "refresh_token" tokens);
    ("expires_at", field "expires_at" tokens);
    ("email", field "email" tokens);
    ("linkedBy", linkedBy);
    ("linkedAt", VStr linkedAt);
    ("scope", field "scope" tokens) ] in
  try_catch
    (kv_put key data;;
     log ("Stored OAuth tokens for chat " +:+ tpl chatId
          +:+ " (" +:+ tpl (field "email" tokens) +:+ ") [legacy]"))
    (λ error, log ("Failed to store chat tokens: " +:+ error);; throw error).

Definition deleteChatTokens (env chatId : val) : M unit :=
  let legacyKey := gc_tokens_key chatId in
  kv_delete legacyKey;;
  let! connections := getWorkspaceConnections P env chatId in
  for_of connections
         (λ conn (_ : unit), revokeGoogleConnection P env chatId (field "google_sub" conn)) tt;;
  log ("Deleted all OAuth tokens for chat " +:+ tpl chatId).

(* ------------------------------------------------------------------ *)
(** *** oauth.js: the synchronous URL generator *)

(** Returns [{ url, state, nonce }].  The signature it starts computing
    is not awaited; the state carries the text [pending] in its place. *)
Definition generateOAuthURL (env chatId initiatedBy chatType : val) : M val :=
  let! nonce := random_uuid P in
  let payload := tpl chatId +:+ ":" +:+ tpl initiatedBy +:+ ":" +:+ tpl chatType +:+ ":" +:+ nonce in
  let state := btoa P (payload +:+ ":pending") in
  let redirectUri :=
    tpl (js_or (field "WORKER_URL" env)
               (VStr "https://c4lendar-worker.calendar-bot.workers.dev")) +:+ "/oauth/callback" in
  let params := [
    ("client_id", tpl (field "GOOGLE_CLIENT_ID" env));
    ("redirect_uri", redirectUri);
    ("response_type", "code");
    ("scope", SCOPES);
    ("access_type", "offline");
    ("prompt", "consent");
    ("state", state) ] in
  ret (object [
    ("url", VStr (GOOGLE_AUTH_URL +:+ "?" +:+ URLSearchParams_toString P params));
    ("state", VStr state);
    ("nonce", VStr nonce) ]).

(* ------------------------------------------------------------------ *)
(** *** chatAdmin.js *)

Definition permission (allowed : bool) (reason : string) : val :=
  object [("allowed", VBool allowed); ("reason", VStr reason)].

(** The request of [canLinkCalendar] to Telegram *)
Definition getChatMember_request (env chatId userId : val) : request :=
  Request ("https://api.telegram.org/bot" +:+ tpl (field "TELEGRAM_BOT_TOKEN" env)
           +:+ "/getChatMember")
          "POST" [("Content-Type", "application/json")]
          (Some (JSON_stringify P (object [("chat_id", chatId); ("user_id", userId)]))).

(** Returns [{ allowed, reason }] *)
Definition canLinkCalendar (env chatId userId chatType : val) : M val :=
  let! user := lift (toString_of userId) in
  (* admin override: the bot owner can always link *)
  if strict_eq (VStr user) (field "ADMIN_USER_ID" env) then ret (permission true "bot_admin")
  (* private chats: always allow *)
  else if strict_eq chatType (VStr "private") then ret (permission true "private_chat")
  else
    try_catch
      (let! response := do_fetch P (getChatMember_request env chatId userId) in
       if negb (response_ok response) then
         log ("getChatMember failed: " +:+ body_text response);;
         ret (permission false "api_error")
       else
         let! data := lift (JSON_parse P (body_text response)) in
         let! ok := lift (prop "ok" data) in
         if negb (truthy ok) then
           log ("getChatMember error: " +:+ tpl (field "description" data));;
           ret (permission false "api_error")
         else
           let status := field "status" (field "result" data) in
           if strict_eq status (VStr "administrator") || strict_eq status (VStr "creator")
           then ret (permission true "telegram_admin")
           else ret (permission false "not_admin"))
      (λ error,
         log ("Admin check failed: " +:+ error);;
         ret (permission false "error")).

(* ------------------------------------------------------------------ *)
(** *** telegram.js: the bot's outgoing message *)

Definition sendMessage_request (env chatId text : val) : request :=
  Request ("https://api.telegram.org/bot" +:+ tpl (field "TELEGRAM_BOT_TOKEN" env)
           +:+ "/sendMessage")
          "POST" [("Content-Type", "application/json")]
          (Some (JSON_stringify P (object [("chat_id", chatId);
                                           ("text", text);
                                           ("parse_mode", VStr "Markdown")]))).

Definition sendMessage (env chatId text : val) : M unit :=
  try_catch
    (let! response := do_fetch P (sendMessage_request env chatId text) in
     if negb (response_ok response) then
       log ("Telegram API error: " +:+ body_text response)
     else ret tt)
    (λ error, log ("Failed to send message: " +:+ error)).

(* ------------------------------------------------------------------ *)
(** *** eventUid.js *)

(** [`EVT-${uuid.split('-')[0]}`] *)
Definition generateEventUID : M string :=
  let! uuid := random_uuid P in
  let shortId := hd EmptyString (split "-" uuid) in
  ret ("EVT-" +:+ shortId).

(** [text.match(/EVT-[0-9a-f]{8}/i)], then the match in upper case, or
    [null] *)
Definition extractEventUID (text : val) : res val :=
  match text with
  | VStr s =>
      match evt_search s with
      | Some m => Ok (VStr (toUpperCase m))
      | None => Ok VNull
      end
  | VUndef | VNull =>
      Throw ("TypeError: Cannot read properties of " +:+ tpl text +:+ " (reading 'match')")
  | _ => Throw "TypeError: text.match is not a function"
  end.

(** [/^EVT-[0-9a-f]{8}$/i.test(uid)]: the argument is converted to a string *)
Definition isValidEventUID (uid : val) : bool := evt_exact (tpl uid).

(** Returns the reference, or [null]; [input] defaults to [null] *)
Definition resolveEventUID (env chatId userId input : val) : M val :=
  let fallback : M val :=
    let! selected := getSelectedEvent env chatId userId in
    if truthy selected && truthy (field "bot_event_uid" selected)
    then ret (field "bot_event_uid" selected)
    else ret VNull in
  if truthy input then
    let! extracted := lift (extractEventUID input) in
    if truthy extracted && isValidEventUID extracted then ret extracted
    else fallback
  else fallback.

End WorkerMore.

(* ================================================================== *)
(** ** Vocabulary of the statements about them *)
(* ================================================================== *)

(** Every connection record of the chat that is handed out sits under the
    key of its own [google_sub], as [storeGoogleConnection] writes it. *)
Definition keyed_by_account {Ext} (P : platform Ext) (env chatId : val)
    (m : gmap string val) : Prop :=
  ∀ (k : string) (data c : val),
    String.prefix (gconn_prefix chatId) k = true →
    m !! k = Some data →
    connection_view P env data = Some c →
    k = gconn_key chatId (field "google_sub" data).

(** A computation that writes the store at keys satisfying [K] only,
    whether it returns or raises *)
Definition touches_only {Ext A} (K : string → Prop) (m : M Ext A) : Prop :=
  ∀ (w : world Ext) (k : string), ¬ K k → EVENTS (m w).2 !! k = EVENTS w !! k.

(** What [parseAndVerifyState] returns for a state: the parsed fields when
    the text decodes to at least five parts of which the fifth is the
    signature of the first four, [null] otherwise. *)
Definition state_data {Ext} (P : platform Ext) (state secret : val) : val :=
  match atob P (tpl state) with
  | Throw _ => VNull
  | Ok decoded =>
      match split ":" decoded with
      | chatId :: initiatedBy :: chatType :: nonce :: signature :: _ =>
          let payload := chatId +:+ ":" +:+ initiatedBy +:+ ":" +:+ chatType +:+ ":" +:+ nonce in
          if verifyStateSignature P (VStr payload) (VStr signature) secret then
            object [
              ("chatId", of_num (parseInt P chatId));
              ("initiatedBy", of_num (parseInt P initiatedBy));
              ("chatType", VStr chatType);
              ("nonce", VStr nonce) ]
          else VNull
      | _ => VNull
      end
  end.

(** The request [createEvent] sends to the calendar for the event [body] *)
Definition create_request {Ext} (P : platform Ext) (accessToken body : val) : request :=
  Request (CALENDAR_API_BASE +:+ "/calendars/primary/events") "POST"
          [("Authorization", "Bearer " +:+ tpl accessToken);
           ("Content-Type", "application/json")]
          (Some (JSON_stringify P body)).


(* ================================================================== *)
(** ** More scenes on the small platform *)
(* ================================================================== *)

Module Cases.

(** The state issued for chat 42, user 7, in a private chat *)
Definition state : string :=
  Eval vm_compute in
    match (issueState (Toy.platform (Toy.always 200 "ok")) Toy.chat (VNum 7)
                      (VStr "private") Toy.env Toy.linked).1 with
    | Ok s => s
    | Throw _ => EmptyString
    end.

(** A store that holds the marker of that state, written at time 900 *)
Definition awaiting : world Z :=
  World {[ "oauth_state:" +:+ state := object [("createdAt", VNum 900)] ]} 1000 [].

(** A store with the mapping of an event for Alice and no connection *)
Definition orphaned : world Z :=
  World {[ emap_key Toy.chat Toy.uid Toy.alice := Toy.alice_mapping ]} 1000 [].

(** The reference of the [n]-th event of a busy workspace *)
Definition event_no (n : nat) : val :=
  VStr ("EVT-0000" +:+ hex [default x00 (Byte.of_nat (n / 256));
                            default x00 (Byte.of_nat (n mod 256))]).

(** The mapping of that event for Alice's account *)
Definition mapping_no (n : nat) : val :=
  object [
    ("chat_id", Toy.chat);
    ("bot_event_uid", event_no n);
    ("google_sub", Toy.alice);
    ("google_event_id", VStr ("g-evt-" +:+ pretty n));
    ("created_at", VStr "1000");
    ("updated_at", VStr "1000") ].

(** A workspace in which Alice's account holds 1001 events: number 0 to
    number 1000, whose key is the last of the workspace's mapping prefix *)
Definition crowded : world Z :=
  World (list_to_map
           (map (λ n, (emap_key Toy.chat (event_no n) Toy.alice, mapping_no n))
                (seq 0 1001)))
        1000 [].

End Cases.

(* ================================================================== *)
(** ** Facts about the worker *)
(* ================================================================== *)

(** *** Strings and key listings *)

Lemma prefix_app_l (a b k : string) :
  String.prefix (a +:+ b) k = true → String.prefix a k = true.
Proof.
  revert k. induction a as [|c a IH]; intros k; [by destruct k|].
  change (String c a +:+ b) with (String c (a +:+ b)).
  destruct k as [|d k]; simpl; [done|].
  destruct (ascii_dec c d); [apply IH | done].
Qed.

Lemma append_assoc (a b c : string) : (a +:+ b) +:+ c = a +:+ (b +:+ c).
Proof.
  induction a as [|x a IH]; [done|].
  change ((String x a +:+ b) +:+ c) with (String x ((a +:+ b) +:+ c)).
  change (String x a +:+ (b +:+ c)) with (String x (a +:+ (b +:+ c))).
  by rewrite IH.
Qed.

Lemma prefix_refl_app (a b : string) : String.prefix a (a +:+ b) = true.
Proof.
  induction a as [|c a IH]; [by destruct b|].
  change (String c a +:+ b) with (String c (a +:+ b)). simpl.
  destruct (ascii_dec c c); [done | congruence].
Qed.

Lemma elem_of_keys_with_prefix (p : string) (m : gmap string val) (k : string) :
  k ∈ keys_with_prefix p m ↔ String.prefix p k = true ∧ is_Some (m !! k).
Proof.
  unfold keys_with_prefix. rewrite merge_sort_Permutation.
  rewrite list_elem_of_filter, list_elem_of_fmap. split.
  - intros [Hp [[k' v] [-> Hin]]]. split; [done|].
    apply elem_of_map_to_list in Hin. by exists v.
  - intros [Hp [v Hv]]. split; [done|].
    exists (k, v). split; [done|]. by apply elem_of_map_to_list.
Qed.

Lemma keys_with_prefix_dom (p : string) (m1 m2 : gmap string val) :
  dom m1 = dom m2 → keys_with_prefix p m1 ≡ₚ keys_with_prefix p m2.
Proof.
  intros Hdom. unfold keys_with_prefix. rewrite !merge_sort_Permutation.
  apply NoDup_Permutation.
  - apply NoDup_filter, NoDup_fst_map_to_list.
  - apply NoDup_filter, NoDup_fst_map_to_list.
  - intros k. rewrite !list_elem_of_filter.
    assert (Hk : ∀ m : gmap string val, k ∈ (map_to_list m).*1 ↔ k ∈ dom m).
    { intros m. rewrite elem_of_dom, list_elem_of_fmap. split.
      - intros [[k' v] [-> Hin]]. apply elem_of_map_to_list in Hin. by exists v.
      - intros [v Hv]. exists (k, v). split; [done|]. by apply elem_of_map_to_list. }
    by rewrite !Hk, Hdom.
Qed.

Lemma NoDup_keys_with_prefix (p : string) (m : gmap string val) :
  NoDup (keys_with_prefix p m).
Proof.
  unfold keys_with_prefix. rewrite merge_sort_Permutation.
  apply NoDup_filter, NoDup_fst_map_to_list.
Qed.

Lemma string_leb_trans (a b c : string) :
  String.leb a b = true → String.leb b c = true → String.leb a c = true.
Proof.
  unfold String.leb. revert b c.
  induction a as [|x a IH]; intros b c; [by destruct c|].
  destruct b as [|y b]; [done|]. destruct c as [|z c]; [by destruct (Ascii.compare x y)|].
  simpl. unfold Ascii.compare.
  destruct (N.compare_spec (N_of_ascii x) (N_of_ascii y)) as [Hxy|Hxy|Hxy];
    destruct (N.compare_spec (N_of_ascii y) (N_of_ascii z)) as [Hyz|Hyz|Hyz];
    destruct (N.compare_spec (N_of_ascii x) (N_of_ascii z)) as [Hxz|Hxz|Hxz];
    try done; try lia.
  apply IH.
Qed.

Lemma keys_with_prefix_sorted (p : string) (m : gmap string val) :
  Sorted str_le (keys_with_prefix p m).
Proof.
  unfold keys_with_prefix.
  apply (Sorted_merge_sort str_le (Total0 := λ a b, String.leb_total a b)).
Qed.

(** Two stores with the same keys are listed alike *)
Lemma keys_with_prefix_dom_eq (p : string) (m1 m2 : gmap string val) :
  dom m1 = dom m2 → keys_with_prefix p m1 = keys_with_prefix p m2.
Proof.
  intros Hdom.
  apply (Sorted_unique str_le (Transitive0 := string_leb_trans)
                       (AntiSymm0 := String.leb_antisym));
    [apply keys_with_prefix_sorted .. | by apply keys_with_prefix_dom].
Qed.

(** A listing depends on the keys under its prefix only *)
Lemma keys_with_prefix_frame (p : string) (m m' : gmap string val) :
  (∀ k, String.prefix p k = true → m' !! k = m !! k) →
  keys_with_prefix p m' = keys_with_prefix p m.
Proof.
  intros Hsame.
  apply (Sorted_unique str_le (Transitive0 := string_leb_trans)
                       (AntiSymm0 := String.leb_antisym));
    [apply keys_with_prefix_sorted .. |].
  apply NoDup_Permutation; [apply NoDup_keys_with_prefix .. |].
  intros k. rewrite !elem_of_keys_with_prefix.
  split; intros [Hp Hk]; (split; [done|]); [by rewrite <- Hsame | by rewrite Hsame].
Qed.

(** *** One page of a listing *)

Lemma kv_page_sublist (p : string) (m : gmap string val) :
  kv_page p m `sublist_of` keys_with_prefix p m.
Proof. apply sublist_take. Qed.

Lemma elem_of_kv_page_listed (p : string) (m : gmap string val) (k : string) :
  k ∈ kv_page p m → k ∈ keys_with_prefix p m.
Proof. intros Hk. eapply elem_of_sublist; [exact Hk | apply kv_page_sublist]. Qed.

(** What a page lists is a key of the store with the prefix *)
Lemma elem_of_kv_page (p : string) (m : gmap string val) (k : string) :
  k ∈ kv_page p m → String.prefix p k = true ∧ is_Some (m !! k).
Proof. intros Hk. by apply elem_of_keys_with_prefix, elem_of_kv_page_listed. Qed.

(** A prefix of at most 1000 keys is listed in full *)
Lemma kv_page_complete (p : string) (m : gmap string val) :
  one_page p m → kv_page p m = keys_with_prefix p m.
Proof. intros Hfit. by apply take_ge. Qed.

Lemma elem_of_kv_page_complete (p : string) (m : gmap string val) (k : string) :
  one_page p m → k ∈ kv_page p m ↔ String.prefix p k = true ∧ is_Some (m !! k).
Proof. intros Hfit. rewrite (kv_page_complete _ _ Hfit). apply elem_of_keys_with_prefix. Qed.

Lemma kv_page_dom_eq (p : string) (m1 m2 : gmap string val) :
  dom m1 = dom m2 → kv_page p m1 = kv_page p m2.
Proof. intros Hdom. unfold kv_page. by rewrite (keys_with_prefix_dom_eq _ _ _ Hdom). Qed.

Lemma kv_page_frame (p : string) (m m' : gmap string val) :
  (∀ k, String.prefix p k = true → m' !! k = m !! k) → kv_page p m' = kv_page p m.
Proof. intros Hsame. unfold kv_page. by rewrite (keys_with_prefix_frame _ _ _ Hsame). Qed.

Lemma kv_page_empty (p : string) (m : gmap string val) :
  (∀ k, String.prefix p k = true → m !! k = None) → kv_page p m = [].
Proof.
  intros Hnone. apply elem_of_nil_inv. intros k [Hp [d Hd]]%elem_of_kv_page.
  rewrite (Hnone k Hp) in Hd. done.
Qed.

(** The keys of a longer prefix are among those of a shorter one *)
Lemma keys_with_prefix_length_le (p q : string) (m m' : gmap string val) :
  (∀ k, String.prefix q k = true → is_Some (m' !! k) →
        String.prefix p k = true ∧ is_Some (m !! k)) →
  (length (keys_with_prefix q m') ≤ length (keys_with_prefix p m))%nat.
Proof.
  intros Hsub. apply submseteq_length, NoDup_submseteq; [apply NoDup_keys_with_prefix|].
  intros k [Hq Hk]%elem_of_keys_with_prefix. apply elem_of_keys_with_prefix. by apply Hsub.
Qed.

Lemma one_page_le (p q : string) (m m' : gmap string val) :
  (∀ k, String.prefix q k = true → is_Some (m' !! k) →
        String.prefix p k = true ∧ is_Some (m !! k)) →
  one_page p m → one_page q m'.
Proof.
  intros Hsub Hfit. unfold one_page in *.
  pose proof (keys_with_prefix_length_le p q m m' Hsub). lia.
Qed.

(** *** JSON values *)

Lemma json_obj_lookup (o : gmap string val) (f : string) :
  jsonify (VObj o) = VObj o → o !! f ≫= json_field = o !! f.
Proof.
  simpl. intros [= Ho]. rewrite <- Ho at 2. by rewrite lookup_omap.
Qed.

Section WorkerFacts.
Context {Ext : Type} (P : platform Ext).

#[local] Abbreviation M := (M Ext).

Lemma now_iso_run (w : world Ext) :
  now_iso P w = (Ok (toISOString P (Date_now P (outside w)).1),
                 World (EVENTS w) (Date_now P (outside w)).2 (console w)).
Proof.
  unfold now_iso, bind, date_now, ret. by destruct (Date_now P (outside w)).
Qed.

Lemma for_of_cons {A S} (x : A) (xs : list A) (body : A → S → M S) (s : S) (w : world Ext) :
  for_of (x :: xs) body s w = bind (body x s) (λ s', for_of xs body s') w.
Proof. reflexivity. Qed.

(* ------------------------------------------------------------------ *)
(** *** The credential store: revising the cached access credential *)

(** C10.  [updateConnectionAccessToken] on an existing connection record
    writes the record back under the same key with [access_token],
    [expires_at] and [updated_at] set, and every other property of the
    record (encrypted refresh credential, revoked flag, email, scopes,
    linked-by user, created_at, ...) as it was; no other key of the store
    changes.  When the key is absent the call raises and the world is
    left as it was. *)
Theorem updateConnectionAccessToken_frame
    (env chatId googleSub accessToken expiresAt : val) (w : world Ext) :
  let key := gconn_key chatId googleSub in
  (∀ o : gmap string val,
     EVENTS w !! key = Some (VObj o) → jsonify (VObj o) = VObj o →
     ∃ o' : gmap string val,
       updateConnectionAccessToken P env chatId googleSub accessToken expiresAt w
       = (Ok tt, World (<[key := VObj o']> (EVENTS w))
                       (Date_now P (outside w)).2 (console w))
       ∧ o' !! "access_token" = json_field accessToken
       ∧ o' !! "expires_at" = json_field expiresAt
       ∧ o' !! "updated_at" = Some (VStr (toISOString P (Date_now P (outside w)).1))
       ∧ ∀ f : string, f ≠ "access_token" → f ≠ "expires_at" → f ≠ "updated_at" →
                       o' !! f = o !! f)
  ∧ (EVENTS w !! key = None →
     updateConnectionAccessToken P env chatId googleSub accessToken expiresAt w
     = (Throw ("Connection not found: " +:+ key), w)).
Proof.
  intros key. split.
  - intros o Hget Hjson.
    eexists. split; [|split; [|split; [|split]]].
    + unfold updateConnectionAccessToken. fold key.
      unfold bind at 1. unfold kv_get. rewrite Hget. simpl.
      unfold bind at 1. simpl. unfold bind at 1. simpl.
      unfold bind at 1. rewrite now_iso_run.
      unfold bind at 1. simpl. unfold kv_put. simpl. reflexivity.
    + rewrite lookup_omap. rewrite lookup_insert_ne by done.
      rewrite lookup_insert_ne by done. by rewrite lookup_insert_eq.
    + rewrite lookup_omap. rewrite lookup_insert_ne by done.
      by rewrite lookup_insert_eq.
    + rewrite lookup_omap. by rewrite lookup_insert_eq.
    + intros f H1 H2 H3. rewrite lookup_omap.
      rewrite !lookup_insert_ne by done.
      by apply (json_obj_lookup o f).
  - intros Hget. unfold updateConnectionAccessToken. fold key.
    unfold bind, kv_get. rewrite Hget. simpl. reflexivity.
Qed.

(* ------------------------------------------------------------------ *)
(** *** The event identity registry *)

Lemma mapping_entry_google_sub (data : val) :
  field "google_sub" (mapping_entry data) = field "google_sub" data.
Proof. unfold mapping_entry, object. simpl. by rewrite lookup_insert_eq. Qed.

Lemma mapping_entry_google_event_id (data : val) :
  field "google_event_id" (mapping_entry data) = field "google_event_id" data.
Proof.
  unfold mapping_entry, object. simpl.
  rewrite lookup_insert_ne by done. by rewrite lookup_insert_eq.
Qed.

Lemma cascade_loop (googleSub : val) (keys : list string) (n : nat) (w : world Ext) :
  ∃ (n' : nat) (m' : gmap string val),
    for_of keys (cascade_step googleSub) n w = (Ok n', World m' (outside w) (console w))
    ∧ ∀ k, m' !! k = if decide (k ∈ keys)
                     then (if mapping_of googleSub (EVENTS w !! k) then None else EVENTS w !! k)
                     else EVENTS w !! k.
Proof.
  revert n w. induction keys as [|k0 keys IH]; intros n w.
  - exists n, (EVENTS w). split; [by destruct w|].
    intros k. by rewrite decide_False by apply not_elem_of_nil.
  - rewrite for_of_cons. unfold cascade_step at 1. mrun.
    assert (Hcond : truthy (default VNull (EVENTS w !! k0))
                    && strict_eq (field "google_sub" (default VNull (EVENTS w !! k0))) googleSub
                    = mapping_of googleSub (EVENTS w !! k0)).
    { unfold mapping_of. by destruct (EVENTS w !! k0). }
    rewrite Hcond. destruct (mapping_of googleSub (EVENTS w !! k0)) eqn:Hm.
    + destruct (IH (S n) (World (delete k0 (EVENTS w)) (outside w) (console w)))
        as (n' & m' & Hrun & Hm').
      exists n', m'. split; [exact Hrun|].
      intros k. rewrite Hm'. simpl.
      destruct (decide (k = k0)) as [->|Hne].
      * rewrite lookup_delete_eq. simpl.
        rewrite (decide_True (P := k0 ∈ k0 :: keys)) by apply list_elem_of_here.
        rewrite Hm. by destruct (decide (k0 ∈ keys)).
      * rewrite lookup_delete_ne by done.
        destruct (decide (k ∈ keys)) as [Hin|Hnin].
        -- by rewrite decide_True by (by apply list_elem_of_further).
        -- rewrite decide_False; [done|].
           intros [?|?]%elem_of_cons; done.
    + destruct (IH n w) as (n' & m' & Hrun & Hm').
      exists n', m'. split; [exact Hrun|].
      intros k. rewrite Hm'.
      destruct (decide (k = k0)) as [->|Hne].
      * rewrite (decide_True (P := k0 ∈ k0 :: keys)) by apply list_elem_of_here.
        rewrite Hm. by destruct (decide (k0 ∈ keys)).
      * destruct (decide (k ∈ keys)) as [Hin|Hnin].
        -- by rewrite decide_True by (by apply list_elem_of_further).
        -- rewrite decide_False; [done|].
           intros [?|?]%elem_of_cons; done.
Qed.

Lemma collect_mapping_loop (keys : list string) (acc : list val) (w : world Ext) :
  for_of keys collect_mapping acc w = (Ok (acc ++ mappings_view (EVENTS w) keys), w).
Proof.
  revert acc. induction keys as [|k keys IH]; intros acc.
  - simpl. unfold ret. by rewrite app_nil_r.
  - rewrite for_of_cons. unfold collect_mapping at 1. mrun.
    unfold mappings_view. simpl. fold (mappings_view (EVENTS w) keys).
    destruct (EVENTS w !! k) as [d|] eqn:Hk; simpl.
    + destruct (truthy d); rewrite IH; [|done].
      by rewrite <- app_assoc.
    + by rewrite IH.
Qed.

Lemma getEventMappings_run (env chatId botEventUid : val) (w : world Ext) :
  getEventMappings env chatId botEventUid w
  = (Ok (mappings_view (EVENTS w)
           (kv_page (emap_uid_prefix chatId botEventUid) (EVENTS w))), w).
Proof.
  unfold getEventMappings, bind, kv_list. by rewrite collect_mapping_loop.
Qed.

Lemma elem_of_mappings_view (m : gmap string val) (keys : list string) (x : val) :
  x ∈ mappings_view m keys ↔
  ∃ k d, k ∈ keys ∧ m !! k = Some d ∧ truthy d = true ∧ x = mapping_entry d.
Proof.
  unfold mappings_view. rewrite list_elem_of_omap. split.
  - intros (k & Hk & Hx). destruct (m !! k) as [d|] eqn:Hd; [|done]. simpl in Hx.
    destruct (truthy d) eqn:Ht; [|done]. injection Hx as <-. by exists k, d.
  - intros (k & d & Hk & Hd & Ht & ->). exists k. split; [done|].
    rewrite Hd. simpl. by rewrite Ht.
Qed.

Lemma emap_uid_prefix_workspace (chatId botEventUid : val) (k : string) :
  String.prefix (emap_uid_prefix chatId botEventUid) k = true →
  String.prefix (emap_prefix chatId) k = true.
Proof.
  unfold emap_uid_prefix, emap_prefix. intros Hk.
  apply (prefix_app_l _ (tpl botEventUid +:+ ":")).
  by rewrite !append_assoc.
Qed.

(** What the cascade leaves in the store: the records of the account
    among the keys of the page it listed are gone, every other key is as
    it was. *)
Lemma cascade_run (env chatId googleSub : val) (w : world Ext) :
  ∃ w' : world Ext,
    deleteEventMappingsForAccount env chatId googleSub w = (Ok tt, w')
    ∧ ∀ k : string,
        EVENTS w' !! k =
        if bool_decide (k ∈ kv_page (emap_prefix chatId) (EVENTS w))
           && mapping_of googleSub (EVENTS w !! k)
        then None else EVENTS w !! k.
Proof.
  destruct (cascade_loop googleSub (kv_page (emap_prefix chatId) (EVENTS w)) O w)
    as (n' & m' & Hrun & Hm').
  eexists. split.
  - unfold deleteEventMappingsForAccount, bind. unfold kv_list at 1.
    rewrite Hrun. unfold log. simpl. reflexivity.
  - intros k. simpl. rewrite Hm'.
    destruct (decide (k ∈ kv_page (emap_prefix chatId) (EVENTS w))) as [Hin|Hnin].
    + by rewrite bool_decide_eq_true_2.
    + by rewrite bool_decide_eq_false_2.
Qed.

(** A workspace whose mappings fit one page has every event's mappings on
    one page, before the cascade and after it. *)
Lemma one_page_of_event (chatId botEventUid : val) (m m' : gmap string val) :
  (∀ k, is_Some (m' !! k) → is_Some (m !! k)) →
  one_page (emap_prefix chatId) m →
  one_page (emap_uid_prefix chatId botEventUid) m'.
Proof.
  intros Hsub. apply one_page_le. intros k Hp Hk.
  split; [by apply (emap_uid_prefix_workspace _ botEventUid) | by apply Hsub].
Qed.

(** C9 (the behaviour of the code where the claim fails).  The cascade
    cleanup [deleteEventMappingsForAccount] lists the mappings of the
    workspace once and goes through [list.keys]: one page, the first 1000
    keys of the prefix.  It never raises, removes exactly the records of
    the account among the keys of that page, and leaves every other key of
    the store as it was.  In a workspace of at most 1000 mappings that is
    what the claim says: every record of the account under the workspace's
    prefix is removed, whatever event it is filed under, and
    [getEventMappings], for any uid, returns the entries it returned
    before that are not of the account.  In a workspace with more, a
    mapping of the account whose key is not on the first page stays in the
    store, and [getEventMappings] of its event still returns an entry of
    the account. *)
Theorem cascade_stops_at_first_page (env chatId googleSub : val) (w : world Ext) :
  ∃ w' : world Ext,
    deleteEventMappingsForAccount env chatId googleSub w = (Ok tt, w')
    ∧ (∀ k : string,
         EVENTS w' !! k =
         if bool_decide (k ∈ kv_page (emap_prefix chatId) (EVENTS w))
            && mapping_of googleSub (EVENTS w !! k)
         then None else EVENTS w !! k)
    ∧ (one_page (emap_prefix chatId) (EVENTS w) →
       (∀ k : string,
          EVENTS w' !! k =
          if String.prefix (emap_prefix chatId) k && mapping_of googleSub (EVENTS w !! k)
          then None else EVENTS w !! k)
       ∧ ∀ botEventUid : val, ∃ before after : list val,
           getEventMappings env chatId botEventUid w = (Ok before, w)
           ∧ getEventMappings env chatId botEventUid w' = (Ok after, w')
           ∧ ∀ m : val,
               m ∈ after ↔ m ∈ before ∧ strict_eq (field "google_sub" m) googleSub = false)
    ∧ (∀ (botEventUid : val) (k : string) (d : val),
         String.prefix (emap_uid_prefix chatId botEventUid) k = true →
         EVENTS w !! k = Some d →
         mapping_of googleSub (Some d) = true →
         k ∉ kv_page (emap_prefix chatId) (EVENTS w) →
         one_page (emap_uid_prefix chatId botEventUid) (EVENTS w) →
         EVENTS w' !! k = Some d
         ∧ ∃ (after : list val) (m : val),
             getEventMappings env chatId botEventUid w' = (Ok after, w')
             ∧ m ∈ after
             ∧ strict_eq (field "google_sub" m) googleSub = true).
Proof.
  destruct (cascade_run env chatId googleSub w) as (w' & Hrun & Hexact).
  assert (Hkept : ∀ k, is_Some (EVENTS w' !! k) → is_Some (EVENTS w !! k)).
  { intros k. rewrite Hexact. by destruct (_ && _). }
  exists w'. split; [exact Hrun|]. split; [exact Hexact|]. split.
  - intros Hfit.
    assert (Hstore : ∀ k : string,
              EVENTS w' !! k =
              if String.prefix (emap_prefix chatId) k && mapping_of googleSub (EVENTS w !! k)
              then None else EVENTS w !! k).
    { intros k. rewrite Hexact.
      destruct (decide (k ∈ kv_page (emap_prefix chatId) (EVENTS w))) as [Hin|Hnin].
      - rewrite bool_decide_eq_true_2 by done.
        apply elem_of_kv_page in Hin as [-> _]. done.
      - rewrite bool_decide_eq_false_2 by done. simpl.
        destruct (String.prefix (emap_prefix chatId) k) eqn:Hp; [|done]. simpl.
        destruct (EVENTS w !! k) as [d|] eqn:Hd; [|done].
        exfalso. apply Hnin, (elem_of_kv_page_complete _ _ _ Hfit). by rewrite Hd. }
    split; [exact Hstore|].
    intros uid. eexists _, _.
    split; [apply getEventMappings_run|]. split; [apply getEventMappings_run|].
    pose proof (one_page_of_event chatId uid (EVENTS w) (EVENTS w) (λ _ H, H) Hfit) as Hbefore.
    pose proof (one_page_of_event chatId uid (EVENTS w) (EVENTS w') Hkept Hfit) as Hafter.
    intros m. rewrite !elem_of_mappings_view. split.
    + intros (k & d & Hk & Hd & Ht & ->).
      rewrite mapping_entry_google_sub.
      apply elem_of_kv_page in Hk as [Hp _].
      pose proof (emap_uid_prefix_workspace _ _ _ Hp) as Hw.
      rewrite Hstore, Hw in Hd. simpl in Hd.
      destruct (mapping_of googleSub (EVENTS w !! k)) eqn:Hm; [done|].
      rewrite Hd in Hm. simpl in Hm. rewrite Ht in Hm. simpl in Hm.
      split; [|exact Hm].
      exists k, d. split; [|done].
      apply (elem_of_kv_page_complete _ _ _ Hbefore). by rewrite Hd.
    + intros [(k & d & Hk & Hd & Ht & ->) Hother].
      rewrite mapping_entry_google_sub in Hother.
      exists k, d. split; [|split; [|done]].
      * apply elem_of_kv_page in Hk as [Hp _].
        apply (elem_of_kv_page_complete _ _ _ Hafter). split; [done|].
        rewrite Hstore, Hd. simpl. rewrite Ht, Hother.
        rewrite andb_false_r. by eexists.
      * rewrite Hstore, Hd. simpl. rewrite Ht, Hother. by rewrite andb_false_r.
  - intros uid k d Hp Hd Hof Hbeyond Hfit.
    assert (Hstays : EVENTS w' !! k = Some d).
    { rewrite Hexact. by rewrite bool_decide_eq_false_2. }
    split; [exact Hstays|].
    eexists _, (mapping_entry d). split; [apply getEventMappings_run|]. split.
    + apply elem_of_mappings_view. exists k, d.
      simpl in Hof. apply andb_true_iff in Hof as [Ht _].
      split; [|done].
      apply (elem_of_kv_page_complete _ _ _
               (one_page_le _ _ _ _ (λ k' Hp' Hk', conj Hp' (Hkept k' Hk')) Hfit)).
      by rewrite Hstays.
    + rewrite mapping_entry_google_sub.
      simpl in Hof. by apply andb_true_iff in Hof as [_ Hs].
Qed.

(* ------------------------------------------------------------------ *)
(** *** The credential store: listing the active connections *)

Lemma decryptToken_run (encryptedBase64 env : val) (w : world Ext) :
  decryptToken P encryptedBase64 env w = (decrypt_result P encryptedBase64 env, w).
Proof.
  unfold decryptToken, decrypt_result. mrun.
  destruct (atob P (tpl encryptedBase64)); [|done].
  destruct (aes_importKey (take 32 (keyMaterial P env))); [|done].
  by destruct (aes_gcm_decrypt P _ _ _).
Qed.

Lemma collect_connection_loop (env : val) (keys : list string) (acc : list val) (w : world Ext) :
  ∃ lines : list string,
    for_of keys (collect_connection P env) acc w
    = (Ok (acc ++ omap (λ k, EVENTS w !! k ≫= connection_view P env) keys),
       World (EVENTS w) (outside w) (console w ++ lines))
    ∧ ∀ k data e,
        k ∈ keys → EVENTS w !! k = Some data →
        truthy data && negb (truthy (field "revoked" data)) = true →
        decrypt_result P (field "refresh_token_enc" data) env = Throw e →
        ("Failed to decrypt token for " +:+ k +:+ ": " +:+ e) ∈ lines.
Proof.
  revert acc w. induction keys as [|k0 keys IH]; intros acc w.
  - exists []. split; [|by intros ? ? ? ?%not_elem_of_nil].
    simpl. unfold ret. rewrite !app_nil_r. by destruct w.
  - rewrite for_of_cons. unfold collect_connection at 1. mrun.
    simpl omap. unfold connection_view at 1.
    destruct (EVENTS w !! k0) as [data|] eqn:Hk0; simpl.
    + destruct (truthy data && negb (truthy (field "revoked" data))) eqn:Hact.
      * rewrite decryptToken_run.
        destruct (decrypt_result P (field "refresh_token_enc" data) env) as [rt|e] eqn:Hdec.
        -- destruct (set_field "refresh_token" (VStr rt) data) as [d1|e1] eqn:Hset.
           ++ destruct (IH (acc ++ [delete_field "refresh_token_enc" d1]) w) as (lines & Hrun & Hlog).
              exists lines. rewrite Hrun. split; [by rewrite <- app_assoc|].
              intros k data' e [->|Hin]%elem_of_cons Hk Ha Hd; [|by eapply Hlog].
              rewrite Hk0 in Hk. injection Hk as ->. congruence.
           ++ destruct (IH acc (World (EVENTS w) (outside w)
                                  (console w ++ ["Failed to decrypt token for " +:+ k0 +:+ ": " +:+ e1])))
                as (lines & Hrun & Hlog).
              exists (("Failed to decrypt token for " +:+ k0 +:+ ": " +:+ e1) :: lines).
              rewrite Hrun. simpl. split; [by rewrite <- app_assoc|].
              intros k data' e [->|Hin]%elem_of_cons Hk Ha Hd.
              ** rewrite Hk0 in Hk. injection Hk as ->. congruence.
              ** apply list_elem_of_further. by eapply Hlog.
        -- destruct (IH acc (World (EVENTS w) (outside w)
                               (console w ++ ["Failed to decrypt token for " +:+ k0 +:+ ": " +:+ e])))
             as (lines & Hrun & Hlog).
           exists (("Failed to decrypt token for " +:+ k0 +:+ ": " +:+ e) :: lines).
           rewrite Hrun. simpl. split; [by rewrite <- app_assoc|].
           intros k data' e' [->|Hin]%elem_of_cons Hk Ha Hd.
           ** rewrite Hk0 in Hk. injection Hk as ->. rewrite Hdec in Hd.
              injection Hd as ->. apply list_elem_of_here.
           ** apply list_elem_of_further. by eapply Hlog.
      * destruct (IH acc w) as (lines & Hrun & Hlog).
        exists lines. rewrite Hrun. split; [done|].
        intros k data' e [->|Hin]%elem_of_cons Hk Ha Hd; [|by eapply Hlog].
        rewrite Hk0 in Hk. injection Hk as ->. congruence.
    + destruct (IH acc w) as (lines & Hrun & Hlog).
      exists lines. rewrite Hrun. split; [done|].
      intros k data' e [->|Hin]%elem_of_cons Hk Ha Hd; [|by eapply Hlog].
      congruence.
Qed.

Lemma getWorkspaceConnections_run (env chatId : val) (w : world Ext) :
  ∃ lines : list string,
    getWorkspaceConnections P env chatId w
    = (Ok (omap (λ k, EVENTS w !! k ≫= connection_view P env)
                (kv_page (gconn_prefix chatId) (EVENTS w))),
       World (EVENTS w) (outside w) (console w ++ lines))
    ∧ ∀ k data e,
        k ∈ kv_page (gconn_prefix chatId) (EVENTS w) →
        EVENTS w !! k = Some data →
        truthy data && negb (truthy (field "revoked" data)) = true →
        decrypt_result P (field "refresh_token_enc" data) env = Throw e →
        ("Failed to decrypt token for " +:+ k +:+ ": " +:+ e) ∈ lines.
Proof.
  destruct (collect_connection_loop env
              (kv_page (gconn_prefix chatId) (EVENTS w)) [] w)
    as (lines & Hrun & Hlog).
  eexists (lines ++ [_]). split.
  - unfold getWorkspaceConnections. mrun. rewrite Hrun. simpl.
    by rewrite <- app_assoc.
  - intros k data e Hk Hd Ha He. apply elem_of_app. left. by eapply Hlog.
Qed.

Lemma connection_view_Some (env data c : val) :
  connection_view P env data = Some c ↔
  ∃ o rt, data = VObj o
          ∧ truthy (field "revoked" data) = false
          ∧ decrypt_result P (field "refresh_token_enc" data) env = Ok rt
          ∧ c = VObj (delete "refresh_token_enc" (<["refresh_token" := VStr rt]> o)).
Proof.
  unfold connection_view. split.
  - destruct (truthy data) eqn:Ht; simpl; [|done].
    destruct (truthy (field "revoked" data)) eqn:Hr; simpl; [done|].
    destruct (decrypt_result P _ env) as [rt|e] eqn:Hdec; [|done].
    destruct data as [| | | | | |o]; simpl; try done.
    intros [= <-]. by exists o, rt.
  - intros (o & rt & -> & Hr & Hdec & ->). by rewrite Hr, Hdec.
Qed.


(* ------------------------------------------------------------------ *)
(** *** The credential store: linking an account again *)

Lemma getRandomValues_run (n : nat) (w : world Ext) :
  getRandomValues P n w
  = (Ok (draw P n (outside w)).1, World (EVENTS w) (draw P n (outside w)).2 (console w)).
Proof.
  revert w. induction n as [|n IH]; intros w; simpl.
  - unfold ret. by destruct w.
  - mrun. destruct (random_byte P (outside w)) as [b e1] eqn:Hb.
    rewrite IH. simpl. by destruct (draw P n e1).
Qed.

Lemma draw_length (n : nat) (e : Ext) : length (draw P n e).1 = n.
Proof.
  revert e. induction n as [|n IH]; intros e; simpl; [done|].
  destruct (random_byte P e) as [b e1]. specialize (IH e1).
  destruct (draw P n e1). simpl in *. by rewrite IH.
Qed.

#[local] Arguments draw : simpl never.

Lemma encryptToken_run (token env : val) (w : world Ext) :
  encryptToken P token env w =
  match aes_importKey (take 32 (keyMaterial P env)) with
  | Throw e => (Throw e, w)
  | Ok key =>
      let iv := (draw P 12 (outside w)).1 in
      let w' := World (EVENTS w) (draw P 12 (outside w)).2 (console w) in
      match aes_gcm_encrypt P key iv (encode P token) with
      | Throw e => (Throw e, w')
      | Ok encrypted => (Ok (btoa P (string_of_list_byte (iv ++ encrypted))), w')
      end
  end.
Proof.
  unfold encryptToken. mrun.
  destruct (aes_importKey _) as [key|e]; [|done].
  rewrite getRandomValues_run.
  by destruct (aes_gcm_encrypt P _ _ _).
Qed.

Lemma encryptToken_store (token env : val) (w : world Ext) :
  EVENTS (encryptToken P token env w).2 = EVENTS w.
Proof.
  rewrite encryptToken_run.
  destruct (aes_importKey _); [|done]. simpl.
  by destruct (aes_gcm_encrypt P _ _ _).
Qed.



(* ------------------------------------------------------------------ *)
(** *** The token lifecycle manager *)

Lemma date_now_run (w : world Ext) :
  date_now P w = (Ok (Date_now P (outside w)).1,
                  World (EVENTS w) (Date_now P (outside w)).2 (console w)).
Proof. unfold date_now. by destruct (Date_now P (outside w)). Qed.

Lemma do_fetch_run (rq : request) (w : world Ext) :
  do_fetch P rq w
  = (match (fetch P rq (outside w)).1 with inl msg => Throw msg | inr r => Ok r end,
     World (EVENTS w) (fetch P rq (outside w)).2 (console w)).
Proof. unfold do_fetch. by destruct (fetch P rq (outside w)). Qed.

Lemma status_400_not_ok (r : response) : status r = 400 → response_ok r = false.
Proof. unfold response_ok. by intros ->. Qed.

Lemma refreshAccessToken_rejected (env refreshToken : val) (w : world Ext) (r : response) :
  (fetch P (refresh_request P env refreshToken) (outside w)).1 = inr r →
  status r = 400 →
  refreshAccessToken P env refreshToken w
  = (Ok VNull,
     World (EVENTS w) (fetch P (refresh_request P env refreshToken) (outside w)).2
           (console w ++ ["Token refresh failed: " +:+ body_text r])).
Proof.
  intros Hf Hs. unfold refreshAccessToken. fold (refresh_request P env refreshToken).
  mrun. rewrite do_fetch_run, Hf. rewrite (status_400_not_ok r Hs). simpl.
  by rewrite Hs.
Qed.

Lemma refreshAccessToken_error (env refreshToken : val) (w : world Ext) (r : response) :
  (fetch P (refresh_request P env refreshToken) (outside w)).1 = inr r →
  response_ok r = false → status r ≠ 400 →
  refreshAccessToken P env refreshToken w
  = (Throw ("Token refresh failed: " +:+ body_text r),
     World (EVENTS w) (fetch P (refresh_request P env refreshToken) (outside w)).2
           (console w ++ ["Token refresh failed: " +:+ body_text r])).
Proof.
  intros Hf Hok Hs. unfold refreshAccessToken. fold (refresh_request P env refreshToken).
  mrun. rewrite do_fetch_run, Hf, Hok. simpl.
  by destruct (Z.eqb_spec (status r) 400).
Qed.

Lemma prop_of_truthy_field (k : string) (v : val) :
  truthy (field k v) = true → prop k v = Ok (field k v).
Proof. by destruct v. Qed.

Lemma expiry_read_when_due (connection : val) (now : Z) :
  refresh_due P connection now = true →
  prop "expires_at" connection = Ok (field "expires_at" connection).
Proof.
  unfold refresh_due. intros [Ht _]%andb_true_iff. by apply prop_of_truthy_field.
Qed.

Lemma getValidAccessToken_rejected (env connection : val) (w : world Ext) (r : response) :
  refresh_due P connection (Date_now P (outside w)).1 = true →
  refresh_answer P env connection w = inr r →
  status r = 400 →
  ∃ w' : world Ext,
    getValidAccessTokenForConnection P env connection w = (Ok VNull, w')
    ∧ EVENTS w' = EVENTS w.
Proof.
  intros Hdue Hf Hs. unfold getValidAccessTokenForConnection. mrun.
  rewrite date_now_run, (expiry_read_when_due _ _ Hdue).
  fold (refresh_due P connection (Date_now P (outside w)).1). rewrite Hdue. mrun.
  erewrite refreshAccessToken_rejected; [|exact Hf|exact Hs]. simpl.
  eexists. split; [reflexivity|]. done.
Qed.

Lemma getValidAccessToken_error (env connection : val) (w : world Ext) (r : response) :
  refresh_due P connection (Date_now P (outside w)).1 = true →
  refresh_answer P env connection w = inr r →
  response_ok r = false → status r ≠ 400 →
  ∃ w' : world Ext,
    getValidAccessTokenForConnection P env connection w
    = (Throw ("Token refresh failed: " +:+ body_text r), w')
    ∧ EVENTS w' = EVENTS w.
Proof.
  intros Hdue Hf Hok Hs. unfold getValidAccessTokenForConnection. mrun.
  rewrite date_now_run, (expiry_read_when_due _ _ Hdue).
  fold (refresh_due P connection (Date_now P (outside w)).1). rewrite Hdue. mrun.
  erewrite refreshAccessToken_error; [|exact Hf|exact Hok|exact Hs].
  eexists. split; [reflexivity|]. done.
Qed.

Lemma getValidAccessToken_not_due (env : val) (o : gmap string val) (w : world Ext) :
  refresh_due P (VObj o) (Date_now P (outside w)).1 = false →
  getValidAccessTokenForConnection P env (VObj o) w
  = (Ok (js_or (field "access_token" (VObj o)) VNull),
     World (EVENTS w) (Date_now P (outside w)).2 (console w)).
Proof.
  intros Hdue. unfold getValidAccessTokenForConnection. mrun.
  rewrite date_now_run. change (prop "expires_at" (VObj o)) with (Ok (field "expires_at" (VObj o))).
  cbv beta iota. fold (refresh_due P (VObj o) (Date_now P (outside w)).1).
  by rewrite Hdue.
Qed.

(** The connection itself is read first: without one the call raises. *)
Lemma getValidAccessToken_without_connection (env : val) (w : world Ext) :
  ∃ e : string,
    getValidAccessTokenForConnection P env VUndef w
    = (Throw e, World (EVENTS w) (Date_now P (outside w)).2 (console w)).
Proof.
  unfold getValidAccessTokenForConnection. mrun. rewrite date_now_run. simpl. by eexists.
Qed.

(* ------------------------------------------------------------------ *)
(** *** Isolation of a rejected refresh *)

Lemma getGoogleConnection_run (env chatId googleSub : val) (w : world Ext) :
  ∃ lines : list string,
    getGoogleConnection P env chatId googleSub w
    = (Ok (default VNull (EVENTS w !! gconn_key chatId googleSub ≫= connection_view P env)),
       World (EVENTS w) (outside w) (console w ++ lines)).
Proof.
  unfold getGoogleConnection. mrun. unfold connection_view.
  destruct (EVENTS w !! gconn_key chatId googleSub) as [data|]; simpl.
  - destruct (truthy data); simpl.
    + destruct (truthy (field "revoked" data)); simpl.
      * exists []. rewrite app_nil_r. by destruct w.
      * rewrite decryptToken_run.
        destruct (decrypt_result P (field "refresh_token_enc" data) env) as [rt|e].
        -- destruct (set_field "refresh_token" (VStr rt) data) as [d1|e1].
           ++ exists []. rewrite app_nil_r. by destruct w.
           ++ by eexists [_].
        -- by eexists [_].
    + exists []. rewrite app_nil_r. by destruct w.
  - exists []. rewrite app_nil_r. by destruct w.
Qed.

Lemma connection_view_active (env data c : val) :
  connection_view P env data = Some c →
  truthy c = true ∧ truthy (field "revoked" c) = false.
Proof.
  intros (o & rt & -> & Hr & _ & ->)%connection_view_Some. split; [done|].
  simpl in *. rewrite lookup_delete_ne by done. by rewrite lookup_insert_ne.
Qed.

Lemma getGoogleConnection_active (env chatId googleSub conn : val) (w0 w : world Ext) :
  getGoogleConnection P env chatId googleSub w0 = (Ok conn, w) →
  truthy conn = true →
  truthy (field "revoked" conn) = false.
Proof.
  destruct (getGoogleConnection_run env chatId googleSub w0) as (lines & ->).
  intros [= <- <-].
  destruct (EVENTS w0 !! gconn_key chatId googleSub ≫= connection_view P env)
    as [c|] eqn:Hv; simpl; [|done].
  destruct (EVENTS w0 !! gconn_key chatId googleSub) as [data|]; [|done].
  simpl in Hv. intros _. by destruct (connection_view_active env data c Hv).
Qed.

(** C1.  Let the refresh of a connection be due and let the token
    endpoint answer it (no transport error).  If the answer is a 400,
    [getValidAccessTokenForConnection] returns [null] without raising and
    without touching the store, and each of the three broadcast loops
    appends the account to the failures of the scoreboard, with reason
    "Token refresh failed", leaves the successes and the number of
    accounts as they are, and goes on with the remaining accounts.  If the
    answer is another error response, [getValidAccessTokenForConnection]
    raises. *)
Theorem refresh_rejection_isolated
    (env connection : val) (w : world Ext) (r : response) :
  refresh_due P connection (Date_now P (outside w)).1 = true →
  refresh_answer P env connection w = inr r →
  (status r = 400 →
     (∃ w' : world Ext,
        getValidAccessTokenForConnection P env connection w = (Ok VNull, w')
        ∧ EVENTS w' = EVENTS w)
     ∧ (∀ (chatId botEventUid event : val) (rest : list val) (results : scoreboard),
        ∃ w' : world Ext,
          for_of (connection :: rest) (create_step P env chatId botEventUid event) results w
          = for_of rest (create_step P env chatId botEventUid event)
                   (Scoreboard (successes results)
                      (failures results
                       ++ [object [("email", field "google_email" connection);
                                   ("reason", VStr "Token refresh failed");
                                   ("details", VStr "Please reconnect this account")]])
                      (totalAccounts results)) w')
     ∧ (∀ (chatId botEventUid updates mapping : val) (rest : list val)
          (results : scoreboard) (w0 : world Ext),
        getGoogleConnection P env chatId (field "google_sub" mapping) w0 = (Ok connection, w) →
        truthy connection = true →
        ∃ w' : world Ext,
          for_of (mapping :: rest) (update_step P env chatId botEventUid updates) results w0
          = for_of rest (update_step P env chatId botEventUid updates)
                   (Scoreboard (successes results)
                      (failures results
                       ++ [object [("email", field "google_email" connection);
                                   ("reason", VStr "Token refresh failed");
                                   ("details", VStr "Please reconnect this account")]])
                      (totalAccounts results)) w')
     ∧ (∀ (chatId botEventUid mapping : val) (rest : list val)
          (results : scoreboard) (w0 : world Ext),
        getGoogleConnection P env chatId (field "google_sub" mapping) w0 = (Ok connection, w) →
        truthy connection = true →
        ∃ w' : world Ext,
          for_of (mapping :: rest) (delete_step P env chatId botEventUid) results w0
          = for_of rest (delete_step P env chatId botEventUid)
                   (Scoreboard (successes results)
                      (failures results
                       ++ [object [("email", field "google_email" connection);
                                   ("reason", VStr "Token refresh failed");
                                   ("details", VStr "Mapping will remain until reconnected")]])
                      (totalAccounts results)) w'))
  ∧ (response_ok r = false → status r ≠ 400 →
     ∃ w' : world Ext,
       getValidAccessTokenForConnection P env connection w
       = (Throw ("Token refresh failed: " +:+ body_text r), w')
       ∧ EVENTS w' = EVENTS w).
Proof.
  intros Hdue Hans. split.
  - intros H400.
    destruct (getValidAccessToken_rejected env connection w r Hdue Hans H400)
      as (w' & Hget & Hstore).
    split; [by exists w'|]. split; [|split].
    + intros chatId botEventUid event rest results. exists w'.
      rewrite for_of_cons. unfold create_step at 1. mrun. by rewrite Hget.
    + intros chatId botEventUid updates mapping rest results w0 Hconn Htruthy.
      exists w'. rewrite for_of_cons. unfold update_step at 1. mrun.
      rewrite Hconn, Htruthy.
      rewrite (getGoogleConnection_active _ _ _ _ _ _ Hconn Htruthy). simpl.
      by rewrite Hget.
    + intros chatId botEventUid mapping rest results w0 Hconn Htruthy.
      exists w'. rewrite for_of_cons. unfold delete_step at 1. mrun.
      rewrite Hconn, Htruthy.
      rewrite (getGoogleConnection_active _ _ _ _ _ _ Hconn Htruthy). simpl.
      by rewrite Hget.
  - intros Hok Hs. by apply getValidAccessToken_error.
Qed.

(* ------------------------------------------------------------------ *)
(** *** Refreshing before expiry *)

Lemma refresh_not_due_without_expiry (connection : val) (now : Z) :
  truthy (field "expires_at" connection) = false → refresh_due P connection now = false.
Proof. unfold refresh_due. by intros ->. Qed.

(** C5 (the behaviour of the code where the claim fails).  For a
    connection with no cached access credential and no cached expiry, as
    [storeGoogleConnection] writes it, [getValidAccessTokenForConnection]
    reads the clock and returns [null]: no request is sent to the token
    endpoint and nothing is written to the store. *)
Theorem no_refresh_when_credential_absent
    (env : val) (o : gmap string val) (w : world Ext) :
  getValidAccessTokenForConnection P env
    (VObj (delete "access_token" (delete "expires_at" o))) w
  = (Ok VNull, World (EVENTS w) (Date_now P (outside w)).2 (console w)).
Proof.
  rewrite getValidAccessToken_not_due.
  - unfold js_or. simpl. by rewrite lookup_delete_eq.
  - apply refresh_not_due_without_expiry. simpl.
    rewrite lookup_delete_ne by done. by rewrite lookup_delete_eq.
Qed.

Lemma updateConnectionAccessToken_run
    (env chatId googleSub accessToken expiresAt : val) (w : world Ext) (o : gmap string val) :
  EVENTS w !! gconn_key chatId googleSub = Some (VObj o) →
  updateConnectionAccessToken P env chatId googleSub accessToken expiresAt w
  = (Ok tt,
     World (<[gconn_key chatId googleSub :=
                jsonify (VObj (<["updated_at" := VStr (toISOString P (Date_now P (outside w)).1)]>
                                 (<["expires_at" := expiresAt]>
                                    (<["access_token" := accessToken]> o))))]> (EVENTS w))
           (Date_now P (outside w)).2 (console w)).
Proof.
  intros Hget. unfold updateConnectionAccessToken. mrun. rewrite Hget. simpl.
  by rewrite now_iso_run.
Qed.

(** When the cached expiry is present and at most 60 seconds ahead, the
    refresh is requested with the decrypted refresh credential; when the
    endpoint answers with tokens, the new credential and expiry are written
    to the connection's record and the new credential is returned (the half
    of C5 that the code does). *)
Lemma refresh_persisted
    (env connection tokens access_token : val) (w : world Ext) (r : response)
    (o : gmap string val) :
  refresh_due P connection (Date_now P (outside w)).1 = true →
  refresh_answer P env connection w = inr r →
  response_ok r = true →
  JSON_parse P (body_text r) = Ok tokens →
  prop "access_token" tokens = Ok access_token →
  EVENTS w !! gconn_key (field "chat_id" connection) (field "google_sub" connection)
  = Some (VObj o) →
  ∃ (w' : world Ext) (o' : gmap string val) (now : Z),
    getValidAccessTokenForConnection P env connection w = (Ok access_token, w')
    ∧ EVENTS w'
      = <[gconn_key (field "chat_id" connection) (field "google_sub" connection) := VObj o']>
          (EVENTS w)
    ∧ o' !! "access_token" = json_field access_token
    ∧ o' !! "expires_at"
      = json_field (num_add P (VNum now) (js_mul P (field "expires_in" tokens) (VNum 1000))).
Proof.
  intros Hdue Hans Hok Hparse Hprop Hrec.
  unfold getValidAccessTokenForConnection. mrun.
  rewrite date_now_run, (expiry_read_when_due _ _ Hdue).
  fold (refresh_due P connection (Date_now P (outside w)).1). rewrite Hdue. mrun.
  unfold refreshAccessToken. fold (refresh_request P env (field "refresh_token" connection)).
  mrun. rewrite do_fetch_run. simpl. unfold refresh_answer in Hans. rewrite Hans, Hok. simpl.
  rewrite Hparse, Hprop. rewrite date_now_run. simpl.
  rewrite !lookup_insert_eq.
  rewrite (lookup_insert_ne _ "access_token" "expires_at") by done.
  rewrite (lookup_insert_ne _ "expires_in" "expires_at") by done.
  rewrite lookup_insert_eq. simpl.
  erewrite updateConnectionAccessToken_run by exact Hrec. simpl.
  eexists _, _, _. split; [reflexivity|]. split; [reflexivity|]. split.
  - rewrite lookup_omap. rewrite !lookup_insert_ne by done. by rewrite lookup_insert_eq.
  - rewrite lookup_omap. rewrite lookup_insert_ne by done. by rewrite lookup_insert_eq.
Qed.

(* ------------------------------------------------------------------ *)
(** *** Deleting an event that is already gone *)

Lemma kv_delete_loop (keys : list string) (w : world Ext) :
  ∃ m' : gmap string val,
    for_of keys (λ name (_ : unit), kv_delete name) tt w
    = (Ok tt, World m' (outside w) (console w)).
Proof.
  revert w. induction keys as [|k keys IH]; intros w.
  - exists (EVENTS w). by destruct w.
  - rewrite for_of_cons. unfold bind, kv_delete at 1.
    destruct (IH (World (delete k (EVENTS w)) (outside w) (console w))) as (m' & ->).
    by exists m'.
Qed.

Lemma deleteEventMapping_run (env chatId botEventUid googleSub : val) (w : world Ext) :
  ∃ w' : world Ext,
    deleteEventMapping env chatId botEventUid googleSub w = (Ok tt, w')
    ∧ outside w' = outside w
    ∧ (truthy googleSub = true →
       EVENTS w' = delete (emap_key chatId botEventUid googleSub) (EVENTS w)).
Proof.
  unfold deleteEventMapping. destruct (truthy googleSub) eqn:Ht.
  - mrun. eexists. split; [reflexivity|]. done.
  - unfold bind, kv_list.
    destruct (kv_delete_loop (kv_page (emap_uid_prefix chatId botEventUid) (EVENTS w)) w)
      as (m' & ->).
    unfold log. eexists. split; [reflexivity|]. done.
Qed.

Lemma deleteEvent_run (accessToken eventId : val) (w : world Ext) :
  deleteEvent P accessToken eventId w
  = (match (fetch P (delete_request accessToken eventId) (outside w)).1 with
     | inl msg => Throw msg
     | inr r =>
         if negb (response_ok r) && negb (status r =? 410)
         then Throw ("Calendar API error: " +:+ body_text r)
         else Ok (object [("ok", VBool true)])
     end,
     World (EVENTS w) (fetch P (delete_request accessToken eventId) (outside w)).2 (console w)).
Proof.
  unfold deleteEvent. fold (delete_request accessToken eventId). mrun.
  rewrite do_fetch_run.
  destruct ((fetch P (delete_request accessToken eventId) (outside w)).1) as [msg|r]; [done|].
  by destruct (negb (response_ok r) && negb (status r =? 410)).
Qed.

Lemma deleted_ok : truthy (field "ok" (object [("ok", VBool true)])) = true.
Proof. reflexivity. Qed.

(** A remote delete answered 410 counts the account as succeeded and
    removes its mapping (the half of C6 that the code does). *)
Lemma delete_gone_counts_as_success
    (env chatId botEventUid mapping connection accessToken : val)
    (results : scoreboard) (w0 w1 w2 : world Ext) (r : response) :
  getGoogleConnection P env chatId (field "google_sub" mapping) w0 = (Ok connection, w1) →
  truthy connection = true →
  getValidAccessTokenForConnection P env connection w1 = (Ok accessToken, w2) →
  truthy accessToken = true →
  (fetch P (delete_request accessToken (field "google_event_id" mapping)) (outside w2)).1
  = inr r →
  status r = 410 →
  truthy (field "google_sub" mapping) = true →
  ∃ w' : world Ext,
    delete_step P env chatId botEventUid mapping results w0
    = (Ok (Scoreboard
             (successes results
              ++ [object [("email", field "google_email" connection);
                          ("eventId", field "google_event_id" mapping)]])
             (failures results) (totalAccounts results)), w')
    ∧ EVENTS w'
      = delete (emap_key chatId botEventUid (field "google_sub" mapping)) (EVENTS w2).
Proof.
  intros Hconn Htc Htok Htt Hf Hs Hsub.
  unfold delete_step. mrun. rewrite Hconn, Htc.
  rewrite (getGoogleConnection_active _ _ _ _ _ _ Hconn Htc). simpl.
  rewrite Htok, Htt. simpl. rewrite deleteEvent_run, Hf.
  assert (Hgone : negb (response_ok r) && negb (status r =? 410) = false).
  { rewrite Hs. apply andb_false_r. }
  rewrite Hgone, deleted_ok.
  match goal with |- context [deleteEventMapping ?a ?b ?c ?d ?w] =>
    destruct (deleteEventMapping_run a b c d w) as (w' & Hdel & _ & Hstore) end.
  rewrite Hdel. exists w'. split; [reflexivity|]. by rewrite (Hstore Hsub).
Qed.

(** C6, the 404 half (the behaviour of the code where the claim fails).
    A remote delete answered 404 makes [deleteEvent] raise, and the
    account is counted by the text of the error: succeeded, with its
    mapping removed, when the message contains "404" or "410"; failed,
    with its mapping left in the store, when it does not. *)
Theorem delete_not_found_counted_by_text
    (env chatId botEventUid mapping connection accessToken : val)
    (results : scoreboard) (w0 w1 w2 : world Ext) (r : response) :
  getGoogleConnection P env chatId (field "google_sub" mapping) w0 = (Ok connection, w1) →
  truthy connection = true →
  getValidAccessTokenForConnection P env connection w1 = (Ok accessToken, w2) →
  truthy accessToken = true →
  (fetch P (delete_request accessToken (field "google_event_id" mapping)) (outside w2)).1
  = inr r →
  status r = 404 →
  truthy (field "google_sub" mapping) = true →
  let message := "Calendar API error: " +:+ body_text r in
  ∃ w' : world Ext,
    delete_step P env chatId botEventUid mapping results w0
    = (Ok (if includes message "404" || includes message "410"
           then Scoreboard
                  (successes results
                   ++ [object [("email", VStr ("(" +:+ tpl (field "google_sub" mapping)
                                               +:+ ")"));
                               ("note", VStr "Already deleted")]])
                  (failures results) (totalAccounts results)
           else Scoreboard (successes results)
                  (failures results
                   ++ [object [("email", VStr ("(" +:+ tpl (field "google_sub" mapping)
                                               +:+ ")"));
                               ("reason", VStr "Exception");
                               ("details", VStr message)]])
                  (totalAccounts results)), w')
    ∧ EVENTS w'
      = if includes message "404" || includes message "410"
        then delete (emap_key chatId botEventUid (field "google_sub" mapping)) (EVENTS w2)
        else EVENTS w2.
Proof.
  intros Hconn Htc Htok Htt Hf Hs Hsub message. subst message.
  remember ("Calendar API error: " +:+ body_text r) as message eqn:Hmsg.
  unfold delete_step. mrun. rewrite Hconn, Htc.
  rewrite (getGoogleConnection_active _ _ _ _ _ _ Hconn Htc). simpl.
  rewrite Htok, Htt. simpl. rewrite deleteEvent_run, Hf.
  assert (Hnok : negb (response_ok r) && negb (status r =? 410) = true).
  { unfold response_ok. by rewrite Hs. }
  rewrite Hnok, <- Hmsg.
  destruct (includes message "404" || includes message "410") eqn:Hinc.
  - match goal with |- context [deleteEventMapping ?a ?b ?c ?d ?w] =>
      destruct (deleteEventMapping_run a b c d w) as (w' & Hdel & _ & Hstore) end.
    rewrite Hdel. exists w'. split; [reflexivity|]. by rewrite (Hstore Hsub).
  - eexists. split; [reflexivity|]. done.
Qed.

(* ------------------------------------------------------------------ *)
(** *** The aggregate contract of the broadcasts *)

Lemma scored_push_success (entry : val) (r : scoreboard) : scored r (push_success entry r).
Proof. unfold scored, tally. simpl. rewrite length_app. simpl. lia. Qed.

Lemma scored_push_failure (entry : val) (r : scoreboard) : scored r (push_failure entry r).
Proof. unfold scored, tally. simpl. rewrite length_app. simpl. lia. Qed.

Lemma attempts_ret_success (entry : val) (r : scoreboard) :
  attempts r (ret (push_success entry r) : M scoreboard).
Proof. intros w. apply scored_push_success. Qed.

Lemma attempts_ret_failure (entry : val) (r : scoreboard) :
  attempts r (ret (push_failure entry r) : M scoreboard).
Proof. intros w. apply scored_push_failure. Qed.

Lemma attempts_bind {A} (r : scoreboard) (m : M A) (k : A → M scoreboard) :
  (∀ a, attempts r (k a)) → attempts r (bind m k).
Proof.
  intros Hk w. unfold bind. destruct (m w) as [[a|e] w']; [apply Hk | done].
Qed.

Lemma settles_ret_success (entry : val) (r : scoreboard) :
  settles r (ret (push_success entry r) : M scoreboard).
Proof. intros w. eexists _, _. split; [reflexivity | apply scored_push_success]. Qed.

Lemma settles_ret_failure (entry : val) (r : scoreboard) :
  settles r (ret (push_failure entry r) : M scoreboard).
Proof. intros w. eexists _, _. split; [reflexivity | apply scored_push_failure]. Qed.

Lemma settles_bind {A} (r : scoreboard) (m : M A) (k : A → M scoreboard) :
  (∀ w, ∃ a w', m w = (Ok a, w')) → (∀ a, settles r (k a)) → settles r (bind m k).
Proof.
  intros Hm Hk w. unfold bind. destruct (Hm w) as (a & w' & ->). apply Hk.
Qed.

Lemma settles_try_catch (r : scoreboard) (m : M scoreboard) (h : string → M scoreboard) :
  attempts r m → (∀ e, settles r (h e)) → settles r (try_catch m h).
Proof.
  intros Hm Hh w. unfold try_catch. specialize (Hm w).
  destruct (m w) as [[after|e] w']; [by exists after, w' | apply Hh].
Qed.

Lemma log_ok (line : string) (w : world Ext) : ∃ a w', log line w = (Ok a, w').
Proof. by eexists _, _. Qed.

Lemma create_step_settles (env chatId botEventUid event conn : val) (r : scoreboard) :
  settles r (create_step P env chatId botEventUid event conn r).
Proof.
  unfold create_step. apply settles_try_catch.
  - (repeat first
      [ apply attempts_ret_success | apply attempts_ret_failure
      | apply attempts_bind; intros ?
      | match goal with |- attempts _ (if ?c then _ else _) => destruct c end ]).
  - intros e. apply settles_bind; [apply log_ok|]. intros _. apply settles_ret_failure.
Qed.

Lemma update_step_settles (env chatId botEventUid updates mapping : val) (r : scoreboard) :
  settles r (update_step P env chatId botEventUid updates mapping r).
Proof.
  unfold update_step. apply settles_try_catch.
  - (repeat first
      [ apply attempts_ret_success | apply attempts_ret_failure
      | apply attempts_bind; intros ?
      | match goal with |- attempts _ (if ?c then _ else _) => destruct c end ]).
  - intros e. apply settles_bind; [apply log_ok|]. intros _. apply settles_ret_failure.
Qed.

Lemma delete_step_settles (env chatId botEventUid mapping : val) (r : scoreboard) :
  settles r (delete_step P env chatId botEventUid mapping r).
Proof.
  unfold delete_step. apply settles_try_catch.
  - (repeat first
      [ apply attempts_ret_success | apply attempts_ret_failure
      | apply attempts_bind; intros ?
      | match goal with |- attempts _ (if ?c then _ else _) => destruct c end ]).
  - intros e. apply settles_bind; [apply log_ok|]. intros _.
    destruct (includes e "404" || includes e "410").
    + apply settles_bind; [|intros _; apply settles_ret_success].
      intros w. destruct (deleteEventMapping_run env chatId botEventUid
                            (field "google_sub" mapping) w) as (w' & -> & _).
      by eexists _, _.
    + apply settles_ret_failure.
Qed.

Lemma for_of_settles {A} (step : A → scoreboard → M scoreboard) :
  (∀ x r, settles r (step x r)) →
  ∀ (xs : list A) (r : scoreboard) (w : world Ext),
    ∃ r' w', for_of xs step r w = (Ok r', w')
             ∧ totalAccounts r' = totalAccounts r
             ∧ tally r' = (tally r + length xs)%nat.
Proof.
  intros Hstep xs. induction xs as [|x xs IH]; intros r w.
  - exists r, w. simpl. split; [done|]. split; [done | lia].
  - rewrite for_of_cons. unfold bind.
    destruct (Hstep x r w) as (r1 & w1 & -> & Htot & Htally).
    destruct (IH r1 w1) as (r' & w' & -> & Htot' & Htally').
    exists r', w'. split; [done|]. split; [congruence|]. simpl. lia.
Qed.

(** C3, as the code has it.  A broadcast never raises once its fan-out
    loop is entered: it returns a scoreboard whose [totalAccounts] is the
    number of accounts (create) or mappings (update, delete) found, each
    with one outcome among the successes and the failures.
    [broadcastCreateEvent] raises exactly when [getWorkspaceConnections]
    finds no usable connection; [broadcastUpdateEvent] and
    [broadcastDeleteEvent] raise exactly when the event has no mapping in
    the workspace, whatever accounts the workspace has. *)
Theorem broadcast_raises_on_precondition_only
    (env chatId botEventUid payload : val) (w : world Ext) :
  (∃ (connections : list val) (w1 : world Ext),
     getWorkspaceConnections P env chatId w = (Ok connections, w1)
     ∧ match connections with
       | [] => broadcastCreateEvent P env chatId botEventUid payload w
               = (Throw "No Google accounts connected to this workspace", w1)
       | _ :: _ =>
           ∃ (results : scoreboard) (w' : world Ext),
             broadcastCreateEvent P env chatId botEventUid payload w = (Ok results, w')
             ∧ totalAccounts results = length connections
             ∧ tally results = length connections
       end)
  ∧ (∃ mappings : list val,
       getEventMappings env chatId botEventUid w = (Ok mappings, w)
       ∧ match mappings with
         | [] => broadcastUpdateEvent P env chatId botEventUid payload w
                 = (Throw "Event not found or already deleted", w)
                 ∧ broadcastDeleteEvent P env chatId botEventUid w
                   = (Throw "Event not found or already deleted", w)
         | _ :: _ =>
             (∃ (results : scoreboard) (w' : world Ext),
                broadcastUpdateEvent P env chatId botEventUid payload w = (Ok results, w')
                ∧ totalAccounts results = length mappings
                ∧ tally results = length mappings)
             ∧ (∃ (results : scoreboard) (w' : world Ext),
                  broadcastDeleteEvent P env chatId botEventUid w = (Ok results, w')
                  ∧ totalAccounts results = length mappings
                  ∧ tally results = length mappings)
         end).
Proof.
  split.
  - destruct (getWorkspaceConnections_run env chatId w) as (lines & Hrun & _).
    eexists _, _. split; [exact Hrun|].
    unfold broadcastCreateEvent, bind. rewrite Hrun.
    destruct (omap _ _) as [|c cs]; [done|].
    destruct (for_of_settles _ (create_step_settles env chatId botEventUid payload)
                (c :: cs) (Scoreboard [] [] (length (c :: cs)))
                (World (EVENTS w) (outside w) (console w ++ lines)))
      as (r' & w' & Hloop & Htot & Htally).
    exists r', w'. split; [exact Hloop|]. split; [exact Htot | exact Htally].
  - eexists. split; [apply getEventMappings_run|].
    unfold broadcastUpdateEvent, broadcastDeleteEvent, bind.
    rewrite getEventMappings_run.
    destruct (mappings_view _ _) as [|m ms]; [done|]. split.
    + destruct (for_of_settles _ (update_step_settles env chatId botEventUid payload)
                  (m :: ms) (Scoreboard [] [] (length (m :: ms))) w)
        as (r' & w' & Hloop & Htot & Htally).
      exists r', w'. split; [exact Hloop|]. split; [exact Htot | exact Htally].
    + destruct (for_of_settles _ (delete_step_settles env chatId botEventUid)
                  (m :: ms) (Scoreboard [] [] (length (m :: ms))) w)
        as (r' & w' & Hloop & Htot & Htally).
      exists r', w'. split; [exact Hloop|]. split; [exact Htot | exact Htally].
Qed.

(* ------------------------------------------------------------------ *)
(** *** The handshake state *)

Lemma parseAndVerifyState_run (state secret : val) (w : world Ext) :
  ∃ (v : val) (lines : list string),
    parseAndVerifyState P state secret w
    = (Ok v, World (EVENTS w) (outside w) (console w ++ lines)).
Proof.
  unfold parseAndVerifyState. mrun.
  destruct (atob P (tpl state)) as [decoded|e]; [|by eexists _, [_]].
  destruct (split ":" decoded) as [|chatId [|initiatedBy [|chatType [|nonce [|signature rest]]]]];
    try (eexists _, []; rewrite app_nil_r; by destruct w).
  destruct (verifyStateSignature P _ _ secret); simpl.
  - eexists _, []. rewrite app_nil_r. by destruct w.
  - by eexists _, [_].
Qed.

Lemma issueState_run (chatId initiatedBy chatType env : val) (w : world Ext) :
  ∃ state : string,
    issueState P chatId initiatedBy chatType env w
    = (Ok state, World (EVENTS w) (randomUUID P (outside w)).2 (console w)).
Proof.
  unfold issueState, random_uuid. mrun.
  destruct (randomUUID P (outside w)) as [nonce e]. by eexists.
Qed.

Lemma generateOAuthUrl_run (chatId initiatedBy chatType env : val) (w : world Ext) :
  ∃ link : string,
    generateOAuthUrl P chatId initiatedBy chatType env w
    = (Ok link, World (EVENTS w) (randomUUID P (outside w)).2 (console w)).
Proof.
  unfold generateOAuthUrl. mrun.
  destruct (issueState_run chatId initiatedBy chatType env w) as (state & ->).
  by eexists.
Qed.

(** A state with no existence marker in the store never passes, however
    good its signature. *)
Lemma verifyState_without_marker (state env : val) (w : world Ext) :
  EVENTS w !! ("oauth_state:" +:+ tpl state) = None →
  ∃ (e : string) (w' : world Ext),
    verifyState P state env w = (Throw e, w')
    ∧ (e = "Invalid or tampered authorization state"
       ∨ e = "Invalid or expired authorization state")
    ∧ EVENTS w' = EVENTS w.
Proof.
  intros Hnone. unfold verifyState. mrun.
  destruct (parseAndVerifyState_run state (state_secret env) w) as (v & lines & ->).
  destruct (truthy v); simpl.
  - rewrite Hnone. simpl. eexists _, _. split; [reflexivity|]. split; [by right | done].
  - eexists _, _. split; [reflexivity|]. split; [by left | done].
Qed.

(** A verification that passes deletes the marker. *)
Lemma verifyState_consumes (state env stateData : val) (w w' : world Ext) :
  verifyState P state env w = (Ok stateData, w') →
  EVENTS w' = delete ("oauth_state:" +:+ tpl state) (EVENTS w).
Proof.
  unfold verifyState. mrun.
  destruct (parseAndVerifyState_run state (state_secret env) w) as (v & lines & ->).
  destruct (truthy v); simpl; [|done].
  destruct (truthy (default VNull (EVENTS w !! ("oauth_state:" +:+ tpl state)))); simpl; [|done].
  rewrite date_now_run. simpl.
  destruct (js_gt P _ _); simpl; [done|]. by intros [= _ <-].
Qed.

(** After a verification that passed, every later verification of the
    same state fails, as long as nothing writes the marker again. *)
Lemma verifyState_single_use (state env stateData : val) (w w' w'' : world Ext) :
  verifyState P state env w = (Ok stateData, w') →
  EVENTS w'' = EVENTS w' →
  ∃ (e : string) (w3 : world Ext), verifyState P state env w'' = (Throw e, w3).
Proof.
  intros Hfirst Hsame.
  destruct (verifyState_without_marker state env w'') as (e & w3 & Hrun & _).
  - rewrite Hsame, (verifyState_consumes _ _ _ _ _ Hfirst). apply lookup_delete_eq.
  - by exists e, w3.
Qed.

(** C2 (the behaviour of the code where the claim fails).  The issue step
    writes nothing to the store, so in a store that holds no handshake
    marker the state it has just issued is refused by the callback: the
    first verification raises. *)
Theorem issued_state_is_refused
    (env chatId initiatedBy chatType code : val) (w : world Ext) :
  (∀ k : string, String.prefix "oauth_state:" k = true → EVENTS w !! k = None) →
  ∃ (link state : string) (w1 : world Ext),
    generateOAuthUrl P chatId initiatedBy chatType env w = (Ok link, w1)
    ∧ issueState P chatId initiatedBy chatType env w = (Ok state, w1)
    ∧ EVENTS w1 = EVENTS w
    ∧ ∃ (e : string) (w2 : world Ext),
        handleOAuthCallback P code (VStr state) env w1 = (Throw e, w2)
        ∧ (e = "Invalid or tampered authorization state"
           ∨ e = "Invalid or expired authorization state")
        ∧ EVENTS w2 = EVENTS w.
Proof.
  intros Hempty.
  destruct (generateOAuthUrl_run chatId initiatedBy chatType env w) as (link & Hlink).
  destruct (issueState_run chatId initiatedBy chatType env w) as (state & Hstate).
  eexists link, state, _. split; [exact Hlink|]. split; [exact Hstate|]. split; [done|].
  destruct (verifyState_without_marker (VStr state) env
              (World (EVENTS w) (randomUUID P (outside w)).2 (console w)))
    as (e & w2 & Hrun & He & Hstore).
  { simpl. apply Hempty, prefix_refl_app. }
  exists e, w2. split; [|split; [exact He | exact Hstore]].
  unfold handleOAuthCallback, bind. by rewrite Hrun.
Qed.

(* ------------------------------------------------------------------ *)
(** *** The token cipher *)

Lemma aes_importKey_refused (keyData : list byte) :
  aes_key_length (length keyData) = false → aes_importKey keyData = Throw "DataError".
Proof. unfold aes_importKey. by intros ->. Qed.

Lemma aes_importKey_Ok (keyData key : list byte) :
  aes_importKey keyData = Ok key → key = keyData ∧ aes_key_length (length key) = true.
Proof.
  unfold aes_importKey. destruct (aes_key_length (length keyData)) eqn:Hlen; [|done].
  by intros [= <-].
Qed.

(** C4 (the behaviour of the code where the claim fails).  The key both
    functions import is the first 32 bytes of the encoded [ENCRYPTION_KEY]
    as they are: a shorter key is not padded.  When those bytes are not
    16, 24 or 32 in number, [importKey] rejects them, and then for every
    token [encryptToken] raises before a nonce is drawn, [decryptToken]
    raises for every text, a token this very key was meant to protect
    included, and [storeGoogleConnection] raises with nothing stored. *)
Theorem unusable_key_is_refused (env : val) :
  aes_key_length (length (take 32 (keyMaterial P env))) = false →
  (∀ (token : val) (w : world Ext),
     encryptToken P token env w = (Throw "DataError", w))
  ∧ (∀ (encryptedBase64 : val) (w : world Ext),
       ∃ e : string, decryptToken P encryptedBase64 env w = (Throw e, w))
  ∧ (∀ (chatId googleSub googleEmail refreshToken scopes connectedByUserId : val)
       (w : world Ext),
       storeGoogleConnection P env chatId googleSub googleEmail refreshToken scopes
                             connectedByUserId w
       = (Throw "DataError", w)).
Proof.
  intros Hlength. pose proof (aes_importKey_refused _ Hlength) as Hrefused.
  split; [|split].
  - intros token w. by rewrite encryptToken_run, Hrefused.
  - intros c w. rewrite decryptToken_run. unfold decrypt_result.
    destruct (atob P (tpl c)) as [binary|e]; [|by eexists].
    rewrite Hrefused. by eexists.
  - intros chatId googleSub googleEmail refreshToken scopes connectedByUserId w.
    unfold storeGoogleConnection. mrun. by rewrite encryptToken_run, Hrefused.
Qed.

Section Cipher.
(** The contracts of the primitives the token cipher is built on: the
    text codec and base64 are lossless, and AES-GCM decrypts what it
    encrypted, accepts nothing else, and (an idealisation of the cipher)
    never produces the same ciphertext under two keys. *)
Hypothesis codec_lossless :
  ∀ s : string, TextDecoder_decode P (TextEncoder_encode P s) = s.
Hypothesis base64_lossless :
  ∀ s : string, atob P (btoa P s) = Ok s.
Hypothesis cipher_correct :
  ∀ key iv plaintext ciphertext,
    aes_gcm_encrypt P key iv plaintext = Ok ciphertext →
    aes_gcm_decrypt P key iv ciphertext = Ok plaintext.
Hypothesis cipher_authentic :
  ∀ key iv ciphertext plaintext,
    aes_gcm_decrypt P key iv ciphertext = Ok plaintext →
    aes_gcm_encrypt P key iv plaintext = Ok ciphertext.
Hypothesis cipher_binds_key :
  ∀ key key' iv iv' plaintext plaintext' ciphertext,
    aes_key_length (length key) = true →
    aes_key_length (length key') = true →
    aes_gcm_encrypt P key iv plaintext = Ok ciphertext →
    aes_gcm_encrypt P key' iv' plaintext' = Ok ciphertext →
    key = key'.

Lemma decrypt_result_authentic (env c : val) (s : string) :
  decrypt_result P c env = Ok s → authentic P env c.
Proof.
  unfold decrypt_result, authentic.
  destruct (atob P (tpl c)) as [binary|e]; [|done].
  destruct (aes_importKey (take 32 (keyMaterial P env))) as [key|e]; [|done].
  destruct (aes_gcm_decrypt P key _ _) as [plaintext|e] eqn:Hdec; [|done].
  intros _. exists key, binary, plaintext. by rewrite (cipher_authentic _ _ _ _ Hdec).
Qed.

(** The half of C4 that the code does.  For a key the cipher takes,
    [decryptToken] gives back the string [encryptToken] was given; on a
    text that is not an authentic encryption under the key of [env],
    [decryptToken] raises; and so it does on a token that was sealed under
    other key material. *)
Lemma token_cipher_roundtrip (env : val) (x : string) (key : list byte) (w : world Ext) :
  aes_importKey (take 32 (keyMaterial P env)) = Ok key →
  (∀ iv plaintext, ∃ ciphertext, aes_gcm_encrypt P key iv plaintext = Ok ciphertext) →
  (∃ (c : string) (w1 : world Ext),
     encryptToken P (VStr x) env w = (Ok c, w1)
     ∧ ∀ w2 : world Ext, decryptToken P (VStr c) env w2 = (Ok x, w2))
  ∧ (∀ (c : val) (w2 : world Ext),
       ¬ authentic P env c →
       ∃ e : string, decryptToken P c env w2 = (Throw e, w2))
  ∧ (∀ (env' : val) (x' c : string) (w0 w1 w2 : world Ext),
       encryptToken P (VStr x') env' w0 = (Ok c, w1) →
       take 32 (keyMaterial P env') ≠ take 32 (keyMaterial P env) →
       ∃ e : string, decryptToken P (VStr c) env w2 = (Throw e, w2)).
Proof.
  intros Hkey Htotal. split; [|split].
  - rewrite encryptToken_run, Hkey. simpl.
    destruct (Htotal (draw P 12 (outside w)).1 (encode P (VStr x))) as (ct & Henc).
    rewrite Henc. eexists _, _. split; [reflexivity|].
    intros w2. rewrite decryptToken_run. unfold decrypt_result. simpl tpl.
    rewrite base64_lossless, list_byte_of_string_of_list_byte, Hkey.
    rewrite take_app_length' by (symmetry; apply draw_length).
    rewrite drop_app_length' by (symmetry; apply draw_length).
    rewrite (cipher_correct _ _ _ _ Henc). unfold encode. simpl.
    by rewrite codec_lossless.
  - intros c w2 Hforged. rewrite decryptToken_run.
    destruct (decrypt_result P c env) as [s|e] eqn:Hdec; [|by exists e].
    destruct Hforged. by eapply decrypt_result_authentic.
  - intros env' x' c w0 w1 w2 Hsealed Hother. rewrite decryptToken_run.
    destruct (decrypt_result P (VStr c) env) as [s|e] eqn:Hdec; [|by exists e].
    exfalso. apply Hother.
    apply decrypt_result_authentic in Hdec as (key0 & binary & plaintext & Hk0 & Hb & Henc0).
    rewrite Hkey in Hk0. injection Hk0 as <-.
    rewrite encryptToken_run in Hsealed.
    destruct (aes_importKey (take 32 (keyMaterial P env'))) as [key'|e'] eqn:Hkey';
      [|done].
    simpl in Hsealed.
    destruct (aes_gcm_encrypt P key' _ _) as [ct|e'] eqn:Henc'; [|done].
    injection Hsealed as <- _. simpl in Hb. rewrite base64_lossless in Hb.
    injection Hb as <-. rewrite list_byte_of_string_of_list_byte in Henc0.
    rewrite drop_app_length' in Henc0 by (symmetry; apply draw_length).
    apply aes_importKey_Ok in Hkey as [-> Hlen].
    apply aes_importKey_Ok in Hkey' as [-> Hlen'].
    by apply (cipher_binds_key _ _ _ _ _ _ _ Hlen' Hlen Henc' Henc0).
Qed.
End Cipher.

(** *** The handshake state, had the marker been written *)

Lemma split_colon_free (a rest : string) :
  split ":" a = [a] → split ":" (a +:+ ":" +:+ rest) = a :: split ":" rest.
Proof.
  induction a as [|c a IH]; intros Hfree.
  - reflexivity.
  - change (String c a +:+ ":" +:+ rest) with (String c (a +:+ ":" +:+ rest)).
    simpl in *. destruct (Ascii.eqb c ":"); [done|].
    destruct (split ":" a) as [|h r] eqn:Hsplit; [|injection Hfree as -> ->].
    + by injection Hfree as <-.
    + by rewrite IH.
Qed.

Lemma hex_byte_colon_free (b : byte) (rest : string) :
  split ":" rest = [rest] → split ":" (hex_byte b +:+ rest) = [hex_byte b +:+ rest].
Proof. intros Hrest. destruct b; cbv -[split]; simpl; by rewrite Hrest. Qed.

Lemma hex_colon_free (bs : list byte) : split ":" (hex bs) = [hex bs].
Proof.
  induction bs as [|b bs IH]; [done|].
  change (hex (b :: bs)) with (hex_byte b +:+ hex bs). by apply hex_byte_colon_free.
Qed.

Lemma split_issued_state (a b c d sig : string) :
  split ":" a = [a] → split ":" b = [b] → split ":" c = [c] → split ":" d = [d] →
  split ":" sig = [sig] →
  split ":" ((a +:+ ":" +:+ b +:+ ":" +:+ c +:+ ":" +:+ d) +:+ ":" +:+ sig)
  = [a; b; c; d; sig].
Proof.
  intros Ha Hb Hc Hd Hsig.
  rewrite !append_assoc.
  rewrite (split_colon_free a) by done. rewrite (split_colon_free b) by done.
  rewrite (split_colon_free c) by done. rewrite (split_colon_free d) by done.
  by rewrite Hsig.
Qed.

(** Had the issue step written the marker, the state it issues would pass
    its first verification, which deletes the marker: with a lossless
    base64 and colon-free workspace, user, kind and nonce, the signature
    check of the callback accepts the issued state, and a marker that is
    present and not older than ten minutes lets it through. *)
Lemma issued_state_passes_with_marker
    (env chatId initiatedBy chatType marker : val) (state : string) (w0 w : world Ext) :
  (∀ s : string, atob P (btoa P s) = Ok s) →
  split ":" (tpl chatId) = [tpl chatId] →
  split ":" (tpl initiatedBy) = [tpl initiatedBy] →
  split ":" (tpl chatType) = [tpl chatType] →
  split ":" (randomUUID P (outside w0)).1 = [(randomUUID P (outside w0)).1] →
  (issueState P chatId initiatedBy chatType env w0).1 = Ok state →
  EVENTS w !! ("oauth_state:" +:+ state) = Some marker →
  truthy marker = true →
  js_gt P (js_sub P (VNum (Date_now P (outside w)).1) (field "createdAt" marker))
        (VNum 600000) = false →
  ∃ (stateData : val) (w' : world Ext),
    verifyState P (VStr state) env w = (Ok stateData, w')
    ∧ EVENTS w' = delete ("oauth_state:" +:+ state) (EVENTS w)
    ∧ field "chatType" stateData = VStr (tpl chatType)
    ∧ field "nonce" stateData = VStr (randomUUID P (outside w0)).1.
Proof.
  intros Hb64 Hchat Huser Hkind Hnonce Hissued Hmarker Htruthy Hfresh.
  unfold issueState, random_uuid in Hissued. revert Hissued. mrun.
  destruct (randomUUID P (outside w0)) as [nonce e] eqn:Hrand. simpl in *.
  intros [= <-].
  unfold verifyState, parseAndVerifyState. mrun. simpl tpl.
  rewrite Hb64, split_issued_state by (done || apply hex_colon_free).
  unfold verifyStateSignature, strict_eq. rewrite String.eqb_refl. simpl.
  rewrite Hmarker. simpl. rewrite Htruthy. simpl.
  rewrite date_now_run. simpl. rewrite Hfresh.
  eexists _, _. split; [reflexivity|]. split; [done|]. split.
  - unfold object. simpl. rewrite !lookup_insert_ne by done. by rewrite lookup_insert_eq.
  - unfold object. simpl. rewrite !lookup_insert_ne by done. by rewrite lookup_insert_eq.
Qed.

(** *** The credential store: revoking a connection *)

(** Revoking touches no key but the connection's own: the mappings are
    left for the cascade. *)
Lemma revokeGoogleConnection_store (env chatId googleSub : val) (w : world Ext) (k : string) :
  k ≠ gconn_key chatId googleSub →
  EVENTS (revokeGoogleConnection P env chatId googleSub w).2 !! k = EVENTS w !! k.
Proof.
  intros Hk. unfold revokeGoogleConnection. mrun.
  destruct (truthy (default VNull (EVENTS w !! gconn_key chatId googleSub))); simpl; [|done].
  destruct (set_field "revoked" (VBool true) _) as [data1|e]; simpl; [|done].
  rewrite now_iso_run. simpl.
  destruct (set_field "updated_at" _ data1) as [data2|e]; simpl; [|done].
  by rewrite lookup_insert_ne.
Qed.

(** A revoked record is handed out by neither lookup. *)
Lemma revoked_record_is_not_active (env : val) (o : gmap string val) :
  o !! "revoked" = Some (VBool true) → connection_view P env (VObj o) = None.
Proof. unfold connection_view. simpl. by intros ->. Qed.

(** Revoking an existing record marks it revoked and keeps its other
    properties but [updated_at]. *)
Lemma revokeGoogleConnection_run (env chatId googleSub : val) (w : world Ext)
    (o : gmap string val) :
  EVENTS w !! gconn_key chatId googleSub = Some (VObj o) →
  ∃ (o' : gmap string val) (w' : world Ext),
    revokeGoogleConnection P env chatId googleSub w = (Ok tt, w')
    ∧ EVENTS w' = <[gconn_key chatId googleSub := VObj o']> (EVENTS w)
    ∧ o' !! "revoked" = Some (VBool true).
Proof.
  intros Hget. unfold revokeGoogleConnection. mrun. rewrite Hget. simpl.
  rewrite now_iso_run. simpl. eexists _, _. split; [reflexivity|]. split; [reflexivity|].
  rewrite lookup_omap. rewrite lookup_insert_ne by done. by rewrite lookup_insert_eq.
Qed.

(* ------------------------------------------------------------------ *)
(** *** Event mappings: storing, listing and deleting *)

Lemma storeEventMapping_run (env chatId botEventUid googleSub googleEventId : val)
    (w : world Ext) :
  ∃ (o : gmap string val) (w' : world Ext),
    storeEventMapping P env chatId botEventUid googleSub googleEventId w = (Ok tt, w')
    ∧ EVENTS w' = <[emap_key chatId botEventUid googleSub := VObj o]> (EVENTS w)
    ∧ field "google_sub" (VObj o) = jsonify googleSub
    ∧ field "google_event_id" (VObj o) = jsonify googleEventId.
Proof.
  unfold storeEventMapping. mrun. rewrite now_iso_run. simpl. rewrite now_iso_run. simpl.
  eexists _, _. split; [reflexivity|]. split; [reflexivity|].
  split.
  - rewrite lookup_omap. simpl. 
    rewrite !lookup_insert_ne by done. rewrite lookup_insert_eq. by destruct googleSub.
  - rewrite lookup_omap. simpl. 
    rewrite !lookup_insert_ne by done. rewrite lookup_insert_eq. by destruct googleEventId.
Qed.

Lemma emap_key_prefix (chatId botEventUid googleSub : val) :
  String.prefix (emap_uid_prefix chatId botEventUid)
                (emap_key chatId botEventUid googleSub) = true.
Proof.
  unfold emap_key, emap_uid_prefix.
  rewrite <- !append_assoc. apply prefix_refl_app.
Qed.

Lemma omap_length_ext {A B} (f g : A → option B) (l : list A) :
  (∀ x, x ∈ l → is_Some (f x) ↔ is_Some (g x)) →
  length (omap f l) = length (omap g l).
Proof.
  induction l as [|x l IH]; intros Hfg; [done|]. simpl.
  assert (Hx := Hfg x (list_elem_of_here _ _)).
  assert (Hl : length (omap f l) = length (omap g l))
    by (apply IH; intros y Hy; apply Hfg; by apply list_elem_of_further).
  destruct (f x) as [a|], (g x) as [b|]; simpl; [by f_equal | | | done].
  - destruct Hx as [Hx _]. destruct Hx as [? ?]; [by eexists | done].
  - destruct Hx as [_ Hx]. destruct Hx as [? ?]; [by eexists | done].
Qed.

(** X1.  After [storeEventMapping], [getEventMappings] of the same chat
    and event lists the pair of the account and its calendar event (as
    JSON keeps them), the mappings of the event fitting the page of a
    listing; no other key of the store is written; and when the key
    already held a record, the event has as many mappings as before: the
    record is replaced. *)
Theorem stored_mapping_is_listed
    (env chatId botEventUid googleSub googleEventId : val) (w : world Ext) :
  ∃ (w' : world Ext) (before after : list val),
    storeEventMapping P env chatId botEventUid googleSub googleEventId w = (Ok tt, w')
    ∧ (∀ k : string, k ≠ emap_key chatId botEventUid googleSub →
                     EVENTS w' !! k = EVENTS w !! k)
    ∧ getEventMappings env chatId botEventUid w = (Ok before, w)
    ∧ getEventMappings env chatId botEventUid w' = (Ok after, w')
    ∧ (one_page (emap_uid_prefix chatId botEventUid) (EVENTS w') →
       object [("google_sub", jsonify googleSub);
               ("google_event_id", jsonify googleEventId)] ∈ after)
    ∧ (truthy (default VNull (EVENTS w !! emap_key chatId botEventUid googleSub)) = true →
       length after = length before).
Proof.
  destruct (storeEventMapping_run env chatId botEventUid googleSub googleEventId w)
    as (o & w' & Hrun & Hstore & Hsub & Hid).
  exists w', (mappings_view (EVENTS w)
                (kv_page (emap_uid_prefix chatId botEventUid) (EVENTS w))),
         (mappings_view (EVENTS w')
                (kv_page (emap_uid_prefix chatId botEventUid) (EVENTS w'))).
  split; [exact Hrun|]. split.
  { intros k Hk. rewrite Hstore. by rewrite lookup_insert_ne. }
  split; [apply getEventMappings_run|]. split; [apply getEventMappings_run|]. split.
  - intros Hfit. apply elem_of_mappings_view.
    exists (emap_key chatId botEventUid googleSub), (VObj o).
    split; [|split; [|split]].
    + apply (elem_of_kv_page_complete _ _ _ Hfit). split; [apply emap_key_prefix|].
      rewrite Hstore, lookup_insert_eq. by eexists.
    + by rewrite Hstore, lookup_insert_eq.
    + done.
    + unfold mapping_entry. by rewrite Hsub, Hid.
  - intros Hold.
    destruct (EVENTS w !! emap_key chatId botEventUid googleSub) as [old|] eqn:Hkey;
      [|done]. simpl in Hold.
    unfold mappings_view.
    assert (Hdom : dom (EVENTS w') = dom (EVENTS w)).
    { rewrite Hstore. apply dom_insert_lookup_L. by eexists. }
    rewrite (kv_page_dom_eq _ _ _ Hdom).
    apply omap_length_ext. intros k _.
    rewrite Hstore.
    destruct (decide (k = emap_key chatId botEventUid googleSub)) as [->|Hne].
    + rewrite lookup_insert_eq, Hkey. simpl. rewrite Hold. split; by eexists.
    + by rewrite lookup_insert_ne.
Qed.

Lemma kv_delete_loop_store (keys : list string) (w : world Ext) :
  ∃ m' : gmap string val,
    for_of keys (λ name (_ : unit), kv_delete name) tt w
    = (Ok tt, World m' (outside w) (console w))
    ∧ ∀ k, m' !! k = if decide (k ∈ keys) then None else EVENTS w !! k.
Proof.
  revert w. induction keys as [|x keys IH]; intros w.
  - exists (EVENTS w). split; [by destruct w|]. intros k.
    rewrite decide_False; [done | apply not_elem_of_nil].
  - rewrite for_of_cons. unfold bind, kv_delete at 1.
    destruct (IH (World (delete x (EVENTS w)) (outside w) (console w))) as (m' & -> & Hm').
    exists m'. split; [done|]. intros k. rewrite Hm'. simpl.
    destruct (decide (k = x)) as [->|Hne].
    + rewrite (decide_True (P := x ∈ x :: keys)) by apply list_elem_of_here.
      case_decide; [done | apply lookup_delete_eq].
    + rewrite lookup_delete_ne by done.
      destruct (decide (k ∈ keys)) as [Hin|Hnin].
      * rewrite decide_True; [done | by apply list_elem_of_further].
      * rewrite decide_False; [done|]. intros [?|?]%elem_of_cons; done.
Qed.

Lemma deleteEventMapping_all (env chatId botEventUid googleSub : val) (w : world Ext) :
  truthy googleSub = false →
  ∃ m' : gmap string val,
    deleteEventMapping env chatId botEventUid googleSub w
    = (Ok tt, World m' (outside w)
                    (console w ++ ["Deleted all event mappings for: " +:+ tpl botEventUid]))
    ∧ ∀ k : string,
        m' !! k = if bool_decide (k ∈ kv_page (emap_uid_prefix chatId botEventUid) (EVENTS w))
                  then None else EVENTS w !! k.
Proof.
  intros Hfalsy. unfold deleteEventMapping. rewrite Hfalsy.
  unfold bind at 1, kv_list at 1. unfold bind at 1.
  destruct (kv_delete_loop_store
              (kv_page (emap_uid_prefix chatId botEventUid) (EVENTS w)) w)
    as (m' & -> & Hm').
  unfold log. simpl. exists m'. split; [done|].
  intros k. rewrite Hm'.
  destruct (decide (k ∈ kv_page (emap_uid_prefix chatId botEventUid) (EVENTS w))).
  - by rewrite bool_decide_eq_true_2.
  - by rewrite bool_decide_eq_false_2.
Qed.

(** X2.  Called with no account (or one that is falsy), [deleteEventMapping]
    removes the mappings of the event that one listing returns and nothing
    else.  When the event has at most 1000 mappings, that is every mapping
    of the event: the keys under the event's prefix are gone, every other
    key is as before, and [getEventMappings] of the event is empty
    afterwards. *)
Theorem deleteEventMapping_whole_event
    (env chatId botEventUid googleSub : val) (w : world Ext) :
  truthy googleSub = false →
  ∃ w' : world Ext,
    deleteEventMapping env chatId botEventUid googleSub w = (Ok tt, w')
    ∧ (∀ k : string,
         EVENTS w' !! k =
         if bool_decide (k ∈ kv_page (emap_uid_prefix chatId botEventUid) (EVENTS w))
         then None else EVENTS w !! k)
    ∧ (one_page (emap_uid_prefix chatId botEventUid) (EVENTS w) →
       (∀ k : string,
          EVENTS w' !! k =
          if String.prefix (emap_uid_prefix chatId botEventUid) k then None
          else EVENTS w !! k)
       ∧ getEventMappings env chatId botEventUid w' = (Ok [], w')).
Proof.
  intros Hfalsy.
  destruct (deleteEventMapping_all env chatId botEventUid googleSub w Hfalsy)
    as (m' & Hrun & Hpage).
  eexists. split; [exact Hrun|]. split; [exact Hpage|].
  intros Hfit.
  assert (Hstore : ∀ k : string,
            m' !! k = if String.prefix (emap_uid_prefix chatId botEventUid) k then None
                      else EVENTS w !! k).
  { intros k. rewrite Hpage.
    destruct (String.prefix (emap_uid_prefix chatId botEventUid) k) eqn:Hp.
    - destruct (EVENTS w !! k) as [d|] eqn:Hk.
      + rewrite bool_decide_eq_true_2; [done|].
        apply (elem_of_kv_page_complete _ _ _ Hfit). split; [done | by eexists].
      + by case_bool_decide.
    - rewrite bool_decide_eq_false_2; [done|].
      intros [Hp' _]%elem_of_kv_page. congruence. }
  split; [exact Hstore|].
  rewrite getEventMappings_run. simpl. f_equal. f_equal.
  rewrite kv_page_empty; [done|].
  intros k Hp. by rewrite Hstore, Hp.
Qed.

(* ------------------------------------------------------------------ *)
(** *** Revoking a connection *)

Lemma getWorkspaceConnections_list (env chatId : val) (w : world Ext) :
  (getWorkspaceConnections P env chatId w).1
  = Ok (omap (λ k, EVENTS w !! k ≫= connection_view P env)
             (kv_page (gconn_prefix chatId) (EVENTS w))).
Proof. destruct (getWorkspaceConnections_run env chatId w) as (lines & -> & _). done. Qed.

Lemma getWorkspaceConnections_store (env chatId : val) (w : world Ext) :
  EVENTS (getWorkspaceConnections P env chatId w).2 = EVENTS w
  ∧ outside (getWorkspaceConnections P env chatId w).2 = outside w.
Proof. destruct (getWorkspaceConnections_run env chatId w) as (lines & -> & _). done. Qed.

Lemma omap_ext_in {A B} (f g : A → option B) (l : list A) :
  (∀ x, x ∈ l → f x = g x) → omap f l = omap g l.
Proof.
  induction l as [|x l IH]; intros Hfg; [done|]. csimpl.
  rewrite (Hfg x (list_elem_of_here _ _)).
  rewrite IH by (intros y Hy; apply Hfg; by apply list_elem_of_further). done.
Qed.

(** X3.  [revokeGoogleConnection] keeps the record and marks it: the
    record of the account is rewritten with [revoked: true], no other key
    is written, [getGoogleConnection] of the account returns [null]
    afterwards, and [getWorkspaceConnections] of any chat returns what it
    returned before without the connection of that record.  With no
    record under the key, nothing is changed. *)
Theorem revoked_connection_is_inactive
    (env chatId googleSub : val) (w : world Ext) :
  let key := gconn_key chatId googleSub in
  (∀ o : gmap string val,
     EVENTS w !! key = Some (VObj o) →
     ∃ (o' : gmap string val) (w' : world Ext),
       revokeGoogleConnection P env chatId googleSub w = (Ok tt, w')
       ∧ EVENTS w' = <[key := VObj o']> (EVENTS w)
       ∧ o' !! "revoked" = Some (VBool true)
       ∧ getGoogleConnection P env chatId googleSub w' = (Ok VNull, w')
       ∧ ∀ chat : val,
           (getWorkspaceConnections P env chat w').1
           = Ok (omap (λ k, if decide (k = key) then None
                            else EVENTS w !! k ≫= connection_view P env)
                      (kv_page (gconn_prefix chat) (EVENTS w))))
  ∧ (EVENTS w !! key = None →
     revokeGoogleConnection P env chatId googleSub w = (Ok tt, w)).
Proof.
  intros key. split.
  - intros o Hrec.
    destruct (revokeGoogleConnection_run env chatId googleSub w o Hrec)
      as (o' & w' & Hrun & Hstore & Hrev).
    exists o', w'. split; [exact Hrun|]. split; [exact Hstore|]. split; [exact Hrev|].
    split.
    + unfold getGoogleConnection. mrun. fold key. rewrite Hstore, lookup_insert_eq.
      simpl. rewrite Hrev. simpl. by destruct w'.
    + intros chat. rewrite getWorkspaceConnections_list. f_equal.
      assert (Hdom : dom (EVENTS w') = dom (EVENTS w)).
      { rewrite Hstore. apply dom_insert_lookup_L. by eexists. }
      rewrite (kv_page_dom_eq _ _ _ Hdom).
      apply omap_ext_in. intros k _. rewrite Hstore.
      destruct (decide (k = key)) as [->|Hne].
      * rewrite lookup_insert_eq. simpl. by apply revoked_record_is_not_active.
      * by rewrite lookup_insert_ne.
  - intros Hnone. unfold revokeGoogleConnection. mrun. fold key. by rewrite Hnone.
Qed.

(* ------------------------------------------------------------------ *)
(** *** Storing a connection and reading it back *)

Lemma storeGoogleConnection_run
    (env chatId googleSub scopes connectedByUserId : val) (email token : string)
    (key ct : list byte) (w : world Ext) :
  aes_importKey (take 32 (keyMaterial P env)) = Ok key →
  aes_gcm_encrypt P key (draw P 12 (outside w)).1 (encode P (VStr token)) = Ok ct →
  ∃ (o : gmap string val) (w' : world Ext),
    storeGoogleConnection P env chatId googleSub (VStr email) (VStr token)
                          scopes connectedByUserId w = (Ok tt, w')
    ∧ EVENTS w' = <[gconn_key chatId googleSub := VObj o]> (EVENTS w)
    ∧ o !! "revoked" = Some (VBool false)
    ∧ o !! "refresh_token_enc"
      = Some (VStr (btoa P (string_of_list_byte ((draw P 12 (outside w)).1 ++ ct))))
    ∧ o !! "google_email" = Some (VStr (toLowerCase email))
    ∧ o !! "refresh_token" = None
    ∧ field "google_sub" (VObj o) = jsonify googleSub
    ∧ field "chat_id" (VObj o) = jsonify chatId.
Proof.
  intros Hkey Henc. unfold storeGoogleConnection. mrun.
  rewrite encryptToken_run, Hkey. simpl. rewrite Henc. simpl.
  rewrite !now_iso_run. simpl.
  eexists _, _. split; [reflexivity|]. split; [reflexivity|].
  repeat split.
  - rewrite lookup_omap. simpl.
    rewrite !lookup_insert_ne by done. by rewrite lookup_insert_eq.
  - rewrite lookup_omap. simpl.
    rewrite !lookup_insert_ne by done. by rewrite lookup_insert_eq.
  - rewrite lookup_omap. simpl.
    rewrite !lookup_insert_ne by done. by rewrite lookup_insert_eq.
  - rewrite lookup_omap. simpl.
    rewrite !lookup_insert_ne by done. by rewrite lookup_empty.
  - rewrite lookup_omap. simpl.
    rewrite !lookup_insert_ne by done. rewrite lookup_insert_eq. by destruct googleSub.
  - rewrite lookup_omap. simpl.
    rewrite lookup_insert_eq. by destruct chatId.
Qed.

Section StoredCredential.
(** The contracts of the primitives, as far as reading back needs them *)
Hypothesis codec_lossless :
  ∀ s : string, TextDecoder_decode P (TextEncoder_encode P s) = s.
Hypothesis base64_lossless :
  ∀ s : string, atob P (btoa P s) = Ok s.
Hypothesis cipher_correct :
  ∀ key iv plaintext ciphertext,
    aes_gcm_encrypt P key iv plaintext = Ok ciphertext →
    aes_gcm_decrypt P key iv ciphertext = Ok plaintext.

Lemma decrypt_result_of_encrypted (env : val) (x : string) (key iv ct : list byte) :
  aes_importKey (take 32 (keyMaterial P env)) = Ok key →
  length iv = 12%nat →
  aes_gcm_encrypt P key iv (encode P (VStr x)) = Ok ct →
  decrypt_result P (VStr (btoa P (string_of_list_byte (iv ++ ct)))) env = Ok x.
Proof.
  intros Hkey Hiv Henc. unfold decrypt_result. simpl tpl.
  rewrite base64_lossless, list_byte_of_string_of_list_byte, Hkey.
  rewrite take_app_length' by done. rewrite drop_app_length' by done.
  rewrite (cipher_correct _ _ _ _ Henc). unfold encode. simpl.
  by rewrite codec_lossless.
Qed.

(** X4.  A connection stored by [storeGoogleConnection] is read back by
    [getGoogleConnection] with the refresh credential it was given, in
    clear and without its encrypted form, the email in lower case and
    [revoked] false; and [getWorkspaceConnections] of the chat lists that
    same connection, the connection records of the chat fitting the page
    of a listing. *)
Theorem stored_connection_is_read_back
    (env chatId googleSub scopes connectedByUserId : val) (email token : string)
    (key ct : list byte) (w : world Ext) :
  aes_importKey (take 32 (keyMaterial P env)) = Ok key →
  aes_gcm_encrypt P key (draw P 12 (outside w)).1 (encode P (VStr token)) = Ok ct →
  ∃ (w1 w2 : world Ext) (conn : val) (connections : list val),
    storeGoogleConnection P env chatId googleSub (VStr email) (VStr token)
                          scopes connectedByUserId w = (Ok tt, w1)
    ∧ getGoogleConnection P env chatId googleSub w1 = (Ok conn, w2)
    ∧ EVENTS w2 = EVENTS w1
    ∧ field "refresh_token" conn = VStr token
    ∧ field "refresh_token_enc" conn = VUndef
    ∧ field "google_email" conn = VStr (toLowerCase email)
    ∧ field "revoked" conn = VBool false
    ∧ field "google_sub" conn = jsonify googleSub
    ∧ field "chat_id" conn = jsonify chatId
    ∧ (getWorkspaceConnections P env chatId w1).1 = Ok connections
    ∧ (one_page (gconn_prefix chatId) (EVENTS w1) → conn ∈ connections).
Proof.
  intros Hkey Henc.
  destruct (storeGoogleConnection_run env chatId googleSub scopes connectedByUserId
              email token key ct w Hkey Henc)
    as (o & w1 & Hrun & Hstore & Hrev & Htok & Hmail & Hclear & Hsub & Hchat).
  assert (Hview : connection_view P env (VObj o)
                  = Some (VObj (delete "refresh_token_enc"
                                  (<["refresh_token" := VStr token]> o)))).
  { apply connection_view_Some. exists o, token.
    split; [done|]. split; [simpl; by rewrite Hrev|]. split; [|done].
    simpl. rewrite Htok. simpl.
    eapply decrypt_result_of_encrypted; [exact Hkey | apply draw_length | exact Henc]. }
  destruct (getGoogleConnection_run env chatId googleSub w1) as (lines & Hget).
  rewrite Hstore, lookup_insert_eq in Hget. simpl in Hget. rewrite Hview in Hget.
  simpl in Hget.
  eexists w1, _, _, _. split; [exact Hrun|]. split; [exact Hget|].
  split; [done|].
  split. { simpl. rewrite lookup_delete_ne by done. by rewrite lookup_insert_eq. }
  split. { simpl. by rewrite lookup_delete_eq. }
  split. { simpl. rewrite lookup_delete_ne by done. rewrite lookup_insert_ne by done.
           by rewrite Hmail. }
  split. { simpl. rewrite lookup_delete_ne by done. rewrite lookup_insert_ne by done.
           by rewrite Hrev. }
  split. { simpl. rewrite lookup_delete_ne by done. rewrite lookup_insert_ne by done.
           exact Hsub. }
  split. { simpl. rewrite lookup_delete_ne by done. rewrite lookup_insert_ne by done.
           exact Hchat. }
  split; [apply getWorkspaceConnections_list|].
  intros Hfit.
  apply list_elem_of_omap. exists (gconn_key chatId googleSub). split.
  - apply (elem_of_kv_page_complete _ _ _ Hfit). split.
    + unfold gconn_key, gconn_prefix. rewrite <- !append_assoc. apply prefix_refl_app.
    + rewrite Hstore, lookup_insert_eq. by eexists.
  - rewrite Hstore, lookup_insert_eq. simpl. exact Hview.
Qed.

End StoredCredential.

(* ------------------------------------------------------------------ *)
(** *** Looking a connection up by its email *)

Lemma strict_eq_VStr (v : val) (s : string) : strict_eq v (VStr s) = true ↔ v = VStr s.
Proof.
  destruct v; simpl; try (split; [done | intros [=]]).
  rewrite String.eqb_eq. split; [by intros -> | by intros [= ->]].
Qed.

Lemma find_first {A} (f : A → bool) (l : list A) (x : A) :
  List.find f l = Some x →
  ∃ l1 l2, l = l1 ++ x :: l2 ∧ f x = true ∧ ∀ y, y ∈ l1 → f y = false.
Proof.
  induction l as [|a l IH]; [done|]. simpl. destruct (f a) eqn:Hfa.
  - intros [= ->]. exists [], l. split; [done|]. split; [done|].
    intros y Hy. by apply not_elem_of_nil in Hy.
  - intros Hfind. destruct (IH Hfind) as (l1 & l2 & -> & Hx & Hl1).
    exists (a :: l1), l2. split; [done|]. split; [done|].
    intros y [->|Hy]%elem_of_cons; [done | by apply Hl1].
Qed.

Lemma find_nowhere {A} (f : A → bool) (l : list A) :
  List.find f l = None → ∀ y, y ∈ l → f y = false.
Proof.
  induction l as [|a l IH]; intros Hfind y Hy; [by apply not_elem_of_nil in Hy|].
  simpl in Hfind. destruct (f a) eqn:Hfa; [done|].
  apply elem_of_cons in Hy as [->|Hy]; [done | by apply IH].
Qed.

Lemma listed_connection_truthy (env : val) (keys : list string) (m : gmap string val)
    (c : val) :
  c ∈ omap (λ k, m !! k ≫= connection_view P env) keys → truthy c = true.
Proof.
  intros (k & _ & Hk)%list_elem_of_omap.
  destruct (m !! k) as [data|]; [|done]. simpl in Hk.
  by apply connection_view_active in Hk as [? _].
Qed.

(** X5.  [findConnectionByEmail] returns the first connection of the
    listing of [getWorkspaceConnections] whose [google_email] is the
    argument in lower case, or [null] when the listing has none; the letter
    case of the argument makes no difference; the store is not written;
    and an argument that is not a string raises before anything is read. *)
Theorem findConnectionByEmail_first_match (env chatId : val) (email : string) (w : world Ext) :
  (∃ (connections : list val) (lines : list string) (r : val),
     (getWorkspaceConnections P env chatId w).1 = Ok connections
     ∧ findConnectionByEmail P env chatId (VStr email) w
       = (Ok r, World (EVENTS w) (outside w) (console w ++ lines))
     ∧ ((r = VNull
         ∧ ∀ c, c ∈ connections → field "google_email" c ≠ VStr (toLowerCase email))
        ∨ (∃ before after : list val,
             connections = before ++ r :: after
             ∧ field "google_email" r = VStr (toLowerCase email)
             ∧ ∀ c, c ∈ before → field "google_email" c ≠ VStr (toLowerCase email))))
  ∧ (∀ email' : string,
       toLowerCase email' = toLowerCase email →
       findConnectionByEmail P env chatId (VStr email') w
       = findConnectionByEmail P env chatId (VStr email) w)
  ∧ (∀ v : val,
       (∀ s : string, v ≠ VStr s) →
       ∃ e : string, findConnectionByEmail P env chatId v w = (Throw e, w)).
Proof.
  split; [|split].
  - destruct (getWorkspaceConnections_run env chatId w) as (lines & Hrun & _).
    unfold findConnectionByEmail. mrun. simpl. rewrite Hrun. simpl.
    set (connections := omap _ _).
    set (f := λ conn : val, strict_eq (field "google_email" conn) (VStr (toLowerCase email))).
    exists connections, lines.
    destruct (List.find f connections) as [c|] eqn:Hfind.
    + destruct (find_first _ _ _ Hfind) as (before & after & Hsplit & Hc & Hbefore).
      assert (Htruthy : truthy c = true).
      { apply (listed_connection_truthy env
                 (kv_page (gconn_prefix chatId) (EVENTS w)) (EVENTS w)).
        fold connections. rewrite Hsplit. apply elem_of_app; right; apply list_elem_of_here. }
      exists c. split; [done|]. split.
      { simpl. unfold js_or. by rewrite Htruthy. }
      right. exists before, after. split; [done|]. split.
      * by apply strict_eq_VStr.
      * intros y Hy Heq. apply strict_eq_VStr in Heq. specialize (Hbefore y Hy).
        unfold f in Hbefore. congruence.
    + exists VNull. split; [done|]. split; [done|]. left. split; [done|].
      intros y Hy Heq. apply strict_eq_VStr in Heq.
      pose proof (find_nowhere _ _ Hfind y Hy) as Hf. unfold f in Hf. congruence.
  - intros email' Hlow. unfold findConnectionByEmail. simpl. by rewrite Hlow.
  - intros v Hv. unfold findConnectionByEmail. mrun.
    destruct v; simpl; try by eexists. by destruct (Hv s).
Qed.

(* ------------------------------------------------------------------ *)
(** *** Deleting the tokens of a chat *)

Lemma connection_view_google_sub (env data c : val) :
  connection_view P env data = Some c →
  field "google_sub" c = field "google_sub" data ∧ ∃ o, data = VObj o.
Proof.
  intros (o & rt & -> & _ & _ & ->)%connection_view_Some. split; [|by eexists].
  simpl. rewrite lookup_delete_ne by done. by rewrite lookup_insert_ne.
Qed.

Lemma revoke_loop (env chatId : val) (cs : list val) (w : world Ext) :
  (∀ c, c ∈ cs →
        ∃ o, EVENTS w !! gconn_key chatId (field "google_sub" c) = Some (VObj o)) →
  ∃ w' : world Ext,
    for_of cs (λ conn (_ : unit),
                 revokeGoogleConnection P env chatId (field "google_sub" conn)) tt w
    = (Ok tt, w')
    ∧ dom (EVENTS w') = dom (EVENTS w)
    ∧ ∀ k : string,
        if decide (k ∈ (λ c, gconn_key chatId (field "google_sub" c)) <$> cs)
        then ∃ o', EVENTS w' !! k = Some (VObj o') ∧ o' !! "revoked" = Some (VBool true)
        else EVENTS w' !! k = EVENTS w !! k.
Proof.
  revert w. induction cs as [|c cs IH]; intros w Hrec.
  - exists w. split; [done|]. split; [done|]. intros k.
    rewrite decide_False; [done | apply not_elem_of_nil].
  - destruct (Hrec c (list_elem_of_here _ _)) as (o & Ho).
    destruct (revokeGoogleConnection_run env chatId (field "google_sub" c) w o Ho)
      as (o1 & w1 & Hrun1 & Hstore1 & Hrev1).
    destruct (IH w1) as (w' & Hloop & Hdom & Hkeys).
    { intros c' Hc'. rewrite Hstore1.
      destruct (decide (gconn_key chatId (field "google_sub" c')
                        = gconn_key chatId (field "google_sub" c))) as [->|Hne].
      - rewrite lookup_insert_eq. by eexists.
      - rewrite lookup_insert_ne by done. apply Hrec. by apply list_elem_of_further. }
    exists w'. split.
    { rewrite for_of_cons. unfold bind. by rewrite Hrun1. }
    split.
    { rewrite Hdom, Hstore1. apply dom_insert_lookup_L. by eexists. }
    intros k. specialize (Hkeys k). rewrite fmap_cons.
    destruct (decide (k ∈ (λ c, gconn_key chatId (field "google_sub" c)) <$> cs))
      as [Hin|Hnin].
    + rewrite decide_True by (by apply list_elem_of_further). exact Hkeys.
    + destruct (decide (k = gconn_key chatId (field "google_sub" c))) as [->|Hne].
      * rewrite decide_True by apply list_elem_of_here.
        exists o1. rewrite Hkeys, Hstore1, lookup_insert_eq. done.
      * rewrite decide_False by (intros [?|?]%elem_of_cons; done).
        rewrite Hkeys, Hstore1. by rewrite lookup_insert_ne.
Qed.

Lemma omap_nil_in {A B} (f : A → option B) (l : list A) :
  (∀ x, x ∈ l → f x = None) → omap f l = [].
Proof.
  induction l as [|x l IH]; intros Hf; [done|]. csimpl.
  rewrite (Hf x (list_elem_of_here _ _)).
  apply IH. intros y Hy. apply Hf. by apply list_elem_of_further.
Qed.

Lemma gconn_key_not_legacy (chatId googleSub chat : val) :
  gconn_key chatId googleSub ≠ gc_tokens_key chat.
Proof. unfold gconn_key, gc_tokens_key. cbv [String.append]. intros [=]. Qed.

Lemma gconn_prefix_not_legacy (chatId chat : val) :
  String.prefix (gconn_prefix chatId) (gc_tokens_key chat) = false.
Proof.
  unfold gconn_prefix, gc_tokens_key. cbv [String.append]. reflexivity.
Qed.

(** X6.  [deleteChatTokens] leaves the chat without a usable credential:
    the legacy record is deleted, every connection that was handed out is
    marked revoked (its record stays), so that [getWorkspaceConnections]
    returns the empty list and [getChatTokens] returns [null] afterwards;
    keys that are neither the legacy key nor connection records of the
    chat are not written. *)
Theorem deleteChatTokens_deactivates (env chatId : val) (w : world Ext) :
  keyed_by_account P env chatId (EVENTS w) →
  ∃ w' : world Ext,
    deleteChatTokens P env chatId w = (Ok tt, w')
    ∧ EVENTS w' !! gc_tokens_key chatId = None
    ∧ (getWorkspaceConnections P env chatId w').1 = Ok []
    ∧ (getChatTokens P env chatId w').1 = Ok VNull
    ∧ dom (EVENTS w') = dom (EVENTS w) ∖ {[gc_tokens_key chatId]}
    ∧ ∀ k : string,
        String.prefix (gconn_prefix chatId) k = false → k ≠ gc_tokens_key chatId →
        EVENTS w' !! k = EVENTS w !! k.
Proof.
  intros Hkeyed.
  set (m0 := delete (gc_tokens_key chatId) (EVENTS w)).
  set (w0 := World m0 (outside w) (console w)).
  destruct (getWorkspaceConnections_run env chatId w0) as (lines & Hlist & _).
  set (keys := kv_page (gconn_prefix chatId) m0) in *.
  set (cs := omap (λ k, EVENTS w0 !! k ≫= connection_view P env) keys) in *.
  set (w1 := World (EVENTS w0) (outside w0) (console w0 ++ lines)) in *.
  assert (Hlisted : ∀ c, c ∈ cs →
            ∃ k data, k ∈ keys ∧ m0 !! k = Some data ∧ connection_view P env data = Some c
                      ∧ k = gconn_key chatId (field "google_sub" c)).
  { intros c (k & Hk & Hview)%list_elem_of_omap. simpl in Hview.
    destruct (m0 !! k) as [data|] eqn:Hdata; [|done]. simpl in Hview.
    exists k, data. split; [done|]. split; [done|]. split; [done|].
    apply elem_of_kv_page in Hk as [Hp _].
    destruct (connection_view_google_sub _ _ _ Hview) as [-> _].
    apply (Hkeyed k data c Hp); [|done].
    unfold m0 in Hdata. by apply lookup_delete_Some in Hdata as [_ ?]. }
  destruct (revoke_loop env chatId cs w1) as (w2 & Hloop & Hdom & Hkeys).
  { intros c Hc. destruct (Hlisted c Hc) as (k & data & _ & Hdata & Hview & <-).
    destruct (connection_view_google_sub _ _ _ Hview) as [_ [o ->]]. by exists o. }
  set (targets := (λ c, gconn_key chatId (field "google_sub" c)) <$> cs) in *.
  assert (Hlegacy : EVENTS w2 !! gc_tokens_key chatId = None).
  { specialize (Hkeys (gc_tokens_key chatId)).
    rewrite decide_False in Hkeys.
    - rewrite Hkeys. apply lookup_delete_eq.
    - intros (c & Heq & _)%list_elem_of_fmap. symmetry in Heq.
      by apply gconn_key_not_legacy in Heq. }
  assert (Hempty : omap (λ k, EVENTS w2 !! k ≫= connection_view P env)
                         (kv_page (gconn_prefix chatId) (EVENTS w2)) = []).
  { rewrite (kv_page_dom_eq _ (EVENTS w2) m0) by done. fold keys.
    apply omap_nil_in. intros k Hk. specialize (Hkeys k).
    destruct (decide (k ∈ targets)) as [Hin|Hnin].
    - destruct Hkeys as (o' & -> & Hrev). simpl.
      by apply revoked_record_is_not_active.
    - rewrite Hkeys. simpl.
      destruct (m0 !! k) as [data|] eqn:Hdata; [|done]. simpl.
      destruct (connection_view P env data) as [c|] eqn:Hview; [|done].
      destruct Hnin. apply list_elem_of_fmap. exists c.
      assert (Hc : c ∈ cs).
      { apply list_elem_of_omap. exists k. split; [done|]. simpl.
        by rewrite Hdata. }
      split; [|done].
      apply elem_of_kv_page in Hk as [Hp _].
      destruct (connection_view_google_sub _ _ _ Hview) as [-> _].
      apply (Hkeyed k data c Hp); [|done].
      unfold m0 in Hdata. by apply lookup_delete_Some in Hdata as [_ ?]. }
  eexists. split.
  { unfold deleteChatTokens. mrun. fold m0. fold w0. rewrite Hlist. fold w1.
    change (kv_page (gconn_prefix chatId) (EVENTS w0)) with keys. fold cs.
    rewrite Hloop. reflexivity. }
  simpl. split; [exact Hlegacy|]. split.
  { rewrite getWorkspaceConnections_list. simpl. by rewrite Hempty. }
  split.
  { unfold getChatTokens. mrun. simpl. rewrite Hlegacy. simpl.
    destruct (getWorkspaceConnections_run env chatId
                (World (EVENTS w2) (outside w2) (console w2 ++
                   ["Deleted all OAuth tokens for chat " +:+ tpl chatId])))
      as (lines' & Hrun' & _).
    simpl in Hrun'. rewrite Hempty in Hrun'. rewrite Hrun'. done. }
  split.
  { rewrite Hdom. simpl. unfold m0. apply dom_delete_L. }
  intros k Hp Hk. specialize (Hkeys k). rewrite decide_False in Hkeys.
  - rewrite Hkeys. simpl. unfold m0. by rewrite lookup_delete_ne.
  - intros (c & -> & _)%list_elem_of_fmap.
    assert (String.prefix (gconn_prefix chatId)
              (gconn_key chatId (field "google_sub" c)) = true); [|congruence].
    unfold gconn_key, gconn_prefix. rewrite <- !append_assoc. apply prefix_refl_app.
Qed.

(* ------------------------------------------------------------------ *)
(** *** Which keys a computation writes *)

Lemma touches_mono {A} (K K' : string → Prop) (m : M A) :
  (∀ k, K k → K' k) → touches_only K m → touches_only K' m.
Proof. intros HK Hm w k Hk. apply Hm. intros ?. apply Hk. by apply HK. Qed.

Lemma touches_ret {A} (K : string → Prop) (a : A) : touches_only K (ret a : M A).
Proof. by intros w k _. Qed.

Lemma touches_throw {A} (K : string → Prop) (e : string) : touches_only K (throw e : M A).
Proof. by intros w k _. Qed.

Lemma touches_lift {A} (K : string → Prop) (r : res A) : touches_only K (lift r : M A).
Proof. by intros w k _. Qed.

Lemma touches_log (K : string → Prop) (line : string) : touches_only K (log line : M unit).
Proof. by intros w k _. Qed.

Lemma touches_bind {A B} (K : string → Prop) (m : M A) (f : A → M B) :
  touches_only K m → (∀ a, touches_only K (f a)) → touches_only K (bind m f).
Proof.
  intros Hm Hf w k Hk. unfold bind. specialize (Hm w k Hk).
  destruct (m w) as [[a|e] w1]; simpl in *; [|done].
  by rewrite (Hf a w1 k Hk).
Qed.

Lemma touches_try_catch {A} (K : string → Prop) (m : M A) (h : string → M A) :
  touches_only K m → (∀ e, touches_only K (h e)) → touches_only K (try_catch m h).
Proof.
  intros Hm Hh w k Hk. unfold try_catch. specialize (Hm w k Hk).
  destruct (m w) as [[a|e] w1]; simpl in *; [done|].
  by rewrite (Hh e w1 k Hk).
Qed.

Lemma touches_for_of {A S} (K : string → Prop) (xs : list A) (body : A → S → M S) (s : S) :
  (∀ x s', touches_only K (body x s')) → touches_only K (for_of xs body s).
Proof.
  intros Hbody. revert s. induction xs as [|x xs IH]; intros s; [apply touches_ret|].
  simpl. apply touches_bind; [apply Hbody | intros s'; apply IH].
Qed.

Lemma touches_if {A} (K : string → Prop) (c : bool) (a b : M A) :
  touches_only K a → touches_only K b → touches_only K (if c then a else b).
Proof. by destruct c. Qed.

Lemma touches_kv_get (K : string → Prop) (key : string) : touches_only K (kv_get key : M val).
Proof. by intros w k _. Qed.

Lemma touches_kv_list (K : string → Prop) (p : string) :
  touches_only K (kv_list p : M (list string)).
Proof. by intros w k _. Qed.

Lemma touches_kv_put (K : string → Prop) (key : string) (data : val) :
  K key → touches_only K (kv_put key data : M unit).
Proof.
  intros Hkey w k Hk. simpl. rewrite lookup_insert_ne; [done|]. by intros ->.
Qed.

Lemma touches_kv_delete (K : string → Prop) (key : string) :
  K key → touches_only K (kv_delete key : M unit).
Proof.
  intros Hkey w k Hk. simpl. rewrite lookup_delete_ne; [done|]. by intros ->.
Qed.

Lemma touches_date_now (K : string → Prop) : touches_only K (date_now P).
Proof. intros w k _. by rewrite date_now_run. Qed.

Lemma touches_now_iso (K : string → Prop) : touches_only K (now_iso P).
Proof. intros w k _. by rewrite now_iso_run. Qed.

Lemma touches_do_fetch (K : string → Prop) (rq : request) : touches_only K (do_fetch P rq).
Proof. intros w k _. by rewrite do_fetch_run. Qed.

Lemma touches_random_uuid (K : string → Prop) : touches_only K (random_uuid P).
Proof. intros w k _. unfold random_uuid. by destruct (randomUUID P (outside w)). Qed.

Lemma touches_encryptToken (K : string → Prop) (token env : val) :
  touches_only K (encryptToken P token env).
Proof. intros w k _. by rewrite encryptToken_store. Qed.

Lemma touches_decryptToken (K : string → Prop) (c env : val) :
  touches_only K (decryptToken P c env).
Proof. intros w k _. by rewrite decryptToken_run. Qed.

Create HintDb touches.
#[local] Hint Extern 0 (touches_only _ (ret _)) => apply touches_ret : touches.
#[local] Hint Extern 0 (touches_only _ (throw _)) => apply touches_throw : touches.
#[local] Hint Extern 0 (touches_only _ (lift _)) => apply touches_lift : touches.
#[local] Hint Extern 0 (touches_only _ (log _)) => apply touches_log : touches.
#[local] Hint Extern 0 (touches_only _ (kv_get _)) => apply touches_kv_get : touches.
#[local] Hint Extern 0 (touches_only _ (kv_list _)) => apply touches_kv_list : touches.
#[local] Hint Extern 0 (touches_only _ (date_now _)) => apply touches_date_now : touches.
#[local] Hint Extern 0 (touches_only _ (now_iso _)) => apply touches_now_iso : touches.
#[local] Hint Extern 0 (touches_only _ (do_fetch _ _)) => apply touches_do_fetch : touches.
#[local] Hint Extern 0 (touches_only _ (random_uuid _)) => apply touches_random_uuid : touches.
#[local] Hint Extern 0 (touches_only _ (encryptToken _ _ _)) =>
  apply touches_encryptToken : touches.
#[local] Hint Extern 0 (touches_only _ (decryptToken _ _ _)) =>
  apply touches_decryptToken : touches.
#[local] Hint Extern 1 (touches_only _ (bind _ _)) =>
  apply touches_bind; [|intros ?; cbv beta zeta] : touches.
#[local] Hint Extern 1 (touches_only _ (try_catch _ _)) =>
  apply touches_try_catch; [|intros ?; cbv beta zeta] : touches.
#[local] Hint Extern 1 (touches_only _ (for_of _ _ _)) =>
  apply touches_for_of; intros ? ?; cbv beta zeta : touches.
#[local] Hint Extern 1 (touches_only _ (if _ then _ else _)) => apply touches_if : touches.
#[local] Hint Extern 1 (touches_only _ (kv_put _ _)) => apply touches_kv_put : touches.
#[local] Hint Extern 1 (touches_only _ (kv_delete _)) => apply touches_kv_delete : touches.

Lemma touches_refreshAccessToken (K : string → Prop) (env refreshToken : val) :
  touches_only K (refreshAccessToken P env refreshToken).
Proof. unfold refreshAccessToken. cbv zeta. auto 30 with touches. Qed.
#[local] Hint Resolve touches_refreshAccessToken : touches.

Lemma touches_updateConnectionAccessToken (K : string → Prop)
    (env chatId googleSub accessToken expiresAt : val) :
  K (gconn_key chatId googleSub) →
  touches_only K (updateConnectionAccessToken P env chatId googleSub accessToken expiresAt).
Proof. intros HK. unfold updateConnectionAccessToken. cbv zeta. auto 30 with touches. Qed.

(** The keys of the connection records *)
Lemma gconn_key_is_connection_record (chatId googleSub : val) :
  String.prefix "gconn:" (gconn_key chatId googleSub) = true.
Proof. unfold gconn_key. apply prefix_refl_app. Qed.

Lemma touches_getValidAccessToken (K : string → Prop) (env connection : val) :
  (∀ k, String.prefix "gconn:" k = true → K k) →
  touches_only K (getValidAccessTokenForConnection P env connection).
Proof.
  intros HK. unfold getValidAccessTokenForConnection. cbv zeta.
  assert (∀ a b, touches_only K
            (updateConnectionAccessToken P env (field "chat_id" connection)
               (field "google_sub" connection) a b))
    by (intros; apply touches_updateConnectionAccessToken, HK,
                gconn_key_is_connection_record).
  auto 30 with touches.
Qed.
#[local] Hint Resolve touches_getValidAccessToken : touches.

Lemma touches_createEvent (K : string → Prop) (accessToken event : val) :
  touches_only K (createEvent P accessToken event).
Proof. unfold createEvent. cbv zeta. auto 40 with touches. Qed.

Lemma touches_updateEvent (K : string → Prop) (accessToken eventId updates : val) :
  touches_only K (updateEvent P accessToken eventId updates).
Proof. unfold updateEvent. cbv zeta. auto 40 with touches. Qed.

Lemma touches_deleteEvent (K : string → Prop) (accessToken eventId : val) :
  touches_only K (deleteEvent P accessToken eventId).
Proof. unfold deleteEvent. cbv zeta. auto 40 with touches. Qed.

Lemma touches_getWorkspaceConnections (K : string → Prop) (env chatId : val) :
  touches_only K (getWorkspaceConnections P env chatId).
Proof. intros w k _. by destruct (getWorkspaceConnections_store env chatId w) as [-> _]. Qed.

Lemma touches_getGoogleConnection (K : string → Prop) (env chatId googleSub : val) :
  touches_only K (getGoogleConnection P env chatId googleSub).
Proof.
  intros w k _. by destruct (getGoogleConnection_run env chatId googleSub w) as (lines & ->).
Qed.

Lemma touches_getEventMappings (K : string → Prop) (env chatId botEventUid : val) :
  touches_only K (getEventMappings env chatId botEventUid : M (list val)).
Proof. intros w k _. by rewrite getEventMappings_run. Qed.

Lemma touches_storeEventMapping (K : string → Prop)
    (env chatId botEventUid googleSub googleEventId : val) :
  K (emap_key chatId botEventUid googleSub) →
  touches_only K (storeEventMapping P env chatId botEventUid googleSub googleEventId).
Proof. intros HK. unfold storeEventMapping. cbv zeta. auto 30 with touches. Qed.

Lemma touches_deleteEventMapping (K : string → Prop) (env chatId botEventUid googleSub : val) :
  (∀ k, String.prefix (emap_uid_prefix chatId botEventUid) k = true → K k) →
  touches_only K (deleteEventMapping env chatId botEventUid googleSub : M unit).
Proof.
  intros HK w k Hk.
  destruct (truthy googleSub) eqn:Hsub.
  - destruct (deleteEventMapping_run env chatId botEventUid googleSub w)
      as (w' & -> & _ & Hstore).
    simpl. rewrite (Hstore Hsub). rewrite lookup_delete_ne; [done|].
    intros <-. apply Hk, HK, emap_key_prefix.
  - destruct (deleteEventMapping_all env chatId botEventUid googleSub w Hsub)
      as (m' & -> & Hstore).
    simpl. rewrite Hstore.
    rewrite bool_decide_eq_false_2; [done|].
    intros [Hp _]%elem_of_kv_page. by apply Hk, HK.
Qed.
#[local] Hint Resolve touches_createEvent touches_updateEvent touches_deleteEvent
  touches_getWorkspaceConnections touches_getGoogleConnection touches_getEventMappings
  : touches.

(** The keys a broadcast of event [botEventUid] in chat [chatId] may
    write: connection records and the mappings of that event. *)
Lemma touches_create_step (K : string → Prop)
    (env chatId botEventUid event conn : val) (r : scoreboard) :
  (∀ k, String.prefix "gconn:" k = true → K k) →
  (∀ k, String.prefix (emap_uid_prefix chatId botEventUid) k = true → K k) →
  touches_only K (create_step P env chatId botEventUid event conn r).
Proof.
  intros Hconn Hmap. unfold create_step.
  assert (∀ sub id, touches_only K (storeEventMapping P env chatId botEventUid sub id))
    by (intros; apply touches_storeEventMapping, Hmap, emap_key_prefix).
  auto 40 with touches.
Qed.

Lemma touches_update_step (K : string → Prop)
    (env chatId botEventUid updates mapping : val) (r : scoreboard) :
  (∀ k, String.prefix "gconn:" k = true → K k) →
  touches_only K (update_step P env chatId botEventUid updates mapping r).
Proof. intros Hconn. unfold update_step. auto 40 with touches. Qed.

Lemma touches_delete_step (K : string → Prop)
    (env chatId botEventUid mapping : val) (r : scoreboard) :
  (∀ k, String.prefix "gconn:" k = true → K k) →
  (∀ k, String.prefix (emap_uid_prefix chatId botEventUid) k = true → K k) →
  touches_only K (delete_step P env chatId botEventUid mapping r).
Proof.
  intros Hconn Hmap. unfold delete_step.
  assert (∀ sub, touches_only K (deleteEventMapping env chatId botEventUid sub : M unit))
    by (intros; by apply touches_deleteEventMapping).
  auto 40 with touches.
Qed.

(** X7.  What a broadcast may write, whether it returns or raises: the
    create and the delete broadcast write connection records (keys starting
    with [gconn:], for a refreshed credential) and mappings of their own
    event in their own chat, and nothing else; the update broadcast writes
    connection records only, so no mapping is ever changed by an update. *)
Theorem broadcasts_write_only_their_records (env chatId botEventUid payload : val) :
  touches_only (λ k, String.prefix "gconn:" k = true
                     ∨ String.prefix (emap_uid_prefix chatId botEventUid) k = true)
               (broadcastCreateEvent P env chatId botEventUid payload)
  ∧ touches_only (λ k, String.prefix "gconn:" k = true)
                 (broadcastUpdateEvent P env chatId botEventUid payload)
  ∧ touches_only (λ k, String.prefix "gconn:" k = true
                       ∨ String.prefix (emap_uid_prefix chatId botEventUid) k = true)
                 (broadcastDeleteEvent P env chatId botEventUid).
Proof.
  split; [|split].
  - unfold broadcastCreateEvent.
    apply touches_bind; [apply touches_getWorkspaceConnections|]. intros connections.
    apply touches_if; [apply touches_throw|].
    apply touches_for_of. intros conn r.
    apply touches_create_step; intros k Hk; [by left | by right].
  - unfold broadcastUpdateEvent.
    apply touches_bind; [apply touches_getEventMappings|]. intros mappings.
    apply touches_if; [apply touches_throw|].
    apply touches_for_of. intros mapping r.
    by apply touches_update_step.
  - unfold broadcastDeleteEvent.
    apply touches_bind; [apply touches_getEventMappings|]. intros mappings.
    apply touches_if; [apply touches_throw|].
    apply touches_for_of. intros mapping r.
    apply touches_delete_step; intros k Hk; [by left | by right].
Qed.

(* ------------------------------------------------------------------ *)
(** *** The authorization state *)

Lemma parseAndVerifyState_value (state secret : val) (w : world Ext) :
  ∃ lines : list string,
    parseAndVerifyState P state secret w
    = (Ok (state_data P state secret), World (EVENTS w) (outside w) (console w ++ lines))
    ∧ (truthy (state_data P state secret) = true → lines = []).
Proof.
  unfold parseAndVerifyState, state_data. mrun.
  destruct (atob P (tpl state)) as [decoded|e]; [|by eexists [_]].
  destruct (split ":" decoded) as [|chatId [|initiatedBy [|chatType [|nonce [|signature rest]]]]];
    try (exists []; rewrite app_nil_r; by destruct w).
  destruct (verifyStateSignature P _ _ secret); simpl.
  - exists []. rewrite app_nil_r. by destruct w.
  - by eexists [_].
Qed.

Lemma parseAndVerifyState_valid (state secret : val) (w : world Ext) :
  truthy (state_data P state secret) = true →
  parseAndVerifyState P state secret w = (Ok (state_data P state secret), w).
Proof.
  intros Hvalid. destruct (parseAndVerifyState_value state secret w) as (lines & -> & Hlines).
  rewrite (Hlines Hvalid), app_nil_r. by destruct w.
Qed.

Lemma verifyState_passed (state env stateData : val) (w w' : world Ext) :
  verifyState P state env w = (Ok stateData, w') →
  truthy (state_data P state (state_secret env)) = true
  ∧ EVENTS w' = delete ("oauth_state:" +:+ tpl state) (EVENTS w).
Proof.
  intros Hrun. split; [|by eapply verifyState_consumes].
  revert Hrun. unfold verifyState. mrun.
  destruct (parseAndVerifyState_value state (state_secret env) w) as (lines & -> & _).
  by destruct (truthy (state_data P state (state_secret env))).
Qed.

Lemma touches_getGoogleUserInfo (K : string → Prop) (accessToken : val) :
  touches_only K (getGoogleUserInfo P accessToken).
Proof. unfold getGoogleUserInfo. auto 30 with touches. Qed.
#[local] Hint Resolve touches_getGoogleUserInfo : touches.

Lemma touches_exchangeCodeForTokens (K : string → Prop) (code env : val) :
  touches_only K (exchangeCodeForTokens P code env).
Proof. unfold exchangeCodeForTokens. cbv zeta. auto 30 with touches. Qed.

Lemma touches_storeGoogleConnection (K : string → Prop)
    (env chatId googleSub googleEmail refreshToken scopes connectedByUserId : val) :
  K (gconn_key chatId googleSub) →
  touches_only K (storeGoogleConnection P env chatId googleSub googleEmail refreshToken
                                        scopes connectedByUserId).
Proof. intros HK. unfold storeGoogleConnection. cbv zeta. auto 30 with touches. Qed.

(** X8.  An authorization state passes [handleOAuthCallback] at most
    once: when a callback has returned, a callback with the same state on
    the world the first one left raises "Invalid or expired authorization
    state", whatever its code, and leaves that world as it found it. *)
Theorem authorization_state_is_single_use
    (code code' state env result : val) (w w1 : world Ext) :
  handleOAuthCallback P code state env w = (Ok result, w1) →
  handleOAuthCallback P code' state env w1
  = (Throw "Invalid or expired authorization state", w1).
Proof.
  intros Hfirst.
  assert (Hvalid : truthy (state_data P state (state_secret env)) = true
                   ∧ EVENTS w1 !! ("oauth_state:" +:+ tpl state) = None).
  { revert Hfirst. unfold handleOAuthCallback. unfold bind at 1.
    destruct (verifyState P state env w) as [[stateData|e] wv] eqn:Hverify; [|done].
    destruct (verifyState_passed _ _ _ _ _ Hverify) as [Hvalid Hconsumed].
    intros Hrest. split; [exact Hvalid|].
    set (rest := bind (exchangeCodeForTokens P env code) _) in Hrest.
    assert (Hframe : touches_only (λ k, String.prefix "gconn:" k = true) rest).
    { apply touches_bind; [apply touches_exchangeCodeForTokens|]. intros tokens.
      apply touches_bind; [|intros ?; apply touches_ret].
      apply touches_storeGoogleConnection, gconn_key_is_connection_record. }
    specialize (Hframe wv ("oauth_state:" +:+ tpl state)).
    rewrite Hrest in Hframe. simpl in Hframe. rewrite Hframe.
    - rewrite Hconsumed. apply lookup_delete_eq.
    - done. }
  destruct Hvalid as [Hvalid Hgone].
  unfold handleOAuthCallback, verifyState. mrun.
  rewrite (parseAndVerifyState_valid _ _ _ Hvalid). rewrite Hvalid. simpl.
  by rewrite Hgone.
Qed.

Lemma handleOAuthCallback_refused (code state env : val) (w : world Ext) :
  truthy (state_data P state (state_secret env)) = false →
  ∃ lines : list string,
    handleOAuthCallback P code state env w
    = (Throw "Invalid or tampered authorization state",
       World (EVENTS w) (outside w) (console w ++ lines)).
Proof.
  intros Hnull. unfold handleOAuthCallback, verifyState. mrun.
  destruct (parseAndVerifyState_value state (state_secret env) w) as (lines & -> & _).
  rewrite Hnull. simpl. by exists lines.
Qed.

(** X9.  A state that does not carry the signature of its own payload
    never gets past [handleOAuthCallback]: when the state is not base64,
    when it decodes to fewer than five parts, or when its fifth part is not
    the HMAC of the first four under the state secret, the callback raises
    "Invalid or tampered authorization state" and has done nothing but
    write the console: no read of the store, no request, no clock. *)
Theorem unsigned_state_is_refused (code state env : val) (w : world Ext) :
  let refused :=
    ∃ lines : list string,
      handleOAuthCallback P code state env w
      = (Throw "Invalid or tampered authorization state",
         World (EVENTS w) (outside w) (console w ++ lines)) in
  (∀ e : string, atob P (tpl state) = Throw e → refused)
  ∧ (∀ decoded : string,
       atob P (tpl state) = Ok decoded → (length (split ":" decoded) < 5)%nat → refused)
  ∧ (∀ (decoded a b c d signature : string) (rest : list string),
       atob P (tpl state) = Ok decoded →
       split ":" decoded = a :: b :: c :: d :: signature :: rest →
       signature ≠ generateStateSignature P
                     (VStr (a +:+ ":" +:+ b +:+ ":" +:+ c +:+ ":" +:+ d)) (state_secret env) →
       refused).
Proof.
  intros refused. subst refused. split; [|split].
  - intros e He. apply handleOAuthCallback_refused. unfold state_data. by rewrite He.
  - intros decoded Hd Hlen. apply handleOAuthCallback_refused.
    unfold state_data. rewrite Hd.
    destruct (split ":" decoded) as [|? [|? [|? [|? [|? ?]]]]]; try done.
    simpl in Hlen. lia.
  - intros decoded a b c d signature rest Hd Hsplit Hsig.
    apply handleOAuthCallback_refused. unfold state_data. rewrite Hd, Hsplit.
    unfold verifyStateSignature. simpl.
    destruct (String.eqb_spec signature
                (generateStateSignature P
                   (VStr (a +:+ ":" +:+ b +:+ ":" +:+ c +:+ ":" +:+ d)) (state_secret env)));
      done.
Qed.

Section StateCodec.
(** Base64 decodes what it encoded, and the fields of the payload hold no
    colon. *)
Hypothesis base64_lossless : ∀ s : string, atob P (btoa P s) = Ok s.

Variables chatId initiatedBy chatType : val.
Variable w : world Ext.
Hypothesis chat_colon_free : split ":" (tpl chatId) = [tpl chatId].
Hypothesis user_colon_free : split ":" (tpl initiatedBy) = [tpl initiatedBy].
Hypothesis type_colon_free : split ":" (tpl chatType) = [tpl chatType].
Hypothesis nonce_colon_free :
  split ":" (randomUUID P (outside w)).1 = [(randomUUID P (outside w)).1].

(** X10.  The state [generateOAuthUrl] issues is read back by
    [parseAndVerifyState] under the same secret: it returns the chat and
    the user as [parseInt] reads them, the chat type and the nonce, and
    logs nothing. *)
Theorem issued_state_is_read_back (env : val) :
  ∃ state : string,
    issueState P chatId initiatedBy chatType env w
    = (Ok state, World (EVENTS w) (randomUUID P (outside w)).2 (console w))
    ∧ ∀ w2 : world Ext,
        parseAndVerifyState P (VStr state) (state_secret env) w2
        = (Ok (object [
                 ("chatId", of_num (parseInt P (tpl chatId)));
                 ("initiatedBy", of_num (parseInt P (tpl initiatedBy)));
                 ("chatType", VStr (tpl chatType));
                 ("nonce", VStr (randomUUID P (outside w)).1) ]), w2).
Proof.
  unfold issueState, random_uuid. mrun.
  destruct (randomUUID P (outside w)) as [nonce e] eqn:Hrand. simpl in *.
  eexists. split; [reflexivity|]. intros w2.
  assert (Hdata : state_data P
            (VStr (btoa P ((tpl chatId +:+ ":" +:+ tpl initiatedBy +:+ ":" +:+ tpl chatType
                            +:+ ":" +:+ nonce) +:+ ":" +:+
                           generateStateSignature P
                             (VStr (tpl chatId +:+ ":" +:+ tpl initiatedBy +:+ ":" +:+
                                    tpl chatType +:+ ":" +:+ nonce)) (state_secret env))))
            (state_secret env)
          = object [
              ("chatId", of_num (parseInt P (tpl chatId)));
              ("initiatedBy", of_num (parseInt P (tpl initiatedBy)));
              ("chatType", VStr (tpl chatType));
              ("nonce", VStr nonce) ]).
  { unfold state_data. simpl tpl.
    rewrite base64_lossless, split_issued_state by (done || apply hex_colon_free).
    unfold verifyStateSignature, strict_eq. by rewrite String.eqb_refl. }
  rewrite <- Hdata. apply parseAndVerifyState_valid. by rewrite Hdata.
Qed.

Lemma hex_is_not_pending (bs : list byte) : hex bs ≠ "pending".
Proof.
  destruct bs as [|b bs]; [done|]. simpl. unfold hex_byte.
  change (String ?c1 (String ?c2 EmptyString) +:+ ?rest) with (String c1 (String c2 rest)).
  intros [= Hp _]. revert Hp. by destruct b.
Qed.

(** X11.  The state of the synchronous generator [generateOAuthURL]
    carries the text "pending" where the signature belongs, and no secret
    makes it pass: [parseAndVerifyState] returns [null] for it and
    [handleOAuthCallback] raises "Invalid or tampered authorization state",
    under every secret and environment. *)
Theorem pending_state_is_refused (env : val) :
  ∃ r : val,
    generateOAuthURL P env chatId initiatedBy chatType w
    = (Ok r, World (EVENTS w) (randomUUID P (outside w)).2 (console w))
    ∧ field "nonce" r = VStr (randomUUID P (outside w)).1
    ∧ (∀ (secret : val) (w2 : world Ext),
         parseAndVerifyState P (field "state" r) secret w2
         = (Ok VNull, World (EVENTS w2) (outside w2)
                            (console w2 ++ ["State signature verification failed"])))
    ∧ (∀ (code env2 : val) (w2 : world Ext),
         ∃ lines : list string,
           handleOAuthCallback P code (field "state" r) env2 w2
           = (Throw "Invalid or tampered authorization state",
              World (EVENTS w2) (outside w2) (console w2 ++ lines))).
Proof.
  unfold generateOAuthURL, random_uuid. mrun.
  destruct (randomUUID P (outside w)) as [nonce e] eqn:Hrand. simpl in *.
  eexists. split; [reflexivity|].
  set (state := btoa P _).
  assert (Hstate : field "state" (object [("url", VStr (GOOGLE_AUTH_URL +:+ "?" +:+
                      URLSearchParams_toString P [
                        ("client_id", tpl (field "GOOGLE_CLIENT_ID" env));
                        ("redirect_uri",
                         tpl (js_or (field "WORKER_URL" env)
                                    (VStr "https://c4lendar-worker.calendar-bot.workers.dev"))
                         +:+ "/oauth/callback");
                        ("response_type", "code"); ("scope", SCOPES);
                        ("access_type", "offline"); ("prompt", "consent");
                        ("state", state)]));
                     ("state", VStr state); ("nonce", VStr nonce)]) = VStr state).
  { unfold object. simpl. rewrite lookup_insert_ne by done. by rewrite lookup_insert_eq. }
  assert (Hsplit : ∀ secret, state_data P (VStr state) secret = VNull).
  { intros secret. unfold state_data, state. simpl tpl.
    rewrite base64_lossless.
    change ((tpl chatId +:+ ":" +:+ tpl initiatedBy +:+ ":" +:+ tpl chatType +:+ ":" +:+ nonce)
            +:+ ":pending")
      with ((tpl chatId +:+ ":" +:+ tpl initiatedBy +:+ ":" +:+ tpl chatType +:+ ":" +:+ nonce)
            +:+ ":" +:+ "pending").
    rewrite split_issued_state by done.
    unfold verifyStateSignature, generateStateSignature, strict_eq.
    destruct (String.eqb_spec "pending"
                (hex (hmac_sha256 P (encode P secret)
                        (encode P (VStr (tpl chatId +:+ ":" +:+ tpl initiatedBy +:+ ":" +:+
                                         tpl chatType +:+ ":" +:+ nonce))))))
      as [Heq|Hne]; [|done].
    symmetry in Heq. by apply hex_is_not_pending in Heq. }
  split.
  { unfold object. simpl. rewrite !lookup_insert_ne by done. by rewrite lookup_insert_eq. }
  rewrite Hstate. split.
  - intros secret w2. unfold parseAndVerifyState. mrun. simpl tpl. unfold state.
    rewrite base64_lossless.
    change ((tpl chatId +:+ ":" +:+ tpl initiatedBy +:+ ":" +:+ tpl chatType +:+ ":" +:+ nonce)
            +:+ ":pending")
      with ((tpl chatId +:+ ":" +:+ tpl initiatedBy +:+ ":" +:+ tpl chatType +:+ ":" +:+ nonce)
            +:+ ":" +:+ "pending").
    rewrite split_issued_state by done.
    specialize (Hsplit secret). unfold state_data, state in Hsplit. simpl tpl in Hsplit.
    rewrite base64_lossless in Hsplit.
    change ((tpl chatId +:+ ":" +:+ tpl initiatedBy +:+ ":" +:+ tpl chatType +:+ ":" +:+ nonce)
            +:+ ":pending")
      with ((tpl chatId +:+ ":" +:+ tpl initiatedBy +:+ ":" +:+ tpl chatType +:+ ":" +:+ nonce)
            +:+ ":" +:+ "pending") in Hsplit.
    rewrite split_issued_state in Hsplit by done.
    destruct (verifyStateSignature P _ _ secret); [done|]. done.
  - intros code env2 w2. apply handleOAuthCallback_refused. by rewrite Hsplit.
Qed.

End StateCodec.

(** X12.  The authorization code never reaches the token endpoint:
    [handleOAuthCallback] calls [exchangeCodeForTokens(env, code)] with the
    two arguments in the other order, so that the request it sends carries
    the environment as its code and no client credentials.  The outcome of
    the callback is the same for every code; and once the state has passed,
    a token endpoint that refuses this request makes the callback raise,
    with the state already consumed. *)
Theorem authorization_code_is_not_sent (code : string) (state env : val) (w : world Ext) :
  (∀ code' : string,
     handleOAuthCallback P (VStr code') state env w
     = handleOAuthCallback P (VStr code) state env w)
  ∧ (∀ (stateData : val) (w1 : world Ext) (r : response),
       verifyState P state env w = (Ok stateData, w1) →
       (fetch P (form_post P GOOGLE_TOKEN_URL [
                   ("code", tpl env);
                   ("client_id", "undefined");
                   ("client_secret", "undefined");
                   ("redirect_uri", "undefined/oauth/callback");
                   ("grant_type", "authorization_code") ]) (outside w1)).1 = inr r →
       response_ok r = false →
       ∃ w2 : world Ext,
         handleOAuthCallback P (VStr code) state env w
         = (Throw ("Token exchange failed: " +:+ body_text r), w2)
         ∧ EVENTS w2 = delete ("oauth_state:" +:+ tpl state) (EVENTS w)).
Proof.
  split; [reflexivity|].
  intros stateData w1 r Hverify Hfetch Hrefused.
  destruct (verifyState_passed _ _ _ _ _ Hverify) as [_ Hconsumed].
  unfold handleOAuthCallback. unfold bind at 1. rewrite Hverify.
  unfold exchangeCodeForTokens. mrun. rewrite do_fetch_run.
  change (tpl (field "GOOGLE_CLIENT_ID" (VStr code))) with "undefined".
  change (tpl (field "GOOGLE_CLIENT_SECRET" (VStr code))) with "undefined".
  change (tpl (field "WORKER_URL" (VStr code)) +:+ "/oauth/callback")
    with "undefined/oauth/callback".
  rewrite Hfetch, Hrefused. simpl.
  eexists. split; [reflexivity|]. exact Hconsumed.
Qed.

(* ------------------------------------------------------------------ *)
(** *** Exceptions inside a broadcast *)

(** X13.  An exception raised while the credential of one account is
    obtained (a transport error, or an answer of the token endpoint other
    than 400) does not leave the broadcast: the account is recorded as
    failed with reason "Exception" and the message, and the loop goes on
    with the remaining accounts.  In the delete broadcast a message that
    contains "404" or "410" is taken for an event already deleted: the
    account is recorded as succeeded. *)
Theorem credential_exception_is_isolated
    (env connection : val) (w w1 : world Ext) (e : string) :
  getValidAccessTokenForConnection P env connection w = (Throw e, w1) →
  (∀ (chatId botEventUid event : val) (rest : list val) (results : scoreboard),
     ∃ w' : world Ext,
       for_of (connection :: rest) (create_step P env chatId botEventUid event) results w
       = for_of rest (create_step P env chatId botEventUid event)
                (Scoreboard (successes results)
                   (failures results
                    ++ [object [("email", field "google_email" connection);
                                ("reason", VStr "Exception");
                                ("details", VStr e)]])
                   (totalAccounts results)) w')
  ∧ (∀ (chatId botEventUid updates mapping : val) (rest : list val)
       (results : scoreboard) (w0 : world Ext),
     getGoogleConnection P env chatId (field "google_sub" mapping) w0 = (Ok connection, w) →
     truthy connection = true →
     ∃ w' : world Ext,
       for_of (mapping :: rest) (update_step P env chatId botEventUid updates) results w0
       = for_of rest (update_step P env chatId botEventUid updates)
                (Scoreboard (successes results)
                   (failures results
                    ++ [object [("email", VStr ("(" +:+ tpl (field "google_sub" mapping)
                                                +:+ ")"));
                                ("reason", VStr "Exception");
                                ("details", VStr e)]])
                   (totalAccounts results)) w')
  ∧ (∀ (chatId botEventUid mapping : val) (rest : list val)
       (results : scoreboard) (w0 : world Ext),
     getGoogleConnection P env chatId (field "google_sub" mapping) w0 = (Ok connection, w) →
     truthy connection = true →
     ∃ w' : world Ext,
       for_of (mapping :: rest) (delete_step P env chatId botEventUid) results w0
       = for_of rest (delete_step P env chatId botEventUid)
                (if includes e "404" || includes e "410"
                 then Scoreboard
                        (successes results
                         ++ [object [("email", VStr ("(" +:+ tpl (field "google_sub" mapping)
                                                     +:+ ")"));
                                     ("note", VStr "Already deleted")]])
                        (failures results) (totalAccounts results)
                 else Scoreboard (successes results)
                        (failures results
                         ++ [object [("email", VStr ("(" +:+ tpl (field "google_sub" mapping)
                                                     +:+ ")"));
                                     ("reason", VStr "Exception");
                                     ("details", VStr e)]])
                        (totalAccounts results)) w').
Proof.
  intros Hget. split; [|split].
  - intros chatId botEventUid event rest results. eexists.
    rewrite for_of_cons. unfold create_step at 1. mrun. rewrite Hget. reflexivity.
  - intros chatId botEventUid updates mapping rest results w0 Hconn Htruthy.
    eexists. rewrite for_of_cons. unfold update_step at 1. mrun.
    rewrite Hconn, Htruthy.
    rewrite (getGoogleConnection_active _ _ _ _ _ _ Hconn Htruthy). simpl.
    rewrite Hget. reflexivity.
  - intros chatId botEventUid mapping rest results w0 Hconn Htruthy.
    rewrite for_of_cons. unfold delete_step at 1. mrun.
    rewrite Hconn, Htruthy.
    rewrite (getGoogleConnection_active _ _ _ _ _ _ Hconn Htruthy). simpl.
    rewrite Hget.
    destruct (includes e "404" || includes e "410").
    + destruct (deleteEventMapping_run env chatId botEventUid (field "google_sub" mapping)
                  (World (EVENTS w1) (outside w1)
                     (console w1 ++ ["Failed to delete event for mapping " +:+
                                     tpl (field "google_sub" mapping) +:+ ": " +:+ e])))
        as (w' & -> & _). by eexists.
    + by eexists.
Qed.

(** X14.  A mapping whose account has no usable connection any more (the
    record is absent or revoked, or its credential does not decrypt): the
    update broadcast records the account as failed, "Account disconnected",
    and writes nothing; the delete broadcast removes the mapping and
    records the account as succeeded, without any request to the calendar.
    Both go on with the remaining mappings. *)
Theorem disconnected_account_in_broadcast
    (env chatId botEventUid mapping : val) (w : world Ext) :
  EVENTS w !! gconn_key chatId (field "google_sub" mapping) ≫= connection_view P env = None →
  (∀ (updates : val) (rest : list val) (results : scoreboard),
     ∃ w' : world Ext,
       for_of (mapping :: rest) (update_step P env chatId botEventUid updates) results w
       = for_of rest (update_step P env chatId botEventUid updates)
                (Scoreboard (successes results)
                   (failures results
                    ++ [object [("email", VStr ("(disconnected: " +:+
                                                tpl (field "google_sub" mapping) +:+ ")"));
                                ("reason", VStr "Account disconnected");
                                ("details", VStr "Connection no longer active")]])
                   (totalAccounts results)) w'
       ∧ EVENTS w' = EVENTS w ∧ outside w' = outside w)
  ∧ (∀ (rest : list val) (results : scoreboard),
     truthy (field "google_sub" mapping) = true →
     ∃ w' : world Ext,
       for_of (mapping :: rest) (delete_step P env chatId botEventUid) results w
       = for_of rest (delete_step P env chatId botEventUid)
                (Scoreboard
                   (successes results
                    ++ [object [("email", VStr ("(disconnected: " +:+
                                                tpl (field "google_sub" mapping) +:+ ")"));
                                ("note", VStr "Mapping removed (account disconnected)")]])
                   (failures results) (totalAccounts results)) w'
       ∧ EVENTS w' = delete (emap_key chatId botEventUid (field "google_sub" mapping)) (EVENTS w)
       ∧ outside w' = outside w).
Proof.
  intros Hgone.
  destruct (getGoogleConnection_run env chatId (field "google_sub" mapping) w)
    as (lines & Hconn).
  rewrite Hgone in Hconn. simpl in Hconn.
  split.
  - intros updates rest results. eexists.
    rewrite for_of_cons. unfold update_step at 1. mrun. rewrite Hconn. simpl.
    split; [reflexivity|]. done.
  - intros rest results Hsub.
    rewrite for_of_cons. unfold delete_step at 1. mrun. rewrite Hconn. simpl.
    destruct (deleteEventMapping_run env chatId botEventUid (field "google_sub" mapping)
                (World (EVENTS w) (outside w) (console w ++ lines)))
      as (w' & -> & Hout & Hstore).
    eexists. split; [reflexivity|]. split; [by apply Hstore | done].
Qed.

(* ------------------------------------------------------------------ *)
(** *** A created event and its mapping *)

(** X15.  When the credential of an account is obtained and the calendar
    answers the create request with a 2xx response that carries an id and
    the start and end of the event, the create broadcast records the
    account as succeeded with that id and the link, and stores the mapping
    of the event for the account: [getEventMappings] of the event lists
    the account with that id right afterwards, the mappings of the event
    fitting the page of a listing. *)
Theorem created_event_is_mapped
    (env chatId botEventUid event conn accessToken body created eventId startTime endTime : val)
    (results : scoreboard) (w w1 : world Ext) (r : response) :
  getValidAccessTokenForConnection P env conn w = (Ok accessToken, w1) →
  truthy accessToken = true →
  convertToGoogleFormat event = Ok body →
  (fetch P (create_request P accessToken body) (outside w1)).1 = inr r →
  response_ok r = true →
  JSON_parse P (body_text r) = Ok created →
  prop "id" created = Ok eventId →
  prop "dateTime" (field "start" created) = Ok startTime →
  prop "dateTime" (field "end" created) = Ok endTime →
  ∃ (w' : world Ext) (o : gmap string val) (mappings : list val),
    create_step P env chatId botEventUid event conn results w
    = (Ok (Scoreboard
             (successes results
              ++ [object [("email", field "google_email" conn);
                          ("eventId", eventId);
                          ("link", field "htmlLink" created)]])
             (failures results) (totalAccounts results)), w')
    ∧ EVENTS w'
      = <[emap_key chatId botEventUid (field "google_sub" conn) := VObj o]> (EVENTS w1)
    ∧ getEventMappings env chatId botEventUid w' = (Ok mappings, w')
    ∧ (one_page (emap_uid_prefix chatId botEventUid) (EVENTS w') →
       object [("google_sub", jsonify (field "google_sub" conn));
               ("google_event_id", jsonify eventId)] ∈ mappings).
Proof.
  intros Hget Htoken Hbody Hfetch Hok Hparse Hid Hstart Hend.
  destruct (storeEventMapping_run env chatId botEventUid (field "google_sub" conn) eventId
              (World (EVENTS w1) (fetch P (create_request P accessToken body) (outside w1)).2
                     (console w1)))
    as (o & w' & Hstore & Hevents & Hsub & Hgid).
  simpl in Hevents.
  exists w', o,
         (mappings_view (EVENTS w')
            (kv_page (emap_uid_prefix chatId botEventUid) (EVENTS w'))).
  split.
  { unfold create_step, createEvent. mrun. rewrite Hget, Htoken. simpl.
    rewrite Hbody. rewrite do_fetch_run. fold (create_request P accessToken body).
    rewrite Hfetch, Hok. simpl. rewrite Hparse, Hid, Hstart, Hend. simpl.
    repeat first [rewrite lookup_insert_eq | rewrite lookup_insert_ne by done]. simpl.
    by rewrite Hstore. }
  split; [exact Hevents|]. split; [apply getEventMappings_run|].
  intros Hfit. simpl. apply elem_of_mappings_view.
  exists (emap_key chatId botEventUid (field "google_sub" conn)), (VObj o).
  split; [|split; [|split]].
  - apply (elem_of_kv_page_complete _ _ _ Hfit). split; [apply emap_key_prefix|].
    rewrite Hevents, lookup_insert_eq. by eexists.
  - by rewrite Hevents, lookup_insert_eq.
  - done.
  - unfold mapping_entry. by rewrite Hsub, Hgid.
Qed.

(* ------------------------------------------------------------------ *)
(** *** The permission to link a calendar *)

(** X16.  [canLinkCalendar] fails closed.  With a user id it can turn into
    a string it never raises and never writes the store, and it answers
    [allowed: true] in three cases only: the id is the configured
    [ADMIN_USER_ID] or the chat is private (both decided without any
    request), or Telegram answered the [getChatMember] request with a 2xx
    response whose [ok] is truthy and whose [result.status] is
    "administrator" or "creator".  A transport error, a non-2xx answer, a
    body that does not parse or any other status gives [allowed: false].
    With an [undefined] or [null] user id it raises before anything else. *)
Theorem canLinkCalendar_fails_closed (env chatId userId chatType : val) (w : world Ext) :
  match toString_of userId with
  | Throw e => canLinkCalendar P env chatId userId chatType w = (Throw e, w)
  | Ok user =>
      ∃ (allowed : bool) (reason : string) (w' : world Ext),
        canLinkCalendar P env chatId userId chatType w = (Ok (permission allowed reason), w')
        ∧ EVENTS w' = EVENTS w
        ∧ (strict_eq (VStr user) (field "ADMIN_USER_ID" env) = true
           ∨ chatType = VStr "private" →
           allowed = true ∧ w' = w)
        ∧ (allowed = true →
           (strict_eq (VStr user) (field "ADMIN_USER_ID" env) = true ∧ reason = "bot_admin")
           ∨ (chatType = VStr "private" ∧ reason = "private_chat")
           ∨ (reason = "telegram_admin"
              ∧ ∃ (r : response) (data : val),
                  (fetch P (getChatMember_request P env chatId userId) (outside w)).1 = inr r
                  ∧ response_ok r = true
                  ∧ JSON_parse P (body_text r) = Ok data
                  ∧ truthy (field "ok" data) = true
                  ∧ (field "status" (field "result" data) = VStr "administrator"
                     ∨ field "status" (field "result" data) = VStr "creator")))
        ∧ (allowed = false →
           reason = "api_error" ∨ reason = "not_admin" ∨ reason = "error")
  end.
Proof.
  unfold canLinkCalendar. mrun.
  destruct (toString_of userId) as [user|e]; [|done].
  destruct (strict_eq (VStr user) (field "ADMIN_USER_ID" env)) eqn:Hadmin.
  { exists true, "bot_admin", w. split; [done|]. split; [done|]. split; [done|].
    split; [by left | done]. }
  destruct (strict_eq chatType (VStr "private")) eqn:Hprivate.
  { apply strict_eq_VStr in Hprivate.
    exists true, "private_chat", w. split; [done|]. split; [done|]. split; [done|].
    split; [right; by left | done]. }
  assert (Hgroup : ¬ (false = true ∨ chatType = VStr "private")).
  { intros [?|Hp]; [done|]. apply strict_eq_VStr in Hp. congruence. }
  rewrite do_fetch_run.
  destruct ((fetch P (getChatMember_request P env chatId userId) (outside w)).1)
    as [msg|r] eqn:Hfetch; simpl.
  { exists false, "error". eexists. split; [reflexivity|]. split; [done|].
    split; [by intros ?; destruct Hgroup|]. split; [done | by right; right]. }
  destruct (response_ok r) eqn:Hok; simpl.
  2:{ exists false, "api_error". eexists. split; [reflexivity|]. split; [done|].
      split; [by intros ?; destruct Hgroup|]. split; [done | by left]. }
  destruct (JSON_parse P (body_text r)) as [data|e] eqn:Hparse; simpl.
  2:{ exists false, "error". eexists. split; [reflexivity|]. split; [done|].
      split; [by intros ?; destruct Hgroup|]. split; [done | by right; right]. }
  destruct (prop "ok" data) as [ok|e] eqn:Hprop; simpl.
  2:{ exists false, "error". eexists. split; [reflexivity|]. split; [done|].
      split; [by intros ?; destruct Hgroup|]. split; [done | by right; right]. }
  assert (Hfield : ok = field "ok" data) by (destruct data; simpl in *; congruence).
  destruct (truthy ok) eqn:Htruthy; simpl.
  2:{ exists false, "api_error". eexists. split; [reflexivity|]. split; [done|].
      split; [by intros ?; destruct Hgroup|]. split; [done | by left]. }
  destruct (strict_eq (field "status" (field "result" data)) (VStr "administrator"))
    eqn:Hadm; simpl.
  { apply strict_eq_VStr in Hadm.
    exists true, "telegram_admin". eexists. split; [reflexivity|]. split; [done|].
    split; [by intros ?; destruct Hgroup|]. split; [|done].
    intros _. right; right. split; [done|]. exists r, data.
    rewrite <- Hfield. repeat split; try done. by left. }
  destruct (strict_eq (field "status" (field "result" data)) (VStr "creator"))
    eqn:Hcre; simpl.
  { apply strict_eq_VStr in Hcre.
    exists true, "telegram_admin". eexists. split; [reflexivity|]. split; [done|].
    split; [by intros ?; destruct Hgroup|]. split; [|done].
    intros _. right; right. split; [done|]. exists r, data.
    rewrite <- Hfield. repeat split; try done. by right. }
  exists false, "not_admin". eexists. split; [reflexivity|]. split; [done|].
  split; [by intros ?; destruct Hgroup|]. split; [done | by right; left].
Qed.

(* ------------------------------------------------------------------ *)
(** *** The bot's outgoing message *)

(** X17.  [sendMessage] never raises and never writes the store, whatever
    Telegram answers and also when the request fails in transport; it
    sends exactly one request. *)
Theorem sendMessage_never_raises (env chatId text : val) (w : world Ext) :
  ∃ lines : list string,
    sendMessage P env chatId text w
    = (Ok tt, World (EVENTS w)
                    (fetch P (sendMessage_request P env chatId text) (outside w)).2
                    (console w ++ lines))
    ∧ lines = match (fetch P (sendMessage_request P env chatId text) (outside w)).1 with
              | inl msg => ["Failed to send message: " +:+ msg]
              | inr r => if response_ok r then []
                         else ["Telegram API error: " +:+ body_text r]
              end.
Proof.
  unfold sendMessage. mrun. rewrite do_fetch_run.
  destruct ((fetch P (sendMessage_request P env chatId text) (outside w)).1) as [msg|r];
    simpl.
  - by eexists.
  - destruct (response_ok r); simpl.
    + exists []. by rewrite app_nil_r.
    + by eexists.
Qed.

(* ------------------------------------------------------------------ *)
(** *** Event references *)

Lemma upper_unit_idem (c : ascii) : upper_unit (upper_unit c) = upper_unit c.
Proof. by destruct c as [[] [] [] [] [] [] [] []]. Qed.

Lemma hex_unit_upper (c : ascii) : hex_unit (upper_unit c) = hex_unit c.
Proof. by destruct c as [[] [] [] [] [] [] [] []]. Qed.

Lemma hyphen_upper (c : ascii) : Ascii.eqb (upper_unit c) "-" = Ascii.eqb c "-".
Proof. by destruct c as [[] [] [] [] [] [] [] []]. Qed.

Lemma toUpperCase_idem (s : string) : toUpperCase (toUpperCase s) = toUpperCase s.
Proof. induction s as [|c s IH]; [done|]. simpl. by rewrite upper_unit_idem, IH. Qed.

Lemma hex_run_upper (n : nat) (s : string) :
  hex_run n (toUpperCase s) = toUpperCase <$> hex_run n s.
Proof.
  revert s. induction n as [|n IH]; intros s; [done|].
  destruct s as [|c s]; [done|]. simpl. rewrite hex_unit_upper, IH.
  destruct (hex_unit c); [|done]. by destruct (hex_run n s).
Qed.

Lemma hex_run_idem (n : nat) (s h : string) : hex_run n s = Some h → hex_run n h = Some h.
Proof.
  revert s h. induction n as [|n IH]; intros s h; [by intros [= <-]|].
  destruct s as [|c s]; [done|]. simpl.
  destruct (hex_unit c) eqn:Hc; [|done].
  destruct (hex_run n s) as [h'|] eqn:Hrun; [|done].
  intros [= <-]. simpl. by rewrite Hc, (IH _ _ Hrun).
Qed.

Lemma evt_at_upper (s : string) : evt_at (toUpperCase s) = toUpperCase <$> evt_at s.
Proof.
  destruct s as [|e [|v [|t [|d rest]]]]; try done.
  unfold evt_at, letter_i. simpl toUpperCase. cbv iota.
  rewrite !upper_unit_idem, hyphen_upper, hex_run_upper.
  destruct (_ && _); [|done]. by destruct (hex_run 8 rest).
Qed.

Lemma evt_at_idem (s m : string) : evt_at s = Some m → evt_at m = Some m.
Proof.
  destruct s as [|e [|v [|t [|d rest]]]]; try done.
  unfold evt_at. destruct (_ && _) eqn:Hhead; [|done].
  destruct (hex_run 8 rest) as [h|] eqn:Hrun; [|done].
  intros [= <-]. by rewrite Hhead, (hex_run_idem _ _ _ Hrun).
Qed.

Lemma evt_exact_iff (s : string) : evt_exact s = true ↔ evt_at s = Some s.
Proof.
  unfold evt_exact. destruct (evt_at s) as [m|]; [|by split].
  rewrite String.eqb_eq. split; [by intros -> | by intros [= ->]].
Qed.

Lemma evt_search_cons (c : ascii) (s : string) :
  evt_search (String c s)
  = match evt_at (String c s) with Some m => Some m | None => evt_search s end.
Proof. reflexivity. Qed.

Lemma evt_search_match (s m : string) : evt_search s = Some m → evt_at m = Some m.
Proof.
  induction s as [|c s IH].
  - by intros ?.
  - rewrite evt_search_cons. destruct (evt_at (String c s)) as [m'|] eqn:Hat.
    + intros [= <-]. by eapply evt_at_idem.
    + apply IH.
Qed.

Lemma evt_search_exact (s : string) : evt_at s = Some s → evt_search s = Some s.
Proof.
  intros Hat. destruct s as [|c s]; [done|]. by rewrite evt_search_cons, Hat.
Qed.

Lemma evt_search_none (s : string) :
  evt_search s = None → ∀ a b : string, s = a +:+ b → evt_at b = None.
Proof.
  induction s as [|c s IH]; intros Hnone a b Hab.
  - destruct a; [|done]. destruct b; [done | done].
  - rewrite evt_search_cons in Hnone.
    destruct (evt_at (String c s)) as [m|] eqn:Hat; [done|].
    destruct a as [|x a].
    + change (EmptyString +:+ b) with b in Hab. by subst b.
    + change (String x a +:+ b) with (String x (a +:+ b)) in Hab.
      injection Hab as _ Hab. by apply (IH Hnone a b).
Qed.

(** X18.  What [extractEventUID] finds is a valid reference in upper
    case: the leftmost match of the pattern in the text, upper-cased, which
    [isValidEventUID] accepts and which [extractEventUID] maps to itself.
    It returns [null] only for a text without any match, and it raises only
    for an argument that is not a string. *)
Theorem extracted_reference_is_valid (text : val) :
  match extractEventUID text with
  | Ok (VStr u) =>
      isValidEventUID (VStr u) = true
      ∧ toUpperCase u = u
      ∧ extractEventUID (VStr u) = Ok (VStr u)
      ∧ ∃ s m, text = VStr s ∧ evt_search s = Some m ∧ u = toUpperCase m
  | Ok v =>
      v = VNull
      ∧ ∃ s, text = VStr s ∧ ∀ a b : string, s = a +:+ b → evt_at b = None
  | Throw _ => ∀ s : string, text ≠ VStr s
  end.
Proof.
  destruct text as [| |b|n| |s|o]; simpl; try done.
  destruct (evt_search s) as [m|] eqn:Hsearch.
  - assert (Hm := evt_search_match _ _ Hsearch).
    assert (Hupper : evt_at (toUpperCase m) = Some (toUpperCase m))
      by (by rewrite evt_at_upper, Hm).
    split; [by apply evt_exact_iff|]. split; [apply toUpperCase_idem|]. split.
    + rewrite (evt_search_exact _ Hupper). by rewrite toUpperCase_idem.
    + by exists s, m.
  - split; [done|]. exists s. split; [done|]. by apply evt_search_none.
Qed.

Lemma toUpperCase_length (s : string) : String.length (toUpperCase s) = String.length s.
Proof. induction s as [|c s IH]; [done|]. simpl. by rewrite IH. Qed.

Lemma prefix_app_same (a x y : string) :
  String.prefix (a +:+ x) (a +:+ y) = String.prefix x y.
Proof.
  induction a as [|c a IH]; [done|].
  change (String c a +:+ x) with (String c (a +:+ x)).
  change (String c a +:+ y) with (String c (a +:+ y)). simpl.
  destruct (ascii_dec c c); [apply IH | congruence].
Qed.

Lemma prefix_same_length (a b x y : string) :
  String.length a = String.length b →
  String.prefix (a +:+ x) (b +:+ y) = true → a = b.
Proof.
  revert b. induction a as [|c a IH]; intros b Hlen Hp.
  - by destruct b.
  - destruct b as [|d b]; [done|].
    change (String c a +:+ x) with (String c (a +:+ x)) in Hp.
    change (String d b +:+ y) with (String d (b +:+ y)) in Hp.
    simpl in Hp. destruct (ascii_dec c d) as [->|]; [|done].
    f_equal. apply IH; [by injection Hlen | done].
Qed.

(** A mapping stored under one reference is not listed under another
    reference of the same length *)
Lemma emap_key_other_reference (chatId googleSub : val) (u u' : string) :
  String.length u' = String.length u → u' ≠ u →
  String.prefix (emap_uid_prefix chatId (VStr u')) (emap_key chatId (VStr u) googleSub) = false.
Proof.
  intros Hlen Hne. unfold emap_uid_prefix, emap_key. simpl tpl.
  rewrite !prefix_app_same.
  destruct (String.prefix (u' +:+ ":") (u +:+ ":" +:+ tpl googleSub)) eqn:Hp; [|done].
  by apply prefix_same_length in Hp.
Qed.

(** X19.  An event referred to in the text of a message is looked up under
    the upper-case form of the reference, while its mappings are stored
    under the reference as it was generated.  When the two differ (the
    reference has a letter [a] to [f]), [resolveEventUID] returns a
    reference under which the stored mapping is not listed, and the update
    and the delete broadcast for it raise "Event not found or already
    deleted". *)
Theorem upper_cased_reference_misses_mappings
    (env chatId userId googleSub googleEventId updates : val) (text u : string)
    (w : world Ext) :
  evt_search text = Some u →
  toUpperCase u ≠ u →
  (∀ k : string,
     String.prefix (emap_uid_prefix chatId (VStr (toUpperCase u))) k = true →
     EVENTS w !! k = None) →
  ∃ w1 : world Ext,
    storeEventMapping P env chatId (VStr u) googleSub googleEventId w = (Ok tt, w1)
    ∧ resolveEventUID env chatId userId (VStr text) w1 = (Ok (VStr (toUpperCase u)), w1)
    ∧ getEventMappings env chatId (VStr (toUpperCase u)) w1 = (Ok [], w1)
    ∧ broadcastUpdateEvent P env chatId (VStr (toUpperCase u)) updates w1
      = (Throw "Event not found or already deleted", w1)
    ∧ broadcastDeleteEvent P env chatId (VStr (toUpperCase u)) w1
      = (Throw "Event not found or already deleted", w1).
Proof.
  intros Hsearch Hcase Hfree.
  destruct (storeEventMapping_run env chatId (VStr u) googleSub googleEventId w)
    as (o & w1 & Hrun & Hstore & _).
  exists w1. split; [exact Hrun|].
  assert (Hvalid : evt_at (toUpperCase u) = Some (toUpperCase u)).
  { rewrite evt_at_upper. by rewrite (evt_search_match _ _ Hsearch). }
  assert (Hnone : getEventMappings env chatId (VStr (toUpperCase u)) w1 = (Ok [], w1)).
  { rewrite getEventMappings_run. f_equal. f_equal.
    replace (kv_page (emap_uid_prefix chatId (VStr (toUpperCase u))) (EVENTS w1))
      with ([] : list string); [done|].
    symmetry. apply elem_of_nil_inv. intros k [Hp [d Hd]]%elem_of_kv_page.
    rewrite Hstore in Hd.
    destruct (decide (k = emap_key chatId (VStr u) googleSub)) as [->|Hne].
    - rewrite emap_key_other_reference in Hp; [done | apply toUpperCase_length | done].
    - rewrite lookup_insert_ne in Hd by done. by rewrite (Hfree k Hp) in Hd. }
  split.
  { assert (Htext : truthy (VStr text) = true)
      by (destruct text; [discriminate Hsearch | done]).
    assert (Hupper : truthy (VStr (toUpperCase u)) = true)
      by (destruct u; [by apply evt_search_match in Hsearch | done]).
    unfold resolveEventUID. rewrite Htext. mrun. unfold extractEventUID.
    rewrite Hsearch. cbv iota beta. rewrite Hupper.
    change (isValidEventUID (VStr (toUpperCase u))) with (evt_exact (toUpperCase u)).
    by rewrite (proj2 (evt_exact_iff _) Hvalid). }
  split; [exact Hnone|]. split.
  - unfold broadcastUpdateEvent. unfold bind. by rewrite Hnone.
  - unfold broadcastDeleteEvent. unfold bind. by rewrite Hnone.
Qed.

(** X20.  When the first segment of the UUID the runtime draws is eight
    hexadecimal digits, [generateEventUID] returns a reference that
    [isValidEventUID] accepts, and [extractEventUID] reads that reference
    back in upper case. *)
Theorem generated_reference_is_valid (w : world Ext) (h : string) (rest : list string) :
  split "-" (randomUUID P (outside w)).1 = h :: rest →
  hex_run 8 h = Some h →
  generateEventUID P w
  = (Ok ("EVT-" +:+ h), World (EVENTS w) (randomUUID P (outside w)).2 (console w))
  ∧ isValidEventUID (VStr ("EVT-" +:+ h)) = true
  ∧ extractEventUID (VStr ("EVT-" +:+ h)) = Ok (VStr ("EVT-" +:+ toUpperCase h)).
Proof.
  intros Hsplit Hhex.
  assert (Hat : evt_at ("EVT-" +:+ h) = Some ("EVT-" +:+ h)).
  { cbv [String.append]. unfold evt_at. simpl andb. cbv iota. by rewrite Hhex. }
  split; [|split].
  - unfold generateEventUID, random_uuid. mrun.
    destruct (randomUUID P (outside w)) as [uuid e]. simpl in *. by rewrite Hsplit.
  - by apply evt_exact_iff.
  - unfold extractEventUID. by rewrite (evt_search_exact _ Hat).
Qed.

(* ------------------------------------------------------------------ *)
(** *** The selected event of a user *)

(** X21.  [setSelectedEvent] stores [{ eventId, event, createdAt }] under
    the key of the chat and the user, and [getSelectedEvent] reads that
    record back; the record has no [bot_event_uid] of its own, so that
    [resolveEventUID], given a text without a reference (or no text), finds
    nothing to fall back on and returns [null]; after [clearSelectedEvent]
    the selection reads [null]. *)
Theorem selected_event_gives_no_reference
    (env chatId userId eventId event : val) (w : world Ext) :
  ∃ (o : gmap string val) (w1 w2 : world Ext),
    setSelectedEvent P env chatId userId eventId event w = (Ok tt, w1)
    ∧ EVENTS w1 = <[selected_event_key chatId userId := VObj o]> (EVENTS w)
    ∧ o !! "eventId" = json_field eventId
    ∧ o !! "event" = json_field event
    ∧ o !! "bot_event_uid" = None
    ∧ (getSelectedEvent env chatId userId w1).1 = Ok (VObj o)
    ∧ (∀ input : val,
         truthy input = false ∨ (∃ s, input = VStr s ∧ evt_search s = None) →
         (resolveEventUID env chatId userId input w1).1 = Ok VNull)
    ∧ clearSelectedEvent env chatId userId w1 = (Ok tt, w2)
    ∧ (getSelectedEvent env chatId userId w2).1 = Ok VNull.
Proof.
  unfold setSelectedEvent, clearSelectedEvent. mrun. rewrite now_iso_run. simpl.
  eexists _, _, _. split; [reflexivity|]. simpl. split; [reflexivity|].
  set (o := omap _ _).
  assert (Huid : o !! "bot_event_uid" = None).
  { unfold o. rewrite lookup_omap. simpl. by rewrite !lookup_insert_ne, lookup_empty. }
  split.
  { unfold o. rewrite lookup_omap. simpl. rewrite lookup_insert_eq. by destruct eventId. }
  split.
  { unfold o. rewrite lookup_omap. simpl. rewrite lookup_insert_ne by done.
    rewrite lookup_insert_eq. by destruct event. }
  split; [exact Huid|]. split.
  { by rewrite lookup_insert_eq. }
  split.
  { intros input Hinput.
    assert (Hfallback :
      (bind (getSelectedEvent env chatId userId)
            (λ selected, if truthy selected && truthy (field "bot_event_uid" selected)
                         then ret (field "bot_event_uid" selected) else ret VNull)
            (World (<[selected_event_key chatId userId := VObj o]> (EVENTS w))
                   (Date_now P (outside w)).2
                   (console w ++ ["Stored selected event for chat " +:+ tpl chatId +:+
                                  ", user " +:+ tpl userId +:+ ": " +:+ tpl eventId]))).1
      = Ok VNull).
    { unfold getSelectedEvent. mrun. simpl. rewrite lookup_insert_eq. simpl.
      by rewrite Huid. }
    unfold resolveEventUID. destruct Hinput as [Hfalsy|(s & -> & Hnone)].
    - rewrite Hfalsy. exact Hfallback.
    - destruct (truthy (VStr s)); [|exact Hfallback].
      unfold bind at 1, lift at 1. unfold extractEventUID. rewrite Hnone. cbv iota beta.
      simpl truthy. cbv iota. exact Hfallback. }
  split; [reflexivity|].
  unfold getSelectedEvent. mrun. simpl. by rewrite lookup_delete_eq.
Qed.

(* ------------------------------------------------------------------ *)
(** *** Legacy token records *)

(** X22.  The legacy record of a chat: [storeChatTokens] writes it under
    [gc_tokens:chat:<chat>] and nowhere else, and from then on
    [getChatTokens] returns that record, without listing the connections
    of the chat, whatever they are.  With [null] tokens
    [storeChatTokens] raises and writes nothing. *)
Theorem legacy_chat_tokens_take_precedence
    (env chatId tokens linkedBy : val) (w : world Ext) :
  match prop "access_token" tokens with
  | Throw e => storeChatTokens P env chatId tokens linkedBy w = (Throw e, w)
  | Ok access_token =>
      ∃ (o : gmap string val) (w1 : world Ext),
        storeChatTokens P env chatId tokens linkedBy w = (Ok tt, w1)
        ∧ EVENTS w1 = <[gc_tokens_key chatId := VObj o]> (EVENTS w)
        ∧ o !! "access_token" = json_field access_token
        ∧ o !! "refresh_token" = json_field (field "refresh_token" tokens)
        ∧ o !! "expires_at" = json_field (field "expires_at" tokens)
        ∧ o !! "linkedBy" = json_field linkedBy
        ∧ getChatTokens P env chatId w1
          = (Ok (VObj o),
             World (EVENTS w1) (outside w1)
                   (console w1 ++ ["Retrieved legacy OAuth tokens for chat " +:+ tpl chatId
                                   +:+ " (" +:+ tpl (field "email" (VObj o)) +:+ ")"]))
  end.
Proof.
  unfold storeChatTokens. mrun.
  destruct (prop "access_token" tokens) as [access_token|e]; [|done].
  rewrite now_iso_run. simpl.
  eexists _, _. split; [reflexivity|]. simpl. split; [reflexivity|].
  split.
  { rewrite lookup_omap. simpl. rewrite lookup_insert_eq. by destruct access_token. }
  split.
  { rewrite lookup_omap. simpl. rewrite lookup_insert_ne by done.
    rewrite lookup_insert_eq. by destruct (field "refresh_token" tokens). }
  split.
  { rewrite lookup_omap. simpl. rewrite !lookup_insert_ne by done.
    rewrite lookup_insert_eq. by destruct (field "expires_at" tokens). }
  split.
  { rewrite lookup_omap. simpl. rewrite !lookup_insert_ne by done.
    rewrite lookup_insert_eq. by destruct linkedBy. }
  unfold getChatTokens. mrun. simpl. by rewrite lookup_insert_eq.
Qed.

(** X23.  The token record of a user: [getUserTokens] returns what
    [storeUserTokens] stored, with the expiry computed as the time of the
    call plus [expires_in] seconds; after [deleteUserTokens] it returns
    [null]; and neither the store nor the delete writes another key. *)
Theorem user_tokens_roundtrip (env userId tokens access_token : val) (w : world Ext) :
  prop "access_token" tokens = Ok access_token →
  ∃ (o : gmap string val) (w1 w2 : world Ext),
    storeUserTokens P env userId tokens w = (Ok tt, w1)
    ∧ EVENTS w1 = <[oauth_key userId := VObj o]> (EVENTS w)
    ∧ o !! "access_token" = json_field access_token
    ∧ o !! "refresh_token" = json_field (field "refresh_token" tokens)
    ∧ o !! "expires_at"
      = json_field (num_add P (VNum (Date_now P (outside w)).1)
                            (js_mul P (field "expires_in" tokens) (VNum 1000)))
    ∧ (getUserTokens env userId w1).1 = Ok (VObj o)
    ∧ deleteUserTokens env userId w1 = (Ok tt, w2)
    ∧ EVENTS w2 = delete (oauth_key userId) (EVENTS w)
    ∧ (getUserTokens env userId w2).1 = Ok VNull.
Proof.
  intros Htoken. unfold storeUserTokens, deleteUserTokens. mrun. rewrite Htoken.
  rewrite date_now_run. simpl. rewrite now_iso_run. simpl.
  eexists _, _, _. split; [reflexivity|]. simpl. split; [reflexivity|].
  split.
  { rewrite lookup_omap. simpl. rewrite lookup_insert_eq. by destruct access_token. }
  split.
  { rewrite lookup_omap. simpl. rewrite lookup_insert_ne by done.
    rewrite lookup_insert_eq. by destruct (field "refresh_token" tokens). }
  split.
  { rewrite lookup_omap. simpl. rewrite !lookup_insert_ne by done.
    rewrite lookup_insert_eq. by destruct (num_add P _ _). }
  split.
  { unfold getUserTokens. mrun. simpl. by rewrite lookup_insert_eq. }
  split; [reflexivity|]. split.
  { apply delete_insert_eq. }
  unfold getUserTokens. mrun. simpl. by rewrite lookup_delete_eq.
Qed.

(* ------------------------------------------------------------------ *)
(** *** The records of one chat and those of another *)

Lemma split_cons_inv (c : ascii) (s : string) :
  split ":" (String c s) = [String c s] → c ≠ ":"%char ∧ split ":" s = [s].
Proof.
  simpl. destruct (Ascii.eqb_spec c ":") as [->|Hc]; [intros [= Hd _]; discriminate Hd|].
  destruct (split ":" s) as [|h [|h' r]] eqn:Hs; [| | intros [= _ Hd]; discriminate Hd].
  - intros [= <-]. discriminate Hs.
  - by intros [= ->].
Qed.

Lemma split_cons_free (c : ascii) (s : string) :
  c ≠ ":"%char → split ":" s = [s] → split ":" (String c s) = [String c s].
Proof.
  intros Hc Hs. simpl. destruct (Ascii.eqb_spec c ":") as [->|_]; [done|]. by rewrite Hs.
Qed.

Lemma pretty_N_go_colon_free (x : N) (s : string) :
  split ":" s = [s] → split ":" (pretty_N_go x s) = [pretty_N_go x s].
Proof.
  revert s. induction (N.lt_wf_0 x) as [x _ IH]; intros s Hs.
  assert (x = 0 ∨ 0 < x)%N as [->|?] by lia.
  - by rewrite pretty_N_go_0.
  - rewrite pretty_N_go_step by done. apply IH.
    { by apply N.div_lt. }
    apply split_cons_free; [|done].
    unfold pretty_N_char. by repeat case_match.
Qed.

Lemma pretty_N_colon_free (x : N) : split ":" (pretty x) = [pretty x].
Proof.
  unfold pretty, pretty_N. case_decide; [done|]. by apply pretty_N_go_colon_free.
Qed.

Lemma pretty_Z_colon_free (z : Z) : split ":" (pretty z) = [pretty z].
Proof.
  destruct z as [|p|p]; [done | apply pretty_N_colon_free|].
  unfold pretty, pretty_Z.
  change ("-" +:+ pretty p) with (String "-" (pretty p)).
  apply split_cons_free; [done | apply pretty_N_colon_free].
Qed.

Lemma prefix_cons (c d : ascii) (a b : string) :
  String.prefix (String c a) (String d b)
  = if ascii_dec c d then String.prefix a b else false.
Proof. reflexivity. Qed.

Lemma append_empty_r (s : string) : s +:+ EmptyString = s.
Proof.
  induction s as [|c s IH]; [done|].
  change (String c s +:+ EmptyString) with (String c (s +:+ EmptyString)). by rewrite IH.
Qed.

(** Two numerals followed by a colon are not both at the start of a text *)
Lemma numeral_prefix_unique (x y k : string) :
  split ":" x = [x] → split ":" y = [y] → x ≠ y →
  String.prefix (x +:+ ":") k = true → String.prefix (y +:+ ":") k = false.
Proof.
  revert y k. induction x as [|cx x IH]; intros y k Hx Hy Hne Ha.
  - destruct y as [|cy y]; [done|]. apply split_cons_inv in Hy as [Hcy _].
    destruct k as [|ck k]; [done|].
    change (EmptyString +:+ ":") with (String ":" EmptyString) in Ha.
    change (String cy y +:+ ":") with (String cy (y +:+ ":")).
    rewrite prefix_cons in Ha. rewrite prefix_cons.
    destruct (ascii_dec ":" ck) as [<-|]; [|done].
    by destruct (ascii_dec cy ":") as [->|].
  - apply split_cons_inv in Hx as [Hcx Hx].
    destruct k as [|ck k]; [done|].
    change (String cx x +:+ ":") with (String cx (x +:+ ":")) in Ha.
    rewrite prefix_cons in Ha. destruct (ascii_dec cx ck) as [<-|]; [|done].
    destruct y as [|cy y].
    + change (EmptyString +:+ ":") with (String ":" EmptyString).
      rewrite prefix_cons. by destruct (ascii_dec ":" cx) as [<-|].
    + apply split_cons_inv in Hy as [_ Hy].
      change (String cy y +:+ ":") with (String cy (y +:+ ":")).
      rewrite prefix_cons. destruct (ascii_dec cy cx) as [->|]; [|done].
      apply (IH y k); [done | done | congruence | done].
Qed.

(** A key under a prefix of chat [a] is under no prefix of chat [b] *)
Lemma other_chat_prefix (tag r k : string) (a b : Z) :
  a ≠ b →
  String.prefix (tag +:+ pretty a +:+ ":" +:+ r) k = true →
  String.prefix (tag +:+ pretty b +:+ ":") k = false.
Proof.
  intros Hab Hk.
  assert (Ha : String.prefix (tag +:+ pretty a +:+ ":") k = true).
  { apply (prefix_app_l _ r). by rewrite !append_assoc. }
  clear Hk. revert k Ha. induction tag as [|c tag IH]; intros k Ha.
  - apply (numeral_prefix_unique (pretty a));
      [apply pretty_Z_colon_free .. | by intros ?%(inj pretty) | done].
  - destruct k as [|ck k]; [done|].
    change (String c tag +:+ pretty a +:+ ":")
      with (String c (tag +:+ pretty a +:+ ":")) in Ha.
    change (String c tag +:+ pretty b +:+ ":") with (String c (tag +:+ pretty b +:+ ":")).
    rewrite prefix_cons in Ha. rewrite prefix_cons.
    destruct (ascii_dec c ck); [by apply IH | done].
Qed.

Lemma connection_key_is_no_mapping_key (k : string) :
  String.prefix "gconn:" k = true → String.prefix "emap:" k = true → False.
Proof.
  destruct k as [|c k]; [done|]. rewrite !prefix_cons.
  destruct (ascii_dec "g" c) as [<-|]; [|done]. done.
Qed.


Lemma getWorkspaceConnections_frame (env chatId : val) (w w' : world Ext) :
  (∀ k, String.prefix (gconn_prefix chatId) k = true → EVENTS w' !! k = EVENTS w !! k) →
  (getWorkspaceConnections P env chatId w').1 = (getWorkspaceConnections P env chatId w).1.
Proof.
  intros Hsame. rewrite !getWorkspaceConnections_list. f_equal.
  rewrite (kv_page_frame _ _ _ Hsame).
  apply omap_ext_in. intros k [Hp _]%elem_of_kv_page. by rewrite Hsame.
Qed.

Lemma getEventMappings_frame (env chatId botEventUid : val) (w w' : world Ext) :
  (∀ k, String.prefix (emap_uid_prefix chatId botEventUid) k = true →
        EVENTS w' !! k = EVENTS w !! k) →
  (getEventMappings env chatId botEventUid w').1
  = (getEventMappings env chatId botEventUid w).1.
Proof.
  intros Hsame. rewrite !getEventMappings_run. simpl. f_equal.
  rewrite (kv_page_frame _ _ _ Hsame). unfold mappings_view.
  apply omap_ext_in. intros k [Hp _]%elem_of_kv_page. by rewrite Hsame.
Qed.

Lemma touches_for_of_in {A S} (K : string → Prop) (xs : list A) (body : A → S → M S) (s : S) :
  (∀ x s', x ∈ xs → touches_only K (body x s')) → touches_only K (for_of xs body s).
Proof.
  revert s. induction xs as [|x xs IH]; intros s Hbody; [apply touches_ret|].
  simpl. apply touches_bind.
  - apply Hbody, list_elem_of_here.
  - intros s'. apply IH. intros y s'' Hy. apply Hbody. by apply list_elem_of_further.
Qed.

Lemma touches_deleteEventMappingsForAccount (K : string → Prop) (env chatId googleSub : val) :
  (∀ k, String.prefix (emap_prefix chatId) k = true → K k) →
  touches_only K (deleteEventMappingsForAccount env chatId googleSub : M unit).
Proof.
  intros HK w k Hk. unfold deleteEventMappingsForAccount.
  unfold bind at 1, kv_list at 1.
  assert (Hloop : touches_only K
            (for_of (kv_page (emap_prefix chatId) (EVENTS w))
                    (cascade_step googleSub) O : M nat)).
  { apply touches_for_of_in. intros name n [Hp _]%elem_of_kv_page.
    unfold cascade_step. specialize (HK name Hp). auto 20 with touches. }
  specialize (Hloop w k Hk). unfold bind.
  destruct (for_of _ _ _ w) as [[n|e] w1]; simpl in *; done.
Qed.

Lemma touches_revokeGoogleConnection (K : string → Prop) (env chatId googleSub : val) :
  K (gconn_key chatId googleSub) →
  touches_only K (revokeGoogleConnection P env chatId googleSub).
Proof. intros HK. unfold revokeGoogleConnection. cbv zeta. auto 30 with touches. Qed.

(** X24.  Chats with different numeric ids do not see each other's
    records.  What is stored, revoked, refreshed or deleted for a chat
    writes keys of that chat only; and a computation that writes keys of
    chat [b] only leaves [getWorkspaceConnections] and [getEventMappings]
    of every other chat [a] as they were. *)
Theorem chats_are_isolated (a b : Z) (env : val) :
  a ≠ b →
  let own := λ k, String.prefix (gconn_prefix (VNum b)) k = true
                  ∨ String.prefix (emap_prefix (VNum b)) k = true in
  (∀ googleSub googleEmail refreshToken scopes connectedByUserId,
     touches_only own (storeGoogleConnection P env (VNum b) googleSub googleEmail
                                             refreshToken scopes connectedByUserId))
  ∧ (∀ googleSub, touches_only own (revokeGoogleConnection P env (VNum b) googleSub))
  ∧ (∀ googleSub accessToken expiresAt,
       touches_only own (updateConnectionAccessToken P env (VNum b) googleSub
                                                     accessToken expiresAt))
  ∧ (∀ botEventUid googleSub googleEventId,
       touches_only own (storeEventMapping P env (VNum b) botEventUid googleSub
                                           googleEventId))
  ∧ (∀ botEventUid googleSub,
       touches_only own (deleteEventMapping env (VNum b) botEventUid googleSub : M unit))
  ∧ (∀ googleSub,
       touches_only own (deleteEventMappingsForAccount env (VNum b) googleSub : M unit))
  ∧ (∀ (A : Type) (m : M A) (w : world Ext),
       touches_only own m →
       (getWorkspaceConnections P env (VNum a) (m w).2).1
       = (getWorkspaceConnections P env (VNum a) w).1
       ∧ ∀ botEventUid : val,
           (getEventMappings env (VNum a) botEventUid (m w).2).1
           = (getEventMappings env (VNum a) botEventUid w).1).
Proof.
  intros Hab own.
  assert (Hkey : ∀ googleSub, own (gconn_key (VNum b) googleSub)).
  { intros googleSub. left.
    unfold gconn_key, gconn_prefix. rewrite <- !append_assoc. apply prefix_refl_app. }
  split; [intros; apply touches_storeGoogleConnection, Hkey|].
  split; [intros; apply touches_revokeGoogleConnection, Hkey|].
  split; [intros; apply touches_updateConnectionAccessToken, Hkey|].
  split.
  { intros u s g. apply touches_storeEventMapping. right.
    apply (emap_uid_prefix_workspace (VNum b) u), emap_key_prefix. }
  split.
  { intros u s. apply touches_deleteEventMapping. intros k Hk. right.
    by apply (emap_uid_prefix_workspace (VNum b) u). }
  split.
  { intros s. apply touches_deleteEventMappingsForAccount. intros k Hk. by right. }
  intros A m w Hframe. split.
  - apply getWorkspaceConnections_frame. intros k Hk. apply Hframe.
    unfold own, gconn_prefix, emap_prefix in *. simpl tpl in *. intros [Hg|He].
    + rewrite <- (append_empty_r ":") in Hk at 1.
      by rewrite (other_chat_prefix "gconn:" EmptyString k a b Hab Hk) in Hg.
    + apply (connection_key_is_no_mapping_key k).
      * by apply (prefix_app_l _ _ _ Hk).
      * by apply (prefix_app_l _ _ _ He).
  - intros botEventUid. apply getEventMappings_frame. intros k Hk. apply Hframe.
    unfold own, gconn_prefix, emap_prefix, emap_uid_prefix in *. simpl tpl in *.
    intros [Hg|He].
    + apply (connection_key_is_no_mapping_key k).
      * by apply (prefix_app_l _ _ _ Hg).
      * by apply (prefix_app_l _ _ _ Hk).
    + by rewrite (other_chat_prefix "emap:" (tpl botEventUid +:+ ":") k a b Hab Hk) in He.
Qed.

End WorkerFacts.

(* ================================================================== *)
(** ** Concrete runs on the small platform *)
(* ================================================================== *)

Lemma toy_codec_lossless (serve : request → string + response) (s : string) :
  TextDecoder_decode (Toy.platform serve) (TextEncoder_encode (Toy.platform serve) s) = s.
Proof. apply string_of_list_byte_of_string. Qed.

Lemma toy_cipher_correct (key iv plaintext ciphertext : list byte) :
  Toy.encrypt key iv plaintext = Ok ciphertext →
  Toy.decrypt key iv ciphertext = Ok plaintext.
Proof.
  unfold Toy.encrypt, Toy.decrypt. intros Henc.
  assert (ciphertext = Toy.seal key iv ++ plaintext) as -> by congruence.
  rewrite take_app_length, drop_app_length. by rewrite decide_True.
Qed.

Lemma toy_cipher_authentic (key iv ciphertext plaintext : list byte) :
  Toy.decrypt key iv ciphertext = Ok plaintext →
  Toy.encrypt key iv plaintext = Ok ciphertext.
Proof.
  unfold Toy.encrypt, Toy.decrypt. case_decide as Hseal; [|done].
  intros Hdec. assert (plaintext = drop (length (Toy.seal key iv)) ciphertext) as ->
    by congruence.
  f_equal. rewrite <- Hseal at 1. apply take_drop.
Qed.

Lemma toy_key_length_byte (key key' : list byte) :
  aes_key_length (length key) = true →
  aes_key_length (length key') = true →
  default x00 (Byte.of_nat (length key)) = default x00 (Byte.of_nat (length key')) →
  length key = length key'.
Proof.
  unfold aes_key_length. intros Hk Hk'.
  repeat (apply orb_true_iff in Hk as [Hk|Hk]);
    repeat (apply orb_true_iff in Hk' as [Hk'|Hk']);
    apply Nat.eqb_eq in Hk, Hk'; rewrite Hk, Hk'; vm_compute; congruence.
Qed.

Lemma toy_cipher_binds_key (key key' iv iv' plaintext plaintext' ciphertext : list byte) :
  aes_key_length (length key) = true →
  aes_key_length (length key') = true →
  Toy.encrypt key iv plaintext = Ok ciphertext →
  Toy.encrypt key' iv' plaintext' = Ok ciphertext →
  key = key'.
Proof.
  unfold Toy.encrypt, Toy.seal. intros Hk Hk' Henc Henc'.
  rewrite <- Henc' in Henc. simpl in Henc. injection Henc as Hbyte Hrest.
  pose proof (toy_key_length_byte key key' Hk Hk' Hbyte) as Hlen.
  rewrite <- !app_assoc in Hrest.
  by apply app_inj_1 in Hrest as [? _].
Qed.

(** The string operations on small inputs *)
Example split_state :
  split ":" "42:7:private:7a3f9c21-0000:30ab" = ["42"; "7"; "private"; "7a3f9c21-0000"; "30ab"].
Proof. reflexivity. Qed.

Example split_without_separator : split ":" "pending" = ["pending"].
Proof. reflexivity. Qed.

Example includes_status :
  includes "Calendar API error: {code: 404}" "404" = true
  ∧ includes "Calendar API error: Not Found" "404" = false.
Proof. split; reflexivity. Qed.

Example toLowerCase_email : toLowerCase "Alice@Example.COM" = "alice@example.com".
Proof. reflexivity. Qed.

Example hex_bytes : hex [x00; x0f; xa5; xff] = "000fa5ff".
Proof. reflexivity. Qed.

Example template_of_numbers : tpl (VNum (-1001234567890)) = "-1001234567890".
Proof. vm_compute. reflexivity. Qed.

(** Linking Alice's account in an empty store writes the record of
    [Toy.linked]: nothing cached. *)
Example linking_stores_no_access_credential :
  EVENTS (storeGoogleConnection (Toy.platform (Toy.always 200 "ok")) Toy.env
            Toy.chat Toy.alice (VStr "Alice@Example.com") (VStr "1//refresh-alice")
            (VStr "https://www.googleapis.com/auth/calendar.events") (VNum 7)
            (World ∅ 1000 [])).2
  = EVENTS Toy.linked.
Proof. vm_compute. reflexivity. Qed.

(** With Alice's record intact and Bob's tampered with, the listing
    returns Alice's connection, and the console has a line for Bob. *)
Example tampered_record_is_left_out :
  getWorkspaceConnections (Toy.platform (Toy.always 200 "ok")) Toy.env Toy.chat
                          Toy.two_accounts
  = (Ok [Toy.alice_connection []],
     World (EVENTS Toy.two_accounts) 1000
           ["Failed to decrypt token for gconn:42:sub-bob: OperationError";
            "Found 1 active connections for chat 42"]).
Proof. vm_compute. reflexivity. Qed.

(** A freshly linked account, whatever the services answer: the create
    broadcast reports it as failed, "Token refresh failed". *)
Example fresh_link_create_fails :
  (broadcastCreateEvent (Toy.platform (Toy.always 200 "ya29.fresh")) Toy.env
                        Toy.chat Toy.uid (VObj ∅) Toy.linked).1
  = Ok (Scoreboard []
          [object [("email", VStr "alice@example.com");
                   ("reason", VStr "Token refresh failed");
                   ("details", VStr "Please reconnect this account")]] 1).
Proof. vm_compute. reflexivity. Qed.

(** With a cached expiry that is due, the same account is refreshed and
    the event is created. *)
Example due_refresh_create_succeeds :
  ∃ entry : val,
    (broadcastCreateEvent (Toy.platform (Toy.always 200 "ya29.fresh")) Toy.env
                          Toy.chat Toy.uid (VObj ∅) (Toy.with_event 30000)).1
    = Ok (Scoreboard [entry] [] 1).
Proof. eexists. vm_compute. reflexivity. Qed.

(** The state issued in a store without markers has a good signature and
    is refused for want of its marker. *)
Example issued_state_refused_for_its_marker :
  ∃ (state : string) (w1 : world Z),
    issueState (Toy.platform (Toy.always 200 "ok")) Toy.chat (VNum 7) (VStr "private")
               Toy.env Toy.linked = (Ok state, w1)
    ∧ (handleOAuthCallback (Toy.platform (Toy.always 200 "ok")) (VStr "4/code")
                           (VStr state) Toy.env w1).1
      = Throw "Invalid or expired authorization state".
Proof. eexists _, _. split; [reflexivity|]. vm_compute. reflexivity. Qed.

(** A create broadcast over three accounts where the refresh of the second
    is rejected: the first and the third succeed, the second is recorded
    as failed, and nothing is raised. *)
Example create_with_one_rejected_refresh :
  ∃ (first third : val) (w' : world Z),
    broadcastCreateEvent (Toy.platform Toy.bob_rejected) Toy.env Toy.chat Toy.uid
                         (VObj ∅) Toy.three_accounts
    = (Ok (Scoreboard [first; third]
             [object [("email", VStr "bob@example.com");
                      ("reason", VStr "Token refresh failed");
                      ("details", VStr "Please reconnect this account")]] 3), w')
    ∧ field "email" first = VStr "alice@example.com"
    ∧ field "email" third = VStr "carol@example.com".
Proof. eexists _, _, _. split; [vm_compute; reflexivity|]. split; reflexivity. Qed.

(** An instance of C1: the token endpoint answers 400 to a refresh that
    is due; Alice's account is the only one of the fan-out, in a create
    and in a delete. *)
Lemma refresh_rejection_isolated_witness :
  let P := Toy.platform (Toy.always 400 "invalid_grant") in
  let alice := Toy.alice_connection (Toy.cached 30000) in
  let w := Toy.with_event 30000 in
  refresh_due P alice 1000 = true
  ∧ refresh_answer P Toy.env alice w = inr (Response 400 "invalid_grant")
  ∧ (∃ w' : world Z,
       getValidAccessTokenForConnection P Toy.env alice w = (Ok VNull, w')
       ∧ EVENTS w' = EVENTS w)
  ∧ (for_of [alice] (create_step P Toy.env Toy.chat Toy.uid (object [("title", VStr "Lunch")]))
            (Scoreboard [] [] 1) w).1
    = Ok (Scoreboard []
            [object [("email", VStr "alice@example.com");
                     ("reason", VStr "Token refresh failed");
                     ("details", VStr "Please reconnect this account")]] 1)
  ∧ (for_of [mapping_entry Toy.alice_mapping] (delete_step P Toy.env Toy.chat Toy.uid)
            (Scoreboard [] [] 1) w).1
    = Ok (Scoreboard []
            [object [("email", VStr "alice@example.com");
                     ("reason", VStr "Token refresh failed");
                     ("details", VStr "Mapping will remain until reconnected")]] 1).
Proof.
  intros P alice w.
  assert (Hdue : refresh_due P alice 1000 = true) by (vm_compute; reflexivity).
  split; [exact Hdue|]. split; [reflexivity|].
  destruct (refresh_rejection_isolated P Toy.env alice w (Response 400 "invalid_grant")
              Hdue eq_refl) as [Hrejected _].
  destruct (Hrejected eq_refl) as (Hnull & Hcreate & _ & Hdelete).
  split; [exact Hnull|]. split.
  - destruct (Hcreate Toy.chat Toy.uid (object [("title", VStr "Lunch")]) []
                      (Scoreboard [] [] 1)) as [w' Hrun].
    rewrite Hrun. vm_compute. reflexivity.
  - assert (Hconn : getGoogleConnection P Toy.env Toy.chat
                      (field "google_sub" (mapping_entry Toy.alice_mapping)) w
                    = (Ok alice, w)) by (vm_compute; reflexivity).
    destruct (Hdelete Toy.chat Toy.uid (mapping_entry Toy.alice_mapping) []
                      (Scoreboard [] [] 1) w Hconn eq_refl) as [w' Hrun].
    rewrite Hrun. vm_compute. reflexivity.
Defined.

(** An instance of C2's theorem: a store with no marker at all. *)
Lemma issued_state_is_refused_witness :
  (∀ k : string, String.prefix "oauth_state:" k = true →
                 EVENTS (World (∅ : gmap string val) 1000 []) !! k = None)
  ∧ ∃ (link state : string) (w1 : world Z),
      generateOAuthUrl (Toy.platform (Toy.always 200 "ok")) Toy.chat (VNum 7)
                       (VStr "private") Toy.env (World ∅ 1000 []) = (Ok link, w1)
      ∧ ∃ (e : string) (w2 : world Z),
          issueState (Toy.platform (Toy.always 200 "ok")) Toy.chat (VNum 7)
                     (VStr "private") Toy.env (World ∅ 1000 []) = (Ok state, w1)
          ∧ handleOAuthCallback (Toy.platform (Toy.always 200 "ok")) (VStr "4/code")
                                (VStr state) Toy.env w1 = (Throw e, w2).
Proof.
  assert (Hnone : ∀ k : string, String.prefix "oauth_state:" k = true →
                    EVENTS (World (∅ : gmap string val) 1000 []) !! k = None)
    by (intros k _; apply lookup_empty).
  split; [exact Hnone|].
  destruct (issued_state_is_refused (Toy.platform (Toy.always 200 "ok")) Toy.env
              Toy.chat (VNum 7) (VStr "private") (VStr "4/code")
              (World ∅ 1000 []) Hnone)
    as (link & state & w1 & Hlink & Hstate & _ & e & w2 & Hrun & _).
  exists link, state, w1. split; [exact Hlink|]. exists e, w2. split; [exact Hstate | exact Hrun].
Defined.

(** Counterexample to C3 as stated: the workspace has an active account
    and the event has no mapping; the update broadcast raises. *)
Lemma broadcast_raises_with_an_active_account :
  ¬ no_broadcast_raises_with_an_active_account.
Proof.
  intros Hclaim.
  destruct (Hclaim Z (Toy.platform (Toy.always 200 "ok")) Toy.env Toy.chat Toy.uid
                   (VObj ∅) Toy.linked) as (_ & (results & w' & Hupdate) & _).
  - eexists _, _, _. split; [vm_compute; reflexivity|]. vm_compute. reflexivity.
  - apply (f_equal fst) in Hupdate. vm_compute in Hupdate. discriminate Hupdate.
Qed.

(** An instance of C4's theorem, where the claim fails: an encryption
    key of twenty characters. *)
Lemma unusable_key_is_refused_witness :
  let P := Toy.platform (Toy.always 200 "ok") in
  let env := object [("ENCRYPTION_KEY", VStr "0123456789abcdefghij")] in
  aes_key_length (length (take 32 (keyMaterial P env))) = false
  ∧ encryptToken P (VStr "1//refresh-alice") env Toy.linked = (Throw "DataError", Toy.linked)
  ∧ (∃ e : string,
       decryptToken P (VStr (Toy.sealed "1//refresh-alice")) env Toy.linked
       = (Throw e, Toy.linked))
  ∧ storeGoogleConnection P env Toy.chat Toy.alice (VStr "alice@example.com")
                          (VStr "1//refresh-alice") (VStr "calendar.events") (VNum 7)
                          (World ∅ 1000 [])
    = (Throw "DataError", World ∅ 1000 []).
Proof.
  intros P env.
  assert (Hlength : aes_key_length (length (take 32 (keyMaterial P env))) = false)
    by (vm_compute; reflexivity).
  split; [exact Hlength|].
  destruct (unusable_key_is_refused P env Hlength) as (Hencrypt & Hdecrypt & Hstore).
  split; [apply Hencrypt|]. split; [apply Hdecrypt | apply Hstore].
Defined.

(** The half of C4 that the code does, on the small platform, which keeps
    the contracts of the primitives: with a key of 32 characters the round
    trip holds, and a token sealed under another key is refused. *)
Example token_roundtrip_on_small_platform :
  (∃ (c : string) (w1 : world Z),
     encryptToken (Toy.platform (Toy.always 200 "ok")) (VStr "1//refresh-alice")
                  Toy.env Toy.linked = (Ok c, w1)
     ∧ c = Toy.sealed "1//refresh-alice"
     ∧ ∀ w2 : world Z,
         decryptToken (Toy.platform (Toy.always 200 "ok")) (VStr c) Toy.env w2
         = (Ok "1//refresh-alice", w2))
  ∧ decryptToken (Toy.platform (Toy.always 200 "ok")) (VStr (Toy.sealed "1//refresh-alice"))
                 (object [("ENCRYPTION_KEY", VStr "fedcba9876543210fedcba9876543210")])
                 Toy.linked
    = (Throw "OperationError", Toy.linked).
Proof.
  split; [|vm_compute; reflexivity].
  destruct (token_cipher_roundtrip (Toy.platform (Toy.always 200 "ok"))
              (toy_codec_lossless _) (λ s, eq_refl) toy_cipher_correct toy_cipher_authentic
              toy_cipher_binds_key
              Toy.env "1//refresh-alice" _ Toy.linked eq_refl
              (λ iv plaintext, ex_intro _ _ eq_refl)) as [(c & w1 & Hseal & Hopen) _].
  exists c, w1. split; [exact Hseal|]. split; [|exact Hopen].
  apply (f_equal fst) in Hseal. vm_compute in Hseal. by injection Hseal as <-.
Qed.

(** An instance of C6's theorem, where the claim fails: the calendar
    answers the delete of a mapped event with 404 and the text "Not
    Found"; the account is counted as failed and its mapping stays. *)
Lemma delete_not_found_counted_by_text_witness :
  getGoogleConnection (Toy.platform Toy.calendar_not_found) Toy.env Toy.chat
    (field "google_sub" (mapping_entry Toy.alice_mapping)) (Toy.with_event 5000000)
  = (Ok (Toy.alice_connection (Toy.cached 5000000)), Toy.with_event 5000000)
  ∧ getValidAccessTokenForConnection (Toy.platform Toy.calendar_not_found) Toy.env
      (Toy.alice_connection (Toy.cached 5000000)) (Toy.with_event 5000000)
    = (Ok (VStr "ya29.cached"), Toy.with_event 5000000)
  ∧ ∃ w' : world Z,
      delete_step (Toy.platform Toy.calendar_not_found) Toy.env Toy.chat Toy.uid
                  (mapping_entry Toy.alice_mapping) (Scoreboard [] [] 1)
                  (Toy.with_event 5000000)
      = (Ok (Scoreboard []
               [object [("email", VStr "(sub-alice)");
                        ("reason", VStr "Exception");
                        ("details", VStr "Calendar API error: Not Found")]] 1), w')
      ∧ EVENTS w' = EVENTS (Toy.with_event 5000000).
Proof.
  assert (Hconn :
    getGoogleConnection (Toy.platform Toy.calendar_not_found) Toy.env Toy.chat
      (field "google_sub" (mapping_entry Toy.alice_mapping)) (Toy.with_event 5000000)
    = (Ok (Toy.alice_connection (Toy.cached 5000000)), Toy.with_event 5000000))
    by (vm_compute; reflexivity).
  assert (Htoken :
    getValidAccessTokenForConnection (Toy.platform Toy.calendar_not_found) Toy.env
      (Toy.alice_connection (Toy.cached 5000000)) (Toy.with_event 5000000)
    = (Ok (VStr "ya29.cached"), Toy.with_event 5000000))
    by (vm_compute; reflexivity).
  split; [exact Hconn|]. split; [exact Htoken|].
  destruct (delete_not_found_counted_by_text (Toy.platform Toy.calendar_not_found)
              Toy.env Toy.chat Toy.uid (mapping_entry Toy.alice_mapping)
              (Toy.alice_connection (Toy.cached 5000000)) (VStr "ya29.cached")
              (Scoreboard [] [] 1)
              (Toy.with_event 5000000) (Toy.with_event 5000000) (Toy.with_event 5000000)
              (Response 404 "Not Found")
              Hconn eq_refl Htoken eq_refl eq_refl eq_refl eq_refl)
    as (w' & Hstep & Hstore).
  exists w'. split; [exact Hstep | exact Hstore].
Defined.

(** The same test on the text takes a server error for a deleted event:
    the event is still in the calendar, the account is counted as
    succeeded and its mapping is removed. *)
Example server_error_taken_for_deleted :
  ∃ w' : world Z,
    broadcastDeleteEvent (Toy.platform Toy.calendar_unavailable) Toy.env Toy.chat Toy.uid
                         (Toy.with_event 5000000)
    = (Ok (Scoreboard [object [("email", VStr "(sub-alice)");
                               ("note", VStr "Already deleted")]] [] 1), w')
    ∧ EVENTS w' !! emap_key Toy.chat Toy.uid Toy.alice = None.
Proof. eexists. split; [vm_compute; reflexivity|]. vm_compute. reflexivity. Qed.


(** An instance of C9's theorem, where the claim fails: Alice's account
    holds 1001 events of the workspace and is disconnected.  The cascade
    lists the first 1000 mappings; the mapping of event number 1000 stays,
    and the event still lists Alice. *)
Lemma cascade_stops_at_first_page_witness :
  let last := emap_key Toy.chat (Cases.event_no 1000) Toy.alice in
  length (keys_with_prefix (emap_prefix Toy.chat) (EVENTS Cases.crowded)) = 1001%nat
  ∧ EVENTS Cases.crowded !! last = Some (Cases.mapping_no 1000)
  ∧ (last ∉ kv_page (emap_prefix Toy.chat) (EVENTS Cases.crowded))
  ∧ ∃ (w' : world Z) (after : list val) (m : val),
      deleteEventMappingsForAccount Toy.env Toy.chat Toy.alice Cases.crowded = (Ok tt, w')
      ∧ EVENTS w' !! last = Some (Cases.mapping_no 1000)
      ∧ getEventMappings Toy.env Toy.chat (Cases.event_no 1000) w' = (Ok after, w')
      ∧ m ∈ after
      ∧ strict_eq (field "google_sub" m) Toy.alice = true.
Proof.
  intros last.
  assert (Hcount : length (keys_with_prefix (emap_prefix Toy.chat) (EVENTS Cases.crowded))
                   = 1001%nat) by (vm_compute; reflexivity).
  assert (Hlast : EVENTS Cases.crowded !! last = Some (Cases.mapping_no 1000))
    by (vm_compute; reflexivity).
  assert (Hnot : bool_decide (last ∈ kv_page (emap_prefix Toy.chat) (EVENTS Cases.crowded))
                 = false) by (vm_compute; reflexivity).
  assert (Hbeyond : last ∉ kv_page (emap_prefix Toy.chat) (EVENTS Cases.crowded))
    by (by apply bool_decide_eq_false in Hnot).
  split; [exact Hcount|]. split; [exact Hlast|]. split; [exact Hbeyond|].
  destruct (cascade_stops_at_first_page Toy.env Toy.chat Toy.alice Cases.crowded)
    as (w' & Hrun & _ & _ & Hstays).
  destruct (Hstays (Cases.event_no 1000) last (Cases.mapping_no 1000))
    as (Hkept & after & m & Hlist & Hin & Halice).
  - vm_compute. reflexivity.
  - exact Hlast.
  - vm_compute. reflexivity.
  - exact Hbeyond.
  - apply Nat.leb_le. vm_compute. reflexivity.
  - exists w', after, m. split; [exact Hrun|]. split; [exact Hkept|].
    split; [exact Hlist|]. split; [exact Hin | exact Halice].
Defined.

(** An instance of C10: the record of the linked account is revised. *)
Lemma updateConnectionAccessToken_frame_witness :
  EVENTS Toy.linked !! gconn_key Toy.chat Toy.alice = Some (VObj (Toy.alice_fields []))
  ∧ jsonify (VObj (Toy.alice_fields [])) = VObj (Toy.alice_fields [])
  ∧ ∃ o' : gmap string val,
      updateConnectionAccessToken (Toy.platform (Toy.always 200 "ok")) Toy.env
        Toy.chat Toy.alice (VStr "ya29.new") (VNum 3601000) Toy.linked
      = (Ok tt, World (<[gconn_key Toy.chat Toy.alice := VObj o']> (EVENTS Toy.linked))
                      1000 [])
      ∧ o' !! "access_token" = Some (VStr "ya29.new")
      ∧ o' !! "revoked" = Some (VBool false)
      ∧ o' !! "refresh_token_enc" = Toy.alice_fields [] !! "refresh_token_enc".
Proof.
  assert (Hold : EVENTS Toy.linked !! gconn_key Toy.chat Toy.alice
                 = Some (VObj (Toy.alice_fields [])))
    by apply lookup_singleton_eq.
  assert (Hjson : jsonify (VObj (Toy.alice_fields [])) = VObj (Toy.alice_fields []))
    by (vm_compute; reflexivity).
  split; [exact Hold|]. split; [exact Hjson|].
  destruct (updateConnectionAccessToken_frame (Toy.platform (Toy.always 200 "ok")) Toy.env
              Toy.chat Toy.alice (VStr "ya29.new") (VNum 3601000) Toy.linked)
    as [Hpresent _].
  destruct (Hpresent _ Hold Hjson) as (o' & Hrun & Htoken & _ & _ & Hframe).
  exists o'. split; [exact Hrun|]. split; [exact Htoken|]. split.
  - rewrite Hframe by done. reflexivity.
  - apply Hframe; done.
Defined.

(* ================================================================== *)
(** ** Instances of the further properties *)
(* ================================================================== *)

(** An instance of X1: a mapping stored for Bob's account beside Alice's. *)
Lemma stored_mapping_is_listed_witness :
  ∃ (w' : world Z) (after : list val),
    storeEventMapping (Toy.platform (Toy.always 200 "ok")) Toy.env Toy.chat Toy.uid Toy.bob
                      (VStr "g-evt-2") (Toy.with_event 5000000) = (Ok tt, w')
    ∧ one_page (emap_uid_prefix Toy.chat Toy.uid) (EVENTS w')
    ∧ getEventMappings Toy.env Toy.chat Toy.uid w' = (Ok after, w')
    ∧ object [("google_sub", VStr "sub-bob"); ("google_event_id", VStr "g-evt-2")] ∈ after.
Proof.
  destruct (stored_mapping_is_listed (Toy.platform (Toy.always 200 "ok")) Toy.env Toy.chat
              Toy.uid Toy.bob (VStr "g-evt-2") (Toy.with_event 5000000))
    as (w' & before & after & Hrun & _ & _ & Hafter & Hin & _).
  assert (Hfit : one_page (emap_uid_prefix Toy.chat Toy.uid) (EVENTS w')).
  { apply (f_equal snd) in Hrun. simpl in Hrun. subst w'.
    apply Nat.leb_le. vm_compute. reflexivity. }
  exists w', after. split; [exact Hrun|]. split; [exact Hfit|]. split; [exact Hafter|].
  exact (Hin Hfit).
Defined.

(** An instance of X2: the mappings of the one event of the small store. *)
Lemma deleteEventMapping_whole_event_witness :
  truthy VNull = false
  ∧ one_page (emap_uid_prefix Toy.chat Toy.uid) (EVENTS (Toy.with_event 5000000))
  ∧ ∃ w' : world Z,
      deleteEventMapping Toy.env Toy.chat Toy.uid VNull (Toy.with_event 5000000) = (Ok tt, w')
      ∧ EVENTS w' !! emap_key Toy.chat Toy.uid Toy.alice = None
      ∧ getEventMappings Toy.env Toy.chat Toy.uid w' = (Ok [], w').
Proof.
  assert (Hfit : one_page (emap_uid_prefix Toy.chat Toy.uid)
                          (EVENTS (Toy.with_event 5000000)))
    by (apply Nat.leb_le; vm_compute; reflexivity).
  split; [reflexivity|]. split; [exact Hfit|].
  destruct (deleteEventMapping_whole_event Toy.env Toy.chat Toy.uid VNull
              (Toy.with_event 5000000) eq_refl) as (w' & Hrun & _ & Hcomplete).
  destruct (Hcomplete Hfit) as [Hstore Hnone].
  exists w'. split; [exact Hrun|]. split; [|exact Hnone].
  rewrite Hstore. reflexivity.
Defined.

(** An instance of X4 on the small platform, which keeps the contracts
    of the primitives. *)
Lemma stored_connection_is_read_back_witness :
  aes_importKey (take 32 (keyMaterial (Toy.platform (Toy.always 200 "ok")) Toy.env))
  = Ok (list_byte_of_string "0123456789abcdef0123456789abcdef")
  ∧ ∃ (w1 w2 : world Z) (conn : val) (connections : list val),
      storeGoogleConnection (Toy.platform (Toy.always 200 "ok")) Toy.env Toy.chat Toy.alice
        (VStr "Alice@Example.com") (VStr "1//refresh-alice") (VStr "calendar.events")
        (VNum 7) (World ∅ 1000 []) = (Ok tt, w1)
      ∧ getGoogleConnection (Toy.platform (Toy.always 200 "ok")) Toy.env Toy.chat Toy.alice w1
        = (Ok conn, w2)
      ∧ field "refresh_token" conn = VStr "1//refresh-alice"
      ∧ field "google_email" conn = VStr "alice@example.com"
      ∧ (getWorkspaceConnections (Toy.platform (Toy.always 200 "ok")) Toy.env Toy.chat w1).1
        = Ok connections
      ∧ conn ∈ connections.
Proof.
  assert (Hkey : aes_importKey
                   (take 32 (keyMaterial (Toy.platform (Toy.always 200 "ok")) Toy.env))
                 = Ok (list_byte_of_string "0123456789abcdef0123456789abcdef"))
    by (vm_compute; reflexivity).
  split; [exact Hkey|].
  destruct (stored_connection_is_read_back (Toy.platform (Toy.always 200 "ok"))
              (toy_codec_lossless _) (λ s, eq_refl) toy_cipher_correct
              Toy.env Toy.chat Toy.alice (VStr "calendar.events") (VNum 7)
              "Alice@Example.com" "1//refresh-alice" _ _ (World ∅ 1000 []) Hkey eq_refl)
    as (w1 & w2 & conn & connections & Hstore & Hget & _ & Htoken & _ & Hmail & _ & _ & _
        & Hlist & Hlisted).
  exists w1, w2, conn, connections. split; [exact Hstore|]. split; [exact Hget|].
  split; [exact Htoken|]. split; [exact Hmail|]. split; [exact Hlist|].
  apply Hlisted. apply (f_equal snd) in Hstore. simpl in Hstore. subst w1.
  apply Nat.leb_le. vm_compute. reflexivity.
Defined.

(** An instance of X6: the tokens of the chat with one linked account. *)
Lemma deleteChatTokens_deactivates_witness :
  keyed_by_account (Toy.platform (Toy.always 200 "ok")) Toy.env Toy.chat (EVENTS Toy.linked)
  ∧ ∃ w' : world Z,
      deleteChatTokens (Toy.platform (Toy.always 200 "ok")) Toy.env Toy.chat Toy.linked
      = (Ok tt, w')
      ∧ (getWorkspaceConnections (Toy.platform (Toy.always 200 "ok")) Toy.env Toy.chat w').1
        = Ok [].
Proof.
  assert (Hkeyed : keyed_by_account (Toy.platform (Toy.always 200 "ok")) Toy.env Toy.chat
                                    (EVENTS Toy.linked)).
  { intros k data c _ Hdata _.
    change (EVENTS Toy.linked)
      with ({[ gconn_key Toy.chat Toy.alice := VObj (Toy.alice_fields []) ]} : gmap string val)
      in Hdata.
    apply lookup_singleton_Some in Hdata as [<- <-]. reflexivity. }
  split; [exact Hkeyed|].
  destruct (deleteChatTokens_deactivates (Toy.platform (Toy.always 200 "ok")) Toy.env
              Toy.chat Toy.linked Hkeyed) as (w' & Hrun & _ & Hnone & _).
  exists w'. split; [exact Hrun | exact Hnone].
Defined.

(** An instance of X8: a callback that succeeds on a state awaiting its
    callback, and a second callback with the same state. *)
Lemma authorization_state_is_single_use_witness :
  let first :=
    handleOAuthCallback (Toy.platform (Toy.always 200 "tok")) (VStr "4/code")
                        (VStr Cases.state) Toy.env Cases.awaiting in
  (∃ result : val, first.1 = Ok result)
  ∧ handleOAuthCallback (Toy.platform (Toy.always 200 "tok")) (VStr "4/replayed")
                        (VStr Cases.state) Toy.env first.2
    = (Throw "Invalid or expired authorization state", first.2).
Proof.
  intros first.
  assert (Hok : ∃ result : val, first.1 = Ok result) by (vm_compute; eexists; reflexivity).
  split; [exact Hok|].
  destruct Hok as [result Hresult].
  apply (authorization_state_is_single_use (Toy.platform (Toy.always 200 "tok"))
           (VStr "4/code") (VStr "4/replayed") (VStr Cases.state) Toy.env result
           Cases.awaiting first.2).
  fold first. rewrite <- Hresult. apply surjective_pairing.
Defined.

(** An instance of X10: the state issued for user 7 in the private chat 42. *)
Lemma issued_state_is_read_back_witness :
  split ":" (tpl Toy.chat) = [tpl Toy.chat]
  ∧ split ":" (tpl (VNum 7)) = [tpl (VNum 7)]
  ∧ split ":" (tpl (VStr "private")) = [tpl (VStr "private")]
  ∧ split ":" "7a3f9c21-0000" = ["7a3f9c21-0000"]
  ∧ ∃ state : string,
      (issueState (Toy.platform (Toy.always 200 "ok")) Toy.chat (VNum 7) (VStr "private")
                  Toy.env Toy.linked).1 = Ok state
      ∧ (parseAndVerifyState (Toy.platform (Toy.always 200 "ok")) (VStr state)
                             (state_secret Toy.env) Toy.linked).1
        = Ok (object [("chatId", of_num None); ("initiatedBy", of_num None);
                      ("chatType", VStr "private"); ("nonce", VStr "7a3f9c21-0000")]).
Proof.
  assert (Hchat : split ":" (tpl Toy.chat) = [tpl Toy.chat]) by (vm_compute; reflexivity).
  assert (Huser : split ":" (tpl (VNum 7)) = [tpl (VNum 7)]) by (vm_compute; reflexivity).
  assert (Htype : split ":" (tpl (VStr "private")) = [tpl (VStr "private")]) by reflexivity.
  assert (Hnonce : split ":" "7a3f9c21-0000" = ["7a3f9c21-0000"]) by reflexivity.
  repeat (split; [assumption|]).
  destruct (issued_state_is_read_back (Toy.platform (Toy.always 200 "ok")) (λ s, eq_refl)
              Toy.chat (VNum 7) (VStr "private") Toy.linked Hchat Huser Htype Hnonce Toy.env)
    as (state & Hissue & Hread).
  exists state. split.
  - by rewrite Hissue.
  - by rewrite (Hread Toy.linked).
Defined.

(** An instance of X11: the state of the link made for user 7 in the
    private chat 42, handed to the callback. *)
Lemma pending_state_is_refused_witness :
  split ":" (tpl Toy.chat) = [tpl Toy.chat]
  ∧ split ":" (tpl (VNum 7)) = [tpl (VNum 7)]
  ∧ split ":" (tpl (VStr "private")) = [tpl (VStr "private")]
  ∧ split ":" "7a3f9c21-0000" = ["7a3f9c21-0000"]
  ∧ ∃ r : val,
      (generateOAuthURL (Toy.platform (Toy.always 200 "ok")) Toy.env Toy.chat (VNum 7)
                        (VStr "private") Toy.linked).1 = Ok r
      ∧ (handleOAuthCallback (Toy.platform (Toy.always 200 "ok")) (VStr "4/code")
                             (field "state" r) Toy.env Toy.linked).1
        = Throw "Invalid or tampered authorization state".
Proof.
  assert (Hchat : split ":" (tpl Toy.chat) = [tpl Toy.chat]) by (vm_compute; reflexivity).
  assert (Huser : split ":" (tpl (VNum 7)) = [tpl (VNum 7)]) by (vm_compute; reflexivity).
  assert (Htype : split ":" (tpl (VStr "private")) = [tpl (VStr "private")]) by reflexivity.
  assert (Hnonce : split ":" "7a3f9c21-0000" = ["7a3f9c21-0000"]) by reflexivity.
  repeat (split; [assumption|]).
  destruct (pending_state_is_refused (Toy.platform (Toy.always 200 "ok")) (λ s, eq_refl)
              Toy.chat (VNum 7) (VStr "private") Toy.linked Hchat Huser Htype Hnonce Toy.env)
    as (r & Hlink & _ & _ & Hcallback).
  exists r. split.
  - by rewrite Hlink.
  - destruct (Hcallback (VStr "4/code") Toy.env Toy.linked) as [lines Hrun].
    by rewrite Hrun.
Defined.

(** An instance of X13: the token endpoint answers 500 while Alice's
    cached credential is due, and her account is the only one of the
    fan-out. *)
Lemma credential_exception_is_isolated_witness :
  let P := Toy.platform (Toy.always 500 "boom") in
  let alice := Toy.alice_connection (Toy.cached 30000) in
  let event := object [("title", VStr "Lunch")] in
  (getValidAccessTokenForConnection P Toy.env alice (Toy.with_event 30000)).1
  = Throw "Token refresh failed: boom"
  ∧ (for_of [alice] (create_step P Toy.env Toy.chat Toy.uid event) (Scoreboard [] [] 1)
            (Toy.with_event 30000)).1
    = Ok (Scoreboard [] [failure (VStr "alice@example.com") (VStr "Exception")
                                 (VStr "Token refresh failed: boom")] 1).
Proof.
  intros P alice event.
  assert (Hraise : (getValidAccessTokenForConnection P Toy.env alice (Toy.with_event 30000)).1
                   = Throw "Token refresh failed: boom") by (vm_compute; reflexivity).
  split; [exact Hraise|].
  destruct (credential_exception_is_isolated P Toy.env alice (Toy.with_event 30000)
              (getValidAccessTokenForConnection P Toy.env alice (Toy.with_event 30000)).2
              "Token refresh failed: boom") as [Hcreate _].
  { rewrite <- Hraise. apply surjective_pairing. }
  destruct (Hcreate Toy.chat Toy.uid event [] (Scoreboard [] [] 1)) as [w' Hrun].
  rewrite Hrun. reflexivity.
Defined.

(** An instance of X14: a mapping whose account has no connection record,
    in a deletion. *)
Lemma disconnected_account_in_broadcast_witness :
  let P := Toy.platform (Toy.always 200 "ok") in
  EVENTS Cases.orphaned !! gconn_key Toy.chat (field "google_sub" Toy.alice_mapping)
    ≫= connection_view P Toy.env = None
  ∧ ∃ w' : world Z,
      for_of [Toy.alice_mapping] (delete_step P Toy.env Toy.chat Toy.uid) (Scoreboard [] [] 1)
             Cases.orphaned
      = (Ok (Scoreboard [object [("email", VStr "(disconnected: sub-alice)");
                                 ("note", VStr "Mapping removed (account disconnected)")]]
                        [] 1), w')
      ∧ EVENTS w' = delete (emap_key Toy.chat Toy.uid Toy.alice) (EVENTS Cases.orphaned).
Proof.
  intros P.
  assert (Hgone : EVENTS Cases.orphaned
                    !! gconn_key Toy.chat (field "google_sub" Toy.alice_mapping)
                    ≫= connection_view P Toy.env = None) by (vm_compute; reflexivity).
  split; [exact Hgone|].
  destruct (disconnected_account_in_broadcast P Toy.env Toy.chat Toy.uid Toy.alice_mapping
              Cases.orphaned Hgone) as [_ Hdelete].
  destruct (Hdelete [] (Scoreboard [] [] 1) eq_refl) as (w' & Hrun & Hstore & _).
  exists w'. split; [exact Hrun | exact Hstore].
Defined.

(** An instance of X15: an event created in Alice's account with her
    cached credential. *)
Lemma created_event_is_mapped_witness :
  let P := Toy.platform (Toy.always 200 "ok") in
  let alice := Toy.alice_connection (Toy.cached 5000000) in
  let event := object [("title", VStr "Lunch"); ("start", VStr "2026-01-05T10:00:00Z");
                       ("end", VStr "2026-01-05T11:00:00Z")] in
  let reference := VStr "EVT-0badcafe" in
  (getValidAccessTokenForConnection P Toy.env alice (Toy.with_event 5000000)).1
  = Ok (VStr "ya29.cached")
  ∧ ∃ (w' : world Z) (mappings : list val),
      (create_step P Toy.env Toy.chat reference event alice (Scoreboard [] [] 1)
                   (Toy.with_event 5000000)).2 = w'
      ∧ getEventMappings Toy.env Toy.chat reference w' = (Ok mappings, w')
      ∧ object [("google_sub", VStr "sub-alice"); ("google_event_id", VStr "ok")] ∈ mappings.
Proof.
  intros P alice event reference.
  assert (Hcached : (getValidAccessTokenForConnection P Toy.env alice
                       (Toy.with_event 5000000)).1 = Ok (VStr "ya29.cached"))
    by (vm_compute; reflexivity).
  split; [exact Hcached|].
  assert (Hrun : getValidAccessTokenForConnection P Toy.env alice (Toy.with_event 5000000)
                 = (Ok (VStr "ya29.cached"),
                    (getValidAccessTokenForConnection P Toy.env alice
                       (Toy.with_event 5000000)).2))
    by (rewrite <- Hcached; apply surjective_pairing).
  destruct (created_event_is_mapped P Toy.env Toy.chat reference event alice
              (VStr "ya29.cached")
              (object [("summary", VStr "Lunch");
                       ("start", object [("dateTime", VStr "2026-01-05T10:00:00Z")]);
                       ("end", object [("dateTime", VStr "2026-01-05T11:00:00Z")])])
              (Toy.parsed "ok") (VStr "ok") (VStr "2026-01-05T10:00:00Z")
              (VStr "2026-01-05T11:00:00Z") (Scoreboard [] [] 1) (Toy.with_event 5000000)
              (getValidAccessTokenForConnection P Toy.env alice (Toy.with_event 5000000)).2
              (Response 200 "ok") Hrun eq_refl eq_refl eq_refl eq_refl eq_refl eq_refl eq_refl
              eq_refl)
    as (w' & o & mappings & Hstep & Hevents & Hlist & Hin).
  exists w', mappings. split; [by rewrite Hstep|]. split; [exact Hlist|].
  apply Hin. unfold one_page. rewrite Hevents.
  apply Nat.leb_le. vm_compute. reflexivity.
Defined.

(** An instance of X19: an event created under the reference the
    generator makes, then addressed by a message that quotes it. *)
Lemma upper_cased_reference_misses_mappings_witness :
  let P := Toy.platform (Toy.always 200 "ok") in
  evt_search "#del EVT-7a3f9c21" = Some "EVT-7a3f9c21"
  ∧ toUpperCase "EVT-7a3f9c21" ≠ "EVT-7a3f9c21"
  ∧ ∃ w1 : world Z,
      storeEventMapping P Toy.env Toy.chat (VStr "EVT-7a3f9c21") Toy.alice (VStr "g-evt-1")
                        Toy.linked = (Ok tt, w1)
      ∧ resolveEventUID Toy.env Toy.chat (VNum 7) (VStr "#del EVT-7a3f9c21") w1
        = (Ok (VStr "EVT-7A3F9C21"), w1)
      ∧ broadcastDeleteEvent P Toy.env Toy.chat (VStr "EVT-7A3F9C21") w1
        = (Throw "Event not found or already deleted", w1).
Proof.
  intros P.
  assert (Hfound : evt_search "#del EVT-7a3f9c21" = Some "EVT-7a3f9c21") by reflexivity.
  assert (Hcase : toUpperCase "EVT-7a3f9c21" ≠ "EVT-7a3f9c21") by discriminate.
  split; [exact Hfound|]. split; [exact Hcase|].
  destruct (upper_cased_reference_misses_mappings P Toy.env Toy.chat (VNum 7) Toy.alice
              (VStr "g-evt-1") (object [("title", VStr "Dinner")]) "#del EVT-7a3f9c21"
              "EVT-7a3f9c21" Toy.linked Hfound Hcase)
    as (w1 & Hstore & Hresolve & _ & _ & Hdelete).
  { intros k Hk.
    change (EVENTS Toy.linked)
      with ({[ gconn_key Toy.chat Toy.alice := VObj (Toy.alice_fields []) ]} : gmap string val).
    apply lookup_singleton_None. intros <-. vm_compute in Hk. discriminate Hk. }
  exists w1. split; [exact Hstore|]. split; [exact Hresolve | exact Hdelete].
Defined.

(** An instance of X20: the reference generated from the identifier
    7a3f9c21-0000. *)
Lemma generated_reference_is_valid_witness :
  split "-" "7a3f9c21-0000" = ["7a3f9c21"; "0000"]
  ∧ hex_run 8 "7a3f9c21" = Some "7a3f9c21"
  ∧ (generateEventUID (Toy.platform (Toy.always 200 "ok")) Toy.linked).1 = Ok "EVT-7a3f9c21"
  ∧ isValidEventUID (VStr "EVT-7a3f9c21") = true
  ∧ extractEventUID (VStr "EVT-7a3f9c21") = Ok (VStr "EVT-7A3F9C21").
Proof.
  assert (Hsplit : split "-" "7a3f9c21-0000" = ["7a3f9c21"; "0000"]) by reflexivity.
  assert (Hhex : hex_run 8 "7a3f9c21" = Some "7a3f9c21") by reflexivity.
  split; [exact Hsplit|]. split; [exact Hhex|].
  destruct (generated_reference_is_valid (Toy.platform (Toy.always 200 "ok")) Toy.linked
              "7a3f9c21" ["0000"] Hsplit Hhex) as (Hrun & Hvalid & Hextract).
  split; [by rewrite Hrun|]. split; [exact Hvalid | exact Hextract].
Defined.

(** An instance of X23: the tokens of user 7. *)
Lemma user_tokens_roundtrip_witness :
  let P := Toy.platform (Toy.always 200 "ok") in
  prop "access_token" (Toy.parsed "ya29.first") = Ok (VStr "ya29.first")
  ∧ ∃ (o : gmap string val) (w1 w2 : world Z),
      storeUserTokens P Toy.env (VNum 7) (Toy.parsed "ya29.first") Toy.linked = (Ok tt, w1)
      ∧ o !! "access_token" = Some (VStr "ya29.first")
      ∧ (getUserTokens Toy.env (VNum 7) w1).1 = Ok (VObj o)
      ∧ deleteUserTokens Toy.env (VNum 7) w1 = (Ok tt, w2)
      ∧ (getUserTokens Toy.env (VNum 7) w2).1 = Ok VNull.
Proof.
  intros P.
  assert (Hprop : prop "access_token" (Toy.parsed "ya29.first") = Ok (VStr "ya29.first"))
    by reflexivity.
  split; [exact Hprop|].
  destruct (user_tokens_roundtrip P Toy.env (VNum 7) (Toy.parsed "ya29.first")
              (VStr "ya29.first") Toy.linked Hprop)
    as (o & w1 & w2 & Hstore & _ & Htoken & _ & _ & Hget & Hdelete & _ & Hgone).
  exists o, w1, w2. split; [exact Hstore|]. split; [exact Htoken|].
  split; [exact Hget|]. split; [exact Hdelete | exact Hgone].
Defined.

(** An instance of X24: linking an account in chat 43 leaves what chat 42
    lists. *)
Lemma chats_are_isolated_witness :
  let P := Toy.platform (Toy.always 200 "ok") in
  let link := storeGoogleConnection P Toy.env (VNum 43) Toy.bob (VStr "bob@example.com")
                (VStr "1//refresh-bob") (VStr "calendar.events") (VNum 9) in
  (42 ≠ 43)%Z
  ∧ (getWorkspaceConnections P Toy.env (VNum 42) (link Toy.linked).2).1
    = (getWorkspaceConnections P Toy.env (VNum 42) Toy.linked).1.
Proof.
  intros P link.
  assert (Hchats : (42 ≠ 43)%Z) by lia.
  split; [exact Hchats|].
  pose proof (chats_are_isolated P 42 43 Toy.env Hchats) as Hisolated.
  cbv zeta in Hisolated.
  destruct Hisolated as (Hstore & _ & _ & _ & _ & _ & Hread).
  exact (proj1 (Hread unit link Toy.linked
                  (Hstore Toy.bob (VStr "bob@example.com") (VStr "1//refresh-bob")
                          (VStr "calendar.events") (VNum 9)))).
Defined.
